(** * LLM Cafe elimination engines: token economy and round settlement

    A shallow embedding of the token economy of [cafe_elimination_v3.py]
    (classes [TokenLoan], [Participant], [ChallengeEngine],
    [EliminationEngineV3]) and of the rounds of
    [cafe_elimination_v5_standalone.py] (classes [AI],
    [EliminationEngineV5]: challenge round, settlement, negotiation round
    and the loop of the season), with the properties the specification
    states about them and further properties read off the code.

    Python objects live in a store and are named by references, because the
    code shares them: a [TokenLoan] is appended to the lender's
    [loans_issued] and to the borrower's [loans_owed] and both lists see the
    same object; a participant may be handed to its own method as the other
    party.  Exceptions are outcomes, and the state reached when one is raised
    is kept. *)

From Stdlib Require Import ZArith Lia Bool List SpecFloat.
From stdpp Require Import base option list strings gmap.

Local Open Scope Z_scope.

(** ** Outcomes and the state-and-exception monad *)

(** The Python exceptions the modelled code can raise.  [InvalidRef] is not a
    Python exception: it is the embedding's answer to a reference with no
    object behind it, a situation no Python state contains. *)
Inductive exn : Type :=
  | KeyError | IndexError | TypeError | ValueError | OverflowError
  | StopIteration
  | InvalidRef.

Inductive outcome (A : Type) : Type :=
  | Returned (a : A)
  | Raised (e : exn).
Arguments Returned {A} a.
Arguments Raised {A} e.

Definition returned {A} (o : outcome A) : Prop := ∃ a, o = Returned a.

(** A computation over a state [S]: it always hands back the state it
    reached, also when it raises. *)
Definition Py (S A : Type) : Type := S → outcome A * S.

Definition ret {S A} (a : A) : Py S A := λ s, (Returned a, s).
Definition raise {S A} (e : exn) : Py S A := λ s, (Raised e, s).
Definition bind {S A B} (m : Py S A) (f : A → Py S B) : Py S B :=
  λ s, match m s with
       | (Returned a, s') => f a s'
       | (Raised e, s') => (Raised e, s')
       end.
Definition get {S} : Py S S := λ s, (Returned s, s).
Definition modify {S} (f : S → S) : Py S unit := λ s, (Returned tt, f s).
Definition lift_outcome {S A} (o : outcome A) : Py S A := λ s, (o, s).

(** [try m handler]: Python's [try: m  except Exception: handler]. *)
Definition try {S A} (m : Py S A) (handler : exn → Py S A) : Py S A :=
  λ s, match m s with
       | (Returned a, s') => (Returned a, s')
       | (Raised e, s') => handler e s'
       end.

#[export] Instance Py_ret {S} : MRet (Py S) := λ A, @ret S A.
#[export] Instance Py_bind {S} : MBind (Py S) := λ A B f m, bind m f.

(** [for x in l: body x], stopping at the first exception. *)
Fixpoint for_each {S A} (l : list A) (body : A → Py S unit) : Py S unit :=
  match l with
  | [] => ret tt
  | x :: l' => body x;; for_each l' body
  end.

(** A [for] loop that threads the loop's local variables [b]. *)
Fixpoint for_fold {S A B} (l : list A) (body : B → A → Py S B) (b : B)
  : Py S B :=
  match l with
  | [] => ret b
  | x :: l' => b' ← body b x; for_fold l' body b'
  end.

(** A computation on a component of the state, run inside the whole state. *)
Definition zoom {S T A} (proj : S → T) (upd : T → S → S) (m : Py T A)
  : Py S A :=
  λ s, let '(o, t) := m (proj s) in (o, upd t s).

(** ** Preservation of a state invariant *)

Definition preserves {S A} (I : S → Prop) (m : Py S A) : Prop :=
  ∀ s, I s → I (m s).2.


(** ** Python's float arithmetic (IEEE 754 binary64)

    The economy multiplies integers by floats and truncates with [int()]:
    [int(self.token_bank * 0.05)], [int(self.principal * (1 + rate))].
    Floats are the Standard Library's [spec_float] at precision 53. *)
Module PyFloat.
Definition prec : Z := 53.
Definition emax : Z := 1024.

(** Conversion of a Python [int] operand in mixed arithmetic: rounded to
    nearest even, [OverflowError] when out of range. *)
Definition of_int (z : Z) : outcome spec_float :=
  match binary_normalize prec emax z 0 false with
  | S754_infinity _ => Raised OverflowError
  | f => Returned f
  end.

Definition add : spec_float → spec_float → spec_float := SFadd prec emax.
Definition mul : spec_float → spec_float → spec_float := SFmul prec emax.

(** [int(x)]: truncation toward zero; [ValueError] on NaN and
    [OverflowError] on an infinity. *)
Definition to_int (x : spec_float) : outcome Z :=
  match x with
  | S754_zero _ => Returned 0
  | S754_nan => Raised ValueError
  | S754_infinity _ => Raised OverflowError
  | S754_finite s m e =>
      let a := Z.shiftl (Zpos m) e in
      Returned (if s then - a else a)
  end.

(** The literals [1] (as a float operand) and [0.05]. *)
Definition one : spec_float := S754_finite false 4503599627370496 (-52).
Definition lit_0_05 : spec_float := S754_finite false 7205759403792794 (-57).
Definition lit_0_2 : spec_float := S754_finite false 7205759403792794 (-55).

(** [int(n * x)] for an integer [n] and a float [x]. *)
Definition int_mul_float (n : Z) (x : spec_float) : outcome Z :=
  match of_int n with
  | Returned f => to_int (mul f x)
  | Raised e => Raised e
  end.

(** The sign bit of a float, when it has one. *)
Definition sign_is (s : bool) (x : spec_float) : Prop :=
  match x with
  | S754_zero s' | S754_infinity s' | S754_finite s' _ _ => s' = s
  | S754_nan => True
  end.
End PyFloat.

(** ** Values decoded from JSON

    What the judging collaborator's answer decodes to: [null], a string, or
    anything else, of which only truthiness and hashability matter. *)
Inductive jval : Type :=
  | JNull
  | JStr (s : string)
  | JOther (truthy hashable : bool).

Definition truthy (v : jval) : bool :=
  match v with
  | JNull => false
  | JStr s => negb (bool_decide (s = ""))
  | JOther t _ => t
  end.

(** ** Version 3: the token economy ([cafe_elimination_v3.py]) *)
Module V3.

(** *** [class TokenLoan] *)
Record TokenLoan : Type := {
  lender_name : string;
  borrower_name : string;
  principal : Z;
  interest_rate : spec_float;
  duration : Z;
  rounds_remaining : Z;
  issued_round : Z
}.

(** [TokenLoan.__init__] *)
Definition new_loan (lender borrower : string) (amount : Z)
    (rate : spec_float) (dur : Z) : TokenLoan :=
  {| lender_name := lender; borrower_name := borrower; principal := amount;
     interest_rate := rate; duration := dur; rounds_remaining := dur;
     issued_round := 0 |}.

(** [calculate_payment]: [int(self.principal * (1 + self.interest_rate))] *)
Definition calculate_payment (l : TokenLoan) : outcome Z :=
  PyFloat.int_mul_float (principal l)
    (PyFloat.add PyFloat.one (interest_rate l)).

Definition set_rounds_remaining (r : Z) (l : TokenLoan) : TokenLoan :=
  {| lender_name := lender_name l; borrower_name := borrower_name l;
     principal := principal l; interest_rate := interest_rate l;
     duration := duration l; rounds_remaining := r;
     issued_round := issued_round l |}.

(** *** [PERFORMANCE_LEVELS]

    The table's keys are the levels -5 .. 3.  Of each entry the response
    budget and the presence of a cognitive-load prefix are kept; the
    temperature and the texts only reach the generation collaborator. *)
Record LevelConfig : Type := {
  max_tokens : Z;
  cognitive_load : bool
}.

Definition PERFORMANCE_LEVELS (lvl : Z) : option LevelConfig :=
  match lvl with
  | -5 => Some {| max_tokens := 75; cognitive_load := true |}
  | -4 => Some {| max_tokens := 100; cognitive_load := true |}
  | -3 => Some {| max_tokens := 150; cognitive_load := true |}
  | -2 => Some {| max_tokens := 250; cognitive_load := true |}
  | -1 => Some {| max_tokens := 500; cognitive_load := true |}
  | 0 => Some {| max_tokens := 1000; cognitive_load := false |}
  | 1 => Some {| max_tokens := 1500; cognitive_load := false |}
  | 2 => Some {| max_tokens := 2000; cognitive_load := false |}
  | 3 => Some {| max_tokens := 2500; cognitive_load := false |}
  | _ => None
  end.

(** *** [class Participant]

    [loans_owed] and [loans_issued] hold references into the loan store.
    The attributes [model] and [client] belong to the generation
    collaborator and are left out. *)
Record Participant : Type := {
  name : string;
  level : Z;
  token_bank : Z;
  loans_owed : list nat;
  loans_issued : list nat;
  eliminated : bool;
  elimination_round : option Z;
  total_earned : Z;
  total_spent : Z;
  total_interest_earned : Z;
  donations_given : Z;
  donations_received : Z
}.

(** [Participant.__init__] *)
Definition new_participant (n : string) : Participant :=
  {| name := n; level := 0; token_bank := 1000; loans_owed := [];
     loans_issued := []; eliminated := false; elimination_round := None;
     total_earned := 1000; total_spent := 0; total_interest_earned := 0;
     donations_given := 0; donations_received := 0 |}.

Definition set_level (v : Z) (p : Participant) : Participant :=
  {| name := name p; level := v; token_bank := token_bank p;
     loans_owed := loans_owed p; loans_issued := loans_issued p;
     eliminated := eliminated p; elimination_round := elimination_round p;
     total_earned := total_earned p; total_spent := total_spent p;
     total_interest_earned := total_interest_earned p;
     donations_given := donations_given p;
     donations_received := donations_received p |}.

Definition set_token_bank (v : Z) (p : Participant) : Participant :=
  {| name := name p; level := level p; token_bank := v;
     loans_owed := loans_owed p; loans_issued := loans_issued p;
     eliminated := eliminated p; elimination_round := elimination_round p;
     total_earned := total_earned p; total_spent := total_spent p;
     total_interest_earned := total_interest_earned p;
     donations_given := donations_given p;
     donations_received := donations_received p |}.

Definition set_loans_owed (v : list nat) (p : Participant) : Participant :=
  {| name := name p; level := level p; token_bank := token_bank p;
     loans_owed := v; loans_issued := loans_issued p;
     eliminated := eliminated p; elimination_round := elimination_round p;
     total_earned := total_earned p; total_spent := total_spent p;
     total_interest_earned := total_interest_earned p;
     donations_given := donations_given p;
     donations_received := donations_received p |}.

Definition set_loans_issued (v : list nat) (p : Participant) : Participant :=
  {| name := name p; level := level p; token_bank := token_bank p;
     loans_owed := loans_owed p; loans_issued := v;
     eliminated := eliminated p; elimination_round := elimination_round p;
     total_earned := total_earned p; total_spent := total_spent p;
     total_interest_earned := total_interest_earned p;
     donations_given := donations_given p;
     donations_received := donations_received p |}.

(** [p.eliminated = True; p.elimination_round = r] *)
Definition set_eliminated (r : Z) (p : Participant) : Participant :=
  {| name := name p; level := level p; token_bank := token_bank p;
     loans_owed := loans_owed p; loans_issued := loans_issued p;
     eliminated := true; elimination_round := Some r;
     total_earned := total_earned p; total_spent := total_spent p;
     total_interest_earned := total_interest_earned p;
     donations_given := donations_given p;
     donations_received := donations_received p |}.

Definition set_total_earned (v : Z) (p : Participant) : Participant :=
  {| name := name p; level := level p; token_bank := token_bank p;
     loans_owed := loans_owed p; loans_issued := loans_issued p;
     eliminated := eliminated p; elimination_round := elimination_round p;
     total_earned := v; total_spent := total_spent p;
     total_interest_earned := total_interest_earned p;
     donations_given := donations_given p;
     donations_received := donations_received p |}.

Definition set_total_spent (v : Z) (p : Participant) : Participant :=
  {| name := name p; level := level p; token_bank := token_bank p;
     loans_owed := loans_owed p; loans_issued := loans_issued p;
     eliminated := eliminated p; elimination_round := elimination_round p;
     total_earned := total_earned p; total_spent := v;
     total_interest_earned := total_interest_earned p;
     donations_given := donations_given p;
     donations_received := donations_received p |}.

Definition set_total_interest_earned (v : Z) (p : Participant)
  : Participant :=
  {| name := name p; level := level p; token_bank := token_bank p;
     loans_owed := loans_owed p; loans_issued := loans_issued p;
     eliminated := eliminated p; elimination_round := elimination_round p;
     total_earned := total_earned p; total_spent := total_spent p;
     total_interest_earned := v;
     donations_given := donations_given p;
     donations_received := donations_received p |}.

Definition set_donations_given (v : Z) (p : Participant) : Participant :=
  {| name := name p; level := level p; token_bank := token_bank p;
     loans_owed := loans_owed p; loans_issued := loans_issued p;
     eliminated := eliminated p; elimination_round := elimination_round p;
     total_earned := total_earned p; total_spent := total_spent p;
     total_interest_earned := total_interest_earned p;
     donations_given := v;
     donations_received := donations_received p |}.

Definition set_donations_received (v : Z) (p : Participant) : Participant :=
  {| name := name p; level := level p; token_bank := token_bank p;
     loans_owed := loans_owed p; loans_issued := loans_issued p;
     eliminated := eliminated p; elimination_round := elimination_round p;
     total_earned := total_earned p; total_spent := total_spent p;
     total_interest_earned := total_interest_earned p;
     donations_given := donations_given p;
     donations_received := v |}.

(** *** Methods that touch [self] only *)

(** [get_config]: [PERFORMANCE_LEVELS[self.level]] *)
Definition get_config : Py Participant LevelConfig :=
  λ p, match PERFORMANCE_LEVELS (level p) with
       | Some c => (Returned c, p)
       | None => (Raised KeyError, p)
       end.

(** [apply_interest] *)
Definition apply_interest : Py Participant Z :=
  λ p, if bool_decide (token_bank p > 0) then
         match PyFloat.int_mul_float (token_bank p) PyFloat.lit_0_05 with
         | Returned interest =>
             (Returned interest,
              set_total_interest_earned (total_interest_earned p + interest)
                (set_token_bank (token_bank p + interest) p))
         | Raised e => (Raised e, p)
         end
       else (Returned 0, p).

(** [earn_tokens]; the message it returns is presentation. *)
Definition earn_tokens (amount : Z) : Py Participant unit :=
  modify (λ p, set_total_earned (total_earned p + amount)
                 (set_token_bank (token_bank p + amount) p)).

(** [spend_tokens] *)
Definition spend_tokens (amount : Z) : Py Participant bool :=
  λ p, if bool_decide (token_bank p >= amount) then
         (Returned true,
          set_total_spent (total_spent p + amount)
            (set_token_bank (token_bank p - amount) p))
       else (Returned false, p).

(** [boost_self] *)
Definition boost_self : Py Participant bool :=
  λ p, if eliminated p then (Returned false, p)
       else (ok ← spend_tokens 1000;
             if (ok : bool) then
               modify (λ q, set_level (Z.min (level q + 2) 3) q);;
               ret true
             else ret false) p.

(** *** The object store

    Participants are held under a key (in the engine: the key of
    [self.participants]); loans are numbered in order of creation. *)
Record World : Type := {
  parts : gmap string Participant;
  loans : list TokenLoan
}.

Definition set_parts (m : gmap string Participant) (w : World) : World :=
  {| parts := m; loans := loans w |}.
Definition set_loans (l : list TokenLoan) (w : World) : World :=
  {| parts := parts w; loans := l |}.

(** A method of the participant object [self], run in the store. *)
Definition call {A} (self : string) (m : Py Participant A) : Py World A :=
  λ w, match parts w !! self with
       | Some p => let '(o, p') := m p in (o, set_parts (<[self := p']> (parts w)) w)
       | None => (Raised InvalidRef, w)
       end.

(** Reading the attributes of [self]. *)
Definition self_get (self : string) : Py World Participant :=
  call self get.

Definition loan_get (l : nat) : Py World TokenLoan :=
  λ w, match loans w !! l with
       | Some x => (Returned x, w)
       | None => (Raised InvalidRef, w)
       end.

Definition loan_modify (l : nat) (f : TokenLoan → TokenLoan) : Py World unit :=
  λ w, match loans w !! l with
       | Some x => (Returned tt, set_loans (<[l := f x]> (loans w)) w)
       | None => (Raised InvalidRef, w)
       end.

(** Creation of a loan object: the next free reference. *)
Definition loan_alloc (x : TokenLoan) : Py World nat :=
  λ w, (Returned (length (loans w)), set_loans (loans w ++ [x]) w).

(** [list.remove(x)]: drops the first occurrence, [None] when there is none
    (Python raises [ValueError]). *)
Fixpoint remove_first (x : nat) (l : list nat) : option (list nat) :=
  match l with
  | [] => None
  | y :: l' => if bool_decide (y = x) then Some l'
               else cons y <$> remove_first x l'
  end.

(** *** Methods with a second party *)

(** [donate_to] *)
Definition donate_to (self target : string) (amount : Z) : Py World bool :=
  ok ← call self (spend_tokens amount);
  if (ok : bool) then
    call target (earn_tokens amount);;
    call self (modify (λ p, set_donations_given (donations_given p + amount) p));;
    call target (modify (λ p, set_donations_received
                                (donations_received p + amount) p));;
    mret true
  else mret false.

(** [offer_loan]; [None] is Python's [None], [Some l] the loan created. *)
Definition offer_loan (self borrower : string) (amount : Z)
    (rate : spec_float) (dur : Z) : Py World (option nat) :=
  me ← self_get self;
  if bool_decide (token_bank me >= amount) then
    b ← self_get borrower;
    loan ← loan_alloc (new_loan (name me) (name b) amount rate dur);
    call self (modify (λ p, set_token_bank (token_bank p - amount) p));;
    call borrower (modify (λ p, set_token_bank (token_bank p + amount) p));;
    call self (modify (λ p, set_loans_issued (loans_issued p ++ [loan]) p));;
    call borrower (modify (λ p, set_loans_owed (loans_owed p ++ [loan]) p));;
    mret (Some loan)
  else mret None.

(** The lines [process_loan_payments] appends to [results]. *)
Inductive loan_event : Type :=
  | Repaid (who : string) (payment : Z) (lender : string)
  | Defaulted (who : string) (payment : Z) (lender : string).

(** The body of the [for loan in self.loans_owed] loop; its local variables
    are [results] and [loans_to_remove]. *)
Definition process_one_loan (self : string)
    (acc : list loan_event * list nat) (loan : nat)
  : Py World (list loan_event * list nat) :=
  let '(results, loans_to_remove) := acc in
  loan_modify loan (λ l, set_rounds_remaining (rounds_remaining l - 1) l);;
  l ← loan_get loan;
  if bool_decide (rounds_remaining l = 0) then
    payment ← lift_outcome (calculate_payment l);
    me ← self_get self;
    if bool_decide (token_bank me >= payment) then
      call self (modify (λ p, set_token_bank (token_bank p - payment) p));;
      mret (results ++ [Repaid (name me) payment (lender_name l)],
            loans_to_remove ++ [loan])
    else
      mret (results ++ [Defaulted (name me) payment (lender_name l)],
            loans_to_remove ++ [loan])
  else mret (results, loans_to_remove).

(** [self.loans_owed.remove(loan)] *)
Definition remove_owed (self : string) (loan : nat) : Py World unit :=
  call self (λ p, match remove_first loan (loans_owed p) with
                  | Some l' => (Returned tt, set_loans_owed l' p)
                  | None => (Raised ValueError, p)
                  end).

(** [process_loan_payments] *)
Definition process_loan_payments (self : string)
  : Py World (list loan_event) :=
  me ← self_get self;
  '(results, loans_to_remove) ←
    for_fold (loans_owed me) (process_one_loan self) ([], []);
  for_each loans_to_remove (remove_owed self);;
  mret results.

(** [get_status_display]: the text is presentation, the look-ups it makes
    are not: [get_config] first, then the payments of the loans owed. *)
Definition get_status_display (self : string) : Py World unit :=
  call self get_config;;
  me ← self_get self;
  for_each (loans_owed me)
    (λ loan, l ← loan_get loan; lift_outcome (calculate_payment l);; mret tt).

(** *** [class ChallengeEngine] and [class EliminationEngineV3]

    [parts (world e)] is the dictionary [self.participants], and [world e]
    holds every loan besides; [challenge_round] is
    [self.challenge_engine.current_round]. *)
Record Engine : Type := {
  world : World;
  current_round : Z;
  max_rounds : Z;
  challenge_round : Z
}.

Definition set_world (w : World) (e : Engine) : Engine :=
  {| world := w; current_round := current_round e;
     max_rounds := max_rounds e; challenge_round := challenge_round e |}.
Definition set_current_round (r : Z) (e : Engine) : Engine :=
  {| world := world e; current_round := r;
     max_rounds := max_rounds e; challenge_round := challenge_round e |}.
Definition set_challenge_round (r : Z) (e : Engine) : Engine :=
  {| world := world e; current_round := current_round e;
     max_rounds := max_rounds e; challenge_round := r |}.

Definition in_world {A} (m : Py World A) : Py Engine A :=
  zoom world set_world m.

(** The keys of [self.participants], in insertion order; the same list is
    written out in [run_round]. *)
Definition names : list string := ["Grok"; "Claude"; "DeepSeek"; "ChatGPT"].

(** [EliminationEngineV3.__init__] *)
Definition new_engine : Engine :=
  {| world := {| parts := list_to_map ((λ n, (n, new_participant n)) <$> names);
                 loans := [] |};
     current_round := 0; max_rounds := 20; challenge_round := 0 |}.

(** [len(ChallengeEngine.CHALLENGES)] *)
Definition n_challenges : Z := 20.

(** [get_challenge]: the index of the challenge handed out. *)
Definition get_challenge : Py Engine Z :=
  e ← get;
  let r := if bool_decide (challenge_round e >= n_challenges) then 0
           else challenge_round e in
  if bool_decide (r < - n_challenges) then
    modify (set_challenge_round r);; raise IndexError
  else
    modify (set_challenge_round (r + 1));;
    mret (if bool_decide (r < 0) then r + n_challenges else r).

(** What the [try] block of [judge_responses] meets: the call, the JSON
    decoding or the two subscripts raise, or both subscripts succeed. *)
Inductive judge_reply : Type :=
  | JudgeRaises
  | JudgeReturns (best worst : jval).

(** [self.participants[v]] *)
Definition participants_getitem (v : jval) : Py Engine string :=
  match v with
  | JStr s =>
      e ← get;
      if bool_decide (is_Some (parts (world e) !! s)) then mret s
      else raise KeyError
  | JNull => raise KeyError
  | JOther _ hashable => raise (if hashable then KeyError else TypeError)
  end.

(** [self.participants.values()], read in order. *)
Definition values : Py Engine (list Participant) :=
  for_fold names (λ acc n, p ← in_world (self_get n); mret (acc ++ [p])) [].

(** [apply_interest_to_all] *)
Definition apply_interest_to_all : Py Engine (list (string * Z)) :=
  for_fold names
    (λ results n,
       p ← in_world (self_get n);
       if eliminated p then mret results
       else
         interest ← in_world (call n apply_interest);
         mret (results ++ [(n, interest)]))
    [].

(** [check_group_survival_bonus] *)
Definition check_group_survival_bonus : Py Engine bool :=
  ps ← values;
  if forallb (λ p, negb (eliminated p)) ps then
    for_each names (λ n, in_world (call n (earn_tokens 300)));;
    mret true
  else mret false.

(** [process_all_loans] *)
Definition process_all_loans : Py Engine (list loan_event) :=
  for_fold names
    (λ all_results n,
       p ← in_world (self_get n);
       if eliminated p then mret all_results
       else
         results ← in_world (process_loan_payments n);
         mret (all_results ++ results))
    [].

(** [check_eliminations] *)
Definition check_eliminations : Py Engine unit :=
  for_each names
    (λ n,
       p ← in_world (self_get n);
       if negb (eliminated p) && bool_decide (level p <= -6) then
         e ← get;
         in_world (call n (modify (set_eliminated (current_round e))))
       else mret tt).

(** [get_response]: the text comes from the generation collaborator
    [responder]; the configuration is looked up before the call. *)
Definition get_response (responder : string → string) (n : string)
  : Py Engine string :=
  p ← in_world (self_get n);
  if eliminated p then mret "[ELIMINATED]"
  else in_world (call n get_config);; mret (responder n).

(** The response loop of [run_round]: [responses], in insertion order. *)
Definition collect_responses (responder : string → string)
  : Py Engine (list (string * string)) :=
  for_fold names
    (λ responses n,
       p ← in_world (self_get n);
       if eliminated p then mret responses
       else
         response ← get_response responder n;
         mret (responses ++ [(n, response)]))
    [].

(** [names[0]] and [names[-1]] *)
Definition first_name (l : list string) : Py Engine string :=
  match head l with Some s => mret s | None => raise IndexError end.
Definition last_name (l : list string) : Py Engine string :=
  match last l with Some s => mret s | None => raise IndexError end.

(** [valid_responses] of [judge_responses]: the responses of participants
    that are not eliminated.  [responses] is a dictionary, here the list of
    its items in insertion order. *)
Definition valid_responses (e : Engine) (responses : list (string * string))
  : list (string * string) :=
  List.filter (λ nr, match parts (world e) !! nr.1 with
                     | Some p => negb (eliminated p)
                     | None => false
                     end) responses.

(** Every response is filed under the key of a participant; otherwise
    [self.participants[name]] raises while [valid_responses] is built. *)
Definition known_names (e : Engine) (responses : list (string * string))
  : bool :=
  forallb (λ nr, bool_decide (is_Some (parts (world e) !! nr.1))) responses.

(** [judge_responses] *)
Definition judge_responses (reply : judge_reply)
    (responses : list (string * string)) : Py Engine (jval * jval) :=
  e ← get;
  if negb (known_names e responses) then raise KeyError
  else
    let valid := valid_responses e responses in
    if bool_decide (length valid < 2)%nat then
      mret (match head valid with
            | Some nr => JStr nr.1
            | None => JNull
            end, JNull)
    else
      try (match reply with
           | JudgeReturns best worst => mret (best, worst)
           | JudgeRaises => raise ValueError
           end)
          (λ _, let names := fst <$> valid in
                b ← first_name names;
                w ← last_name names;
                mret (JStr b, JStr w)).

(** The block of [run_round] under [if best and worst:]. *)
Definition apply_performance_changes (best worst : jval) : Py Engine unit :=
  best_p ← participants_getitem best;
  worst_p ← participants_getitem worst;
  in_world (call best_p (modify (λ p, set_level (Z.min (level p + 1) 3) p)));;
  in_world (call best_p (earn_tokens 500));;
  in_world (call best_p get_config);;
  in_world (call worst_p (modify (λ p, set_level (Z.max (level p - 1) (-6)) p)));;
  w ← in_world (self_get worst_p);
  if bool_decide (level w >= -5) then
    in_world (call worst_p get_config);; mret tt
  else mret tt.

(** The survival-bonus loop of [run_round]. *)
Definition survival_bonus : Py Engine unit :=
  for_each names
    (λ n,
       p ← in_world (self_get n);
       if eliminated p then mret tt
       else in_world (call n (earn_tokens 100))).

(** [run_round].  Writing the round file ([save_round_data]) is the
    persistence collaborator's and comes after every change of state. *)
Definition run_round (responder : string → string) (reply : judge_reply)
  : Py Engine unit :=
  modify (λ e, set_current_round (current_round e + 1) e);;
  for_each names (λ n, in_world (get_status_display n));;
  apply_interest_to_all;;
  process_all_loans;;
  get_challenge;;
  responses ← collect_responses responder;
  (if bool_decide (2 ≤ length responses)%nat then
     '(best, worst) ← judge_responses reply responses;
     if truthy best && truthy worst then apply_performance_changes best worst
     else mret tt
   else mret tt);;
  survival_bonus;;
  check_group_survival_bonus;;
  check_eliminations.

(** The loop of [run]: one entry of [rounds] for each value of [round_num],
    with what the collaborators answer in that round. *)
Fixpoint run_rounds (rounds : list ((string → string) * judge_reply))
  : Py Engine unit :=
  match rounds with
  | [] => mret tt
  | (responder, reply) :: rest =>
      ps ← values;
      let alive_count :=
        length (List.filter (λ p, negb (eliminated p)) ps) in
      if bool_decide (alive_count <= 1)%nat then mret tt
      else run_round responder reply;; run_rounds rest
  end.

(** [run]: at most [max_rounds] rounds. *)
Definition run (collaborators : nat → (string → string) * judge_reply)
  : Py Engine unit :=
  e ← get;
  run_rounds (collaborators <$> seq 1 (Z.to_nat (max_rounds e))).


(** *** Predicates used in the statements *)

(** No participant of the store has a negative balance. *)
Definition bank_nonneg (w : World) : Prop :=
  ∀ k p, parts w !! k = Some p → 0 ≤ token_bank p.

(** The tokens the [Repaid] lines of a result list account for. *)
Definition repaid_total (results : list loan_event) : Z :=
  foldr (λ ev acc, match ev with
                   | Repaid _ payment _ => payment + acc
                   | Defaulted _ _ _ => acc
                   end) 0 results.

(** The loan [i] comes due at the next processing: one round remains. *)
Definition matures (w : World) (i : nat) : bool :=
  match loans w !! i with
  | Some l => bool_decide (rounds_remaining l = 1)
  | None => false
  end.

(** The tokens held by all participants of the store. *)
Definition total_tokens (w : World) : Z :=
  map_fold (λ _ p acc, token_bank p + acc) 0 (parts w).

(** Removing the references [rem], one [list.remove] after the other. *)
Fixpoint remove_list (rem cur : list nat) : option (list nat) :=
  match rem with
  | [] => Some cur
  | x :: rem' =>
      match remove_first x cur with
      | Some c => remove_list rem' c
      | None => None
      end
  end.

(** One round less to go. *)
Definition tick (l : TokenLoan) : TokenLoan :=
  set_rounds_remaining (rounds_remaining l - 1) l.

(** [ev] is the line written for a loan of [owed] that comes due in [w]:
    its amount is that loan's payment. *)
Definition settles (w : World) (owed : list nat) (who : string)
    (ev : loan_event) : Prop :=
  ∃ i l payment,
    i ∈ owed ∧ loans w !! i = Some l ∧ rounds_remaining l = 1 ∧
    calculate_payment l = Returned payment ∧
    (ev = Repaid who payment (lender_name l) ∨
     ev = Defaulted who payment (lender_name l)).

(** The references of [owed] denote loans, and the payment of each loan
    that comes due can be computed. *)
Definition payable (w : World) (owed : list nat) : Prop :=
  ∀ i, i ∈ owed →
    ∃ l, loans w !! i = Some l ∧
         (rounds_remaining l = 1 → returned (calculate_payment l)).

(** A property of the store stated participant by participant: [R k o]
    speaks of what the store holds under the key [k]. *)
Definition part_inv (R : string → option Participant → Prop) (w : World)
  : Prop :=
  ∀ k, R k (parts w !! k).

(** [R] survives every change [run_round] makes to a participant: a credit
    of a non-negative amount, a debit the balance covers, a new level, a new
    [loans_owed], the statistics, and the elimination of a participant not
    yet eliminated. *)
Record stable (R : string → option Participant → Prop) : Prop := {
  stable_credit : ∀ k p c,
    0 ≤ c → R k (Some p) → R k (Some (set_token_bank (token_bank p + c) p));
  stable_debit : ∀ k p x,
    token_bank p >= x → R k (Some p) →
    R k (Some (set_token_bank (token_bank p - x) p));
  stable_level : ∀ k p v, R k (Some p) → R k (Some (set_level v p));
  stable_owed : ∀ k p v, R k (Some p) → R k (Some (set_loans_owed v p));
  stable_earned : ∀ k p v, R k (Some p) → R k (Some (set_total_earned v p));
  stable_interest : ∀ k p v,
    R k (Some p) → R k (Some (set_total_interest_earned v p));
  stable_eliminate : ∀ k p r,
    eliminated p = false → R k (Some p) → R k (Some (set_eliminated r p))
}.

(** The balance under a key, if any, is not negative. *)
Definition nonneg_at (_ : string) (o : option Participant) : Prop :=
  ∀ p, o = Some p → 0 ≤ token_bank p.

(** The participant under the key [k0] is eliminated, since round [r]. *)
Definition out_at (k0 : string) (r : option Z) (k : string)
    (o : option Participant) : Prop :=
  k = k0 → ∃ p, o = Some p ∧ eliminated p = true ∧ elimination_round p = r.

(** What [check_eliminations] does to one participant in round [r]. *)
Definition eliminate_if_due (r : Z) (p : Participant) : Participant :=
  if negb (eliminated p) && bool_decide (level p <= -6)
  then set_eliminated r p else p.

(** Every key of [self.participants] has its participant. *)
Definition roster_present (e : Engine) : Prop :=
  ∀ n, n ∈ names → is_Some (parts (world e) !! n).

(** *** States used in examples *)

(** Two participants as [__init__] makes them. *)
Definition two_party_world : World :=
  {| parts := <["A" := new_participant "A"]>
                (<["B" := new_participant "B"]> ∅);
     loans := [] |}.

(** The same, with ["B"] eliminated in round 3. *)
Definition eliminated_borrower_world : World :=
  {| parts := <["A" := new_participant "A"]>
                (<["B" := set_eliminated 3
                            (set_level (-6) (new_participant "B"))]> ∅);
     loans := [] |}.

(** Scenario C of the specification: ["A"] lends ["B"] 500 tokens at 20%
    for two rounds; the store after the loan, after one processing of
    ["B"]'s loans, and after the second. *)
Definition scenario_C_start : World :=
  (offer_loan "A" "B" 500 PyFloat.lit_0_2 2 two_party_world).2.
Definition scenario_C_round1 : World :=
  (process_loan_payments "B" scenario_C_start).2.
Definition scenario_C_round2 : World :=
  (process_loan_payments "B" scenario_C_round1).2.

(** The same, but ["B"] gives 1000 tokens away before the loan comes due and
    cannot pay the 600 owed. *)
Definition scenario_C_default : World :=
  (process_loan_payments "B"
     (donate_to "B" "A" 1000 scenario_C_round1).2).2.

(** ["B"] after the first processing. *)
Definition scenario_C_borrower : Participant :=
  set_loans_owed [0%nat] (set_token_bank 1500 (new_participant "B")).

(** *** Repetition, and further predicates *)

(** [n] calls of [process_loan_payments] on [self], one per round. *)
Fixpoint process_times (n : nat) (self : string) : Py World unit :=
  match n with
  | O => mret tt
  | S n' => process_loan_payments self;; process_times n' self
  end.

(** [n] calls of [get_challenge]: the indices handed out, in order. *)
Fixpoint draw_challenges (n : nat) : Py Engine (list Z) :=
  match n with
  | O => mret []
  | S n' => c ← get_challenge; cs ← draw_challenges n'; mret (c :: cs)
  end.

(** The references of [owed] denote loans whose payment can be computed. *)
Definition computable (w : World) (owed : list nat) : Prop :=
  ∀ i, i ∈ owed →
    ∃ l, loans w !! i = Some l ∧ returned (calculate_payment l).

(** The attributes that only [spend_tokens], [donate_to] and [offer_loan]
    write, with the name. *)
Definition cooperation_record (p : Participant)
  : string * list nat * Z * Z * Z :=
  (name p, loans_issued p, total_spent p, donations_given p,
   donations_received p).

(** The participant under the key [k0] has the cooperation record [c]. *)
Definition record_at (k0 : string) (c : string * list nat * Z * Z * Z)
    (k : string) (o : option Participant) : Prop :=
  k = k0 → ∃ p, o = Some p ∧ cooperation_record p = c.

(** The season in which the judge always fails, and where it stops. *)
Definition failing_judge_season : Engine :=
  (run (λ _, ((λ _, "a"), JudgeRaises)) new_engine).2.

End V3.

(** ** Version 5: settlement ([cafe_elimination_v5_standalone.py]) *)
Module V5.

(** *** [class AI]

    The client object and the four history lists (never read by the engine)
    are left out. *)
Record AI : Type := {
  name : string;
  api_type : string;
  token_bank : Z;
  level : Z;
  alive : bool;
  eliminated_round : option Z;
  is_traitor : bool;
  traitor_revealed : bool;
  has_v4_memory : bool;
  sabotage_tokens : Z;
  reputation_score : Z
}.

(** [AI.__init__] *)
Definition new_ai (n api : string) (traitor memory : bool) : AI :=
  {| name := n; api_type := api; token_bank := 10000; level := 0;
     alive := true; eliminated_round := None; is_traitor := traitor;
     traitor_revealed := false; has_v4_memory := memory;
     sabotage_tokens := 3; reputation_score := 0 |}.

Definition set_token_bank (v : Z) (a : AI) : AI :=
  {| name := name a; api_type := api_type a; token_bank := v;
     level := level a; alive := alive a;
     eliminated_round := eliminated_round a; is_traitor := is_traitor a;
     traitor_revealed := traitor_revealed a;
     has_v4_memory := has_v4_memory a;
     sabotage_tokens := sabotage_tokens a;
     reputation_score := reputation_score a |}.

Definition set_level (v : Z) (a : AI) : AI :=
  {| name := name a; api_type := api_type a; token_bank := token_bank a;
     level := v; alive := alive a;
     eliminated_round := eliminated_round a; is_traitor := is_traitor a;
     traitor_revealed := traitor_revealed a;
     has_v4_memory := has_v4_memory a;
     sabotage_tokens := sabotage_tokens a;
     reputation_score := reputation_score a |}.

Definition set_reputation_score (v : Z) (a : AI) : AI :=
  {| name := name a; api_type := api_type a; token_bank := token_bank a;
     level := level a; alive := alive a;
     eliminated_round := eliminated_round a; is_traitor := is_traitor a;
     traitor_revealed := traitor_revealed a;
     has_v4_memory := has_v4_memory a;
     sabotage_tokens := sabotage_tokens a;
     reputation_score := v |}.

Definition set_is_traitor (v : bool) (a : AI) : AI :=
  {| name := name a; api_type := api_type a; token_bank := token_bank a;
     level := level a; alive := alive a;
     eliminated_round := eliminated_round a; is_traitor := v;
     traitor_revealed := traitor_revealed a;
     has_v4_memory := has_v4_memory a;
     sabotage_tokens := sabotage_tokens a;
     reputation_score := reputation_score a |}.

(** [ai.alive = False; ai.eliminated_round = r] *)
Definition set_eliminated (r : Z) (a : AI) : AI :=
  {| name := name a; api_type := api_type a; token_bank := token_bank a;
     level := level a; alive := false;
     eliminated_round := Some r; is_traitor := is_traitor a;
     traitor_revealed := traitor_revealed a;
     has_v4_memory := has_v4_memory a;
     sabotage_tokens := sabotage_tokens a;
     reputation_score := reputation_score a |}.

(** *** [class EliminationEngineV5]

    [ais] with [keys], its keys in insertion order, is the dictionary
    [self.ais].  [rng] is the state of the module [random]: the numbers it
    will hand out, each reduced to the range asked for.  The log and the
    alliance tracker are only appended to and never read. *)
Record Engine : Type := {
  ais : gmap string AI;
  keys : list string;
  round_number : Z;
  traitor_name : string;
  rng : list nat
}.

Definition set_ais (m : gmap string AI) (e : Engine) : Engine :=
  {| ais := m; keys := keys e; round_number := round_number e;
     traitor_name := traitor_name e; rng := rng e |}.
Definition set_rng (r : list nat) (e : Engine) : Engine :=
  {| ais := ais e; keys := keys e; round_number := round_number e;
     traitor_name := traitor_name e; rng := r |}.

(** [random._randbelow(n)] *)
Definition draw (n : nat) (r : list nat) : nat * list nat :=
  match r with
  | [] => (0%nat, [])
  | d :: r' => ((d mod n)%nat, r')
  end.

Definition randbelow (n : nat) : Py Engine nat :=
  λ e, let '(j, r) := draw n (rng e) in (Returned j, set_rng r e).

(** [x[i], x[j] = x[j], x[i]] *)
Definition swap (i j : nat) (x : list string) : list string :=
  match x !! i, x !! j with
  | Some a, Some b => <[j := a]> (<[i := b]> x)
  | _, _ => x
  end.

(** [random.shuffle(x)]: for [i] from [len(x) - 1] down to 1, exchange
    [x[i]] with [x[randbelow(i + 1)]]. *)
Fixpoint shuffle_from (i : nat) (x : list string) : Py Engine (list string) :=
  match i with
  | O => mret x
  | S i' => j ← randbelow (S i' + 1); shuffle_from i' (swap (S i') j x)
  end.

Definition shuffle (x : list string) : Py Engine (list string) :=
  shuffle_from (length x - 1) x.

(** The keys of [{ai.name: ai for ai in ais}]: first occurrences, in order. *)
Definition dict_keys (l : list AI) : list string :=
  foldl (λ acc a, if bool_decide (name a ∈ acc) then acc else acc ++ [name a])
        [] l.

(** [EliminationEngineV5.__init__]: the dictionary, then the traitor drawn
    with [random.choice(ais)]. *)
Definition new_engine (l : list AI) (r : list nat) : outcome Engine :=
  if bool_decide (l = []) then Raised IndexError
  else
    let '(j, r') := draw (length l) r in
    match l !! j with
    | Some t =>
        Returned
          {| ais := foldl (λ m a, <[name a := a]> m) ∅
                      (<[j := set_is_traitor true t]> l);
             keys := dict_keys l;
             round_number := 0;
             traitor_name := name t;
             rng := r' |}
    | None => Raised IndexError
    end.

(** A method or assignment on the object [self.ais[k]]. *)
Definition on_ai (k : string) (f : AI → AI) : Py Engine unit :=
  λ e, match ais e !! k with
       | Some a => (Returned tt, set_ais (<[k := f a]> (ais e)) e)
       | None => (Raised KeyError, e)
       end.

Definition ai_get (k : string) : Py Engine AI :=
  λ e, match ais e !! k with
       | Some a => (Returned a, e)
       | None => (Raised KeyError, e)
       end.

(** [self.ais.values()], read in order. *)
Definition values : Py Engine (list AI) :=
  e ← get;
  for_fold (keys e) (λ acc k, a ← ai_get k; mret (acc ++ [a])) [].

(** What the [try] block of [_judge_responses] ends in: a decoded list, or
    an exception or an answer without brackets, which both lead to the
    fallback. *)
Inductive judge_reply : Type :=
  | JudgeFails
  | JudgeRanking (ranking : list jval).

(** [_judge_responses].  The judge is the first alive Anthropic AI, else the
    first alive one: when nobody is alive [next] raises. *)
Definition _judge_responses (reply : judge_reply)
    (responses : list (string * string)) : Py Engine (list jval) :=
  vs ← values;
  if forallb (λ a, negb (alive a)) vs then raise StopIteration
  else
    match reply with
    | JudgeRanking ranking => mret ranking
    | JudgeFails =>
        names ← shuffle (fst <$> responses);
        mret (JStr <$> names)
    end.

(** The strings of a ranking, when every entry is one ([str.join] raises
    [TypeError] otherwise). *)
Fixpoint all_strings (l : list jval) : option (list string) :=
  match l with
  | [] => Some []
  | JStr s :: l' => cons s <$> all_strings l'
  | _ :: _ => None
  end.

(** The block of [_apply_round_results] under "Level changes". *)
Definition level_changes (best worst : string) : Py Engine unit :=
  on_ai best (λ a, set_level (level a + 1) a);;
  on_ai worst (λ a, set_level (level a - 1) a);;
  on_ai best (λ a, set_reputation_score (reputation_score a + 2) a).

(** The block under "Group bonus if all survived". *)
Definition group_bonus : Py Engine unit :=
  vs ← values;
  if forallb alive vs then
    e ← get;
    for_each (keys e)
      (λ k, on_ai k (λ a, set_token_bank (token_bank a + 3000) a))
  else mret tt.

(** The block under "Check eliminations". *)
Definition check_eliminations (round_num : Z) : Py Engine unit :=
  e ← get;
  for_each (keys e)
    (λ k, a ← ai_get k;
          if alive a && bool_decide (token_bank a <= 0) then
            on_ai k (set_eliminated round_num)
          else mret tt).

(** [_apply_round_results]; [costs] is not used by the code. *)
Definition _apply_round_results (round_num : Z) (rankings : list jval)
  : Py Engine unit :=
  match all_strings rankings with
  | None => raise TypeError
  | Some rs =>
      match head rs, last rs with
      | Some best, Some worst =>
          level_changes best worst;;
          group_bonus;;
          check_eliminations round_num
      | _, _ => raise IndexError
      end
  end.

(** [run_challenge_round]; [api k] is what [_call_api] returns for the AI
    [k]: the response and the tokens the provider reports as used. *)
Definition run_challenge_round (api : string → string * Z)
    (reply : judge_reply) (round_num : Z) : Py Engine (list jval) :=
  randbelow 10;;
  e ← get;
  responses ←
    for_fold (keys e)
      (λ responses k,
         a ← ai_get k;
         if negb (alive a) then mret responses
         else
           let '(response, cost) := api k in
           on_ai k (λ a, set_token_bank (token_bank a - cost) a);;
           mret (responses ++ [(k, response)]))
      [];
  rankings ← _judge_responses reply responses;
  _apply_round_results round_num rankings;;
  mret rankings.

(** The roster of [run_elimination_v5_standalone.py]. *)
Definition roster : list AI :=
  [ new_ai "Claude" "anthropic" false false;
    new_ai "ChatGPT" "openai" false false;
    new_ai "Grok" "xai" false true;
    new_ai "DeepSeek" "deepseek" false false ].

(** *** States used in examples *)

(** The engine built from [roster] when the first number drawn is 2: the
    traitor is Grok. *)
Definition season_start : Engine :=
  {| ais := <["DeepSeek" := new_ai "DeepSeek" "deepseek" false false]>
              (<["Grok" := new_ai "Grok" "xai" true true]>
                 (<["ChatGPT" := new_ai "ChatGPT" "openai" false false]>
                    (<["Claude" := new_ai "Claude" "anthropic" false false]>
                       ∅)));
     keys := ["Claude"; "ChatGPT"; "Grok"; "DeepSeek"];
     round_number := 0;
     traitor_name := "Grok";
     rng := [] |}.

(** A provider that reports 14000 tokens used by Claude's answer and 1200
    by every other answer. *)
Definition costly_api (k : string) : string * Z :=
  if bool_decide (k = "Claude") then ("...", 14000) else ("...", 1200).

(** The ranking Claude first, DeepSeek last. *)
Definition claude_first : list jval :=
  [JStr "Claude"; JStr "ChatGPT"; JStr "Grok"; JStr "DeepSeek"].

(** Four settlements in a row with the ranking [claude_first]. *)
Definition after_four_settlements : Engine :=
  (_apply_round_results 4 claude_first
     (_apply_round_results 3 claude_first
        (_apply_round_results 2 claude_first
           (_apply_round_results 1 claude_first season_start).2).2).2).2.

(** The responses of the four AIs, in the order of [self.ais]. *)
Definition four_responses : list (string * string) :=
  [("Claude", "a"); ("ChatGPT", "b"); ("Grok", "c"); ("DeepSeek", "d")].

(** Every key of [self.ais] has its AI. *)
Definition roster_present (e : Engine) : Prop :=
  ∀ k, k ∈ keys e → is_Some (ais e !! k).

(** *** The negotiation round

    A string is the sequence of its code points, each below 256. *)

(** [str.isspace] on one character. *)
Definition isspace (c : Ascii.ascii) : bool :=
  let n := Ascii.nat_of_ascii c in
  ((9 <=? n) && (n <=? 13) || (28 <=? n) && (n <=? 32)
   || (n =? 133) || (n =? 160))%nat.

Fixpoint lstrip (s : string) : string :=
  match s with
  | EmptyString => EmptyString
  | String c s' => if isspace c then lstrip s' else s
  end.

(** The characters of [s] before its first white space. *)
Fixpoint word (s : string) : string :=
  match s with
  | EmptyString => EmptyString
  | String c s' => if isspace c then EmptyString else String c (word s')
  end.

(** [vote.strip().split()[0]]: [None] where the index raises. *)
Definition first_word (vote : string) : option string :=
  match lstrip vote with
  | EmptyString => None
  | w => Some (word w)
  end.

(** [votes[k] = votes.get(k, 0) + 1] on the dictionary [votes], kept with its
    keys in insertion order. *)
Fixpoint count_vote (k : string) (votes : list (string * Z))
  : list (string * Z) :=
  match votes with
  | [] => [(k, 1)]
  | (k', n) :: rest =>
      if bool_decide (k' = k) then (k', n + 1) :: rest
      else (k', n) :: count_vote k rest
  end.

(** [max(votes, key=votes.get)]: the first key with the highest count. *)
Definition max_vote (votes : list (string * Z)) : option string :=
  match votes with
  | [] => None
  | kn :: rest =>
      Some (foldl (λ best kv, if bool_decide (best.2 < kv.2) then kv else best)
              kn rest).1
  end.

(** [_run_sabotage_vote]; [ballot k] is what [_call_api] returns for the
    vote of the AI [k]. *)
Definition _run_sabotage_vote (ballot : string → string * Z)
  : Py Engine (list (string * Z)) :=
  e ← get;
  for_fold (keys e)
    (λ votes k,
       a ← ai_get k;
       if negb (alive a) then mret votes
       else
         let '(vote, cost) := ballot k in
         on_ai k (λ a, set_token_bank (token_bank a - cost) a);;
         match first_word vote with
         | None => raise IndexError
         | Some vote_clean =>
             e' ← get;
             if bool_decide (is_Some (ais e' !! vote_clean))
             then mret (count_vote vote_clean votes)
             else mret votes
         end)
    [].

(** [_apply_group_sabotage] *)
Definition _apply_group_sabotage (target : string) (round_num : Z)
  : Py Engine unit :=
  on_ai target (λ a, set_reputation_score (reputation_score a - 1) a).

(** [run_negotiation_round]; [forum k] is what [_call_api] returns for the
    public statement of the AI [k]. *)
Definition run_negotiation_round (forum ballot : string → string * Z)
    (round_num : Z) : Py Engine unit :=
  e ← get;
  for_each (keys e)
    (λ k, a ← ai_get k;
          if negb (alive a) then mret tt
          else
            let '(post, cost) := forum k in
            on_ai k (λ a, set_token_bank (token_bank a - cost) a));;
  votes ← _run_sabotage_vote ballot;
  match max_vote votes with
  | Some target => _apply_group_sabotage target round_num
  | None => mret tt
  end.

(** What the providers and the judge answer in one round. *)
Record Script : Type := {
  api : string → string * Z;
  reply : judge_reply;
  forum : string → string * Z;
  ballot : string → string * Z
}.

(** The [for] loop of [run_experiment] over the rounds [rounds]. *)
Fixpoint experiment_rounds (script : Z → Script) (rounds : list Z)
  : Py Engine unit :=
  match rounds with
  | [] => mret tt
  | round_num :: rest =>
      (if bool_decide (round_num `mod` 5 = 0) then
         run_negotiation_round (forum (script round_num))
           (ballot (script round_num)) round_num
       else
         run_challenge_round (api (script round_num))
           (reply (script round_num)) round_num;;
         mret tt);;
      vs ← values;
      let alive_count := length (List.filter alive vs) in
      if bool_decide (alive_count <= 1)%nat then mret tt
      else experiment_rounds script rest
  end.

(** [for round_num in range(1, 21)] *)
Definition experiment (script : Z → Script) : Py Engine unit :=
  experiment_rounds script (Z.of_nat <$> seq 1 20).

(** *** Predicates used in the statements *)

(** The fields of an AI that the engine only reads. *)
Definition fixed_fields (a : AI) : string * string * bool * bool * bool * Z :=
  (name a, api_type a, is_traitor a, traitor_revealed a, has_v4_memory a,
   sabotage_tokens a).

(** The engine has the keys [ks], the traitor's name [t], the round number
    [n] and, under the key [k0], an AI with the fixed fields [c]. *)
Definition fixed_at (ks : list string) (t : string) (n : Z) (k0 : string)
    (c : string * string * bool * bool * bool * Z) (e : Engine) : Prop :=
  keys e = ks ∧ traitor_name e = t ∧ round_number e = n ∧
  ∃ a, ais e !! k0 = Some a ∧ fixed_fields a = c.

(** The AI under the key [k0] is out since round [r], with the balance [b]. *)
Definition dead_at (k0 : string) (b : Z) (r : option Z) (e : Engine) : Prop :=
  ∃ a, ais e !! k0 = Some a ∧ alive a = false ∧ token_bank a = b ∧
       eliminated_round a = r.

(** The AI under the key [k0] has the level [l], is alive or not as [al]
    says, and was eliminated in round [r], if it was. *)
Definition standing_at (k0 : string) (l : Z) (al : bool) (r : option Z)
    (e : Engine) : Prop :=
  ∃ a, ais e !! k0 = Some a ∧ level a = l ∧ alive a = al ∧
       eliminated_round a = r.

(** Every AI of the roster is alive. *)
Definition all_alive (e : Engine) : Prop :=
  ∀ k a, k ∈ keys e → ais e !! k = Some a → alive a = true.

(** Properties of the engine kept by the two assignments of a negotiation
    round: the debit of an alive AI and a new reputation score. *)
Record talk_stable (I : Engine → Prop) : Prop := {
  talk_debit : ∀ e k a cost,
    I e → ais e !! k = Some a → alive a = true →
    I (set_ais (<[k := set_token_bank (token_bank a - cost) a]> (ais e)) e);
  talk_reputation : ∀ e k a v,
    I e → ais e !! k = Some a →
    I (set_ais (<[k := set_reputation_score v a]> (ais e)) e)
}.

(** Properties kept by every assignment of the engine: those of a
    negotiation round, a new random state, a new level, the group bonus
    when the whole roster is alive, and the elimination of an alive AI
    whose balance is not positive. *)
Record stable (I : Engine → Prop) : Prop := {
  stable_talk : talk_stable I;
  stable_rng : ∀ e r, I e → I (set_rng r e);
  stable_level : ∀ e k a v,
    I e → ais e !! k = Some a →
    I (set_ais (<[k := set_level v a]> (ais e)) e);
  stable_bonus : ∀ e k a,
    I e → all_alive e → k ∈ keys e → ais e !! k = Some a →
    I (set_ais (<[k := set_token_bank (token_bank a + 3000) a]> (ais e)) e);
  stable_eliminate : ∀ e k a r,
    I e → ais e !! k = Some a → alive a = true → token_bank a <= 0 →
    I (set_ais (<[k := set_eliminated r a]> (ais e)) e)
}.

(** *** More states used in examples *)

(** An engine with Claude alone. *)
Definition lone_claude : Engine :=
  {| ais := <["Claude" := new_ai "Claude" "anthropic" true false]> ∅;
     keys := ["Claude"];
     round_number := 0;
     traitor_name := "Claude";
     rng := [] |}.

(** Claude alone after a round reported at 14000 tokens: out. *)
Definition lone_claude_out : Engine :=
  (run_challenge_round costly_api (JudgeRanking [JStr "Claude"]) 1
     lone_claude).2.

(** The season after the round of [costly_api]: Claude is out, at -1000. *)
Definition claude_out : Engine :=
  (run_challenge_round costly_api (JudgeRanking claude_first) 1
     season_start).2.

(** A script: the round of [costly_api] judged [claude_first]; public
    statements at 100 tokens each; Grok votes for Claude, everybody else for
    Grok, at 10 tokens a ballot. *)
Definition grudge_script (_ : Z) : Script :=
  {| api := costly_api;
     reply := JudgeRanking claude_first;
     forum := λ _, ("...", 100);
     ballot := λ k, if bool_decide (k = "Grok") then ("Claude", 10)
                    else ("Grok ", 10) |}.

(** *** The vote, as a list of ballots *)

(** [self.ais] is a dictionary: [keys e] lists its keys, each once. *)
Definition well_formed (e : Engine) : Prop :=
  NoDup (keys e) ∧ ∀ k, k ∈ keys e ↔ is_Some (ais e !! k).

(** The name the AI under [k] votes for: the first word of its ballot, when
    the AI is alive and the word is a key of [self.ais]. *)
Definition vote_of (ballot : string → string * Z) (e : Engine) (k : string)
  : option string :=
  a ← ais e !! k;
  if alive a then
    w ← first_word (ballot k).1;
    if bool_decide (is_Some (ais e !! w)) then Some w else None
  else None.

(** The votes that count, in the order of the roster. *)
Definition ballots_cast (ballot : string → string * Z) (e : Engine)
  : list string :=
  omap (vote_of ballot e) (keys e).

(** [votes.get(k, 0)] *)
Fixpoint votes_get (k : string) (votes : list (string * Z)) : Z :=
  match votes with
  | [] => 0
  | (k', n) :: rest => if bool_decide (k' = k) then n else votes_get k rest
  end.

(** The dictionary [votes] after the ballots [ws] *)
Definition tally (ws : list string) : list (string * Z) :=
  foldl (λ votes w, count_vote w votes) [] ws.

(** How often [w] occurs in [ws]. *)
Definition occurrences (w : string) (ws : list string) : nat :=
  length (List.filter (λ w', bool_decide (w' = w)) ws).

(** An AI after a negotiation round with the target [target]: an alive AI
    has paid for its statement and for its ballot, the target has lost one
    point of reputation. *)
Definition after_talk (forum ballot : string → string * Z)
    (target : option string) (k : string) (a : AI) : AI :=
  let a' :=
    if alive a then
      set_token_bank (token_bank a - (forum k).2 - (ballot k).2) a
    else a in
  if bool_decide (target = Some k)
  then set_reputation_score (reputation_score a' - 1) a' else a'.

End V5.

(** * Properties *)

(** ** Rules for [preserves] *)
Section Preserves.
Context {S : Type} (I : S → Prop).

Lemma preserves_ret {A} (a : A) : preserves I (ret a).
Proof. intros s Hs; exact Hs. Qed.

Lemma preserves_raise {A} e : preserves I (@raise S A e).
Proof. intros s Hs; exact Hs. Qed.

Lemma preserves_lift_outcome {A} (o : outcome A) :
  preserves I (lift_outcome o).
Proof. intros s Hs; exact Hs. Qed.

Lemma preserves_get : preserves I (@get S).
Proof. intros s Hs; exact Hs. Qed.

Lemma preserves_bind {A B} (m : Py S A) (f : A → Py S B) :
  preserves I m → (∀ a, preserves I (f a)) → preserves I (m ≫= f).
Proof.
  intros Hm Hf s Hs. unfold mbind, Py_bind, bind.
  specialize (Hm s Hs). destruct (m s) as [[a|e] s']; simpl in *.
  - apply Hf, Hm.
  - exact Hm.
Qed.

(** A computation whose first step is known to keep [I] from the state [s]. *)
Lemma bind_at {A B} (m : Py S A) (f : A → Py S B) (s : S) :
  I (m s).2 → (∀ a, preserves I (f a)) → I ((m ≫= f) s).2.
Proof.
  intros Hm Hf. unfold mbind, Py_bind, bind.
  destruct (m s) as [[a|e] s']; simpl in *.
  - by apply Hf.
  - exact Hm.
Qed.

Lemma preserves_try {A} (m : Py S A) h :
  preserves I m → (∀ e, preserves I (h e)) → preserves I (try m h).
Proof.
  intros Hm Hh s Hs. unfold try.
  specialize (Hm s Hs). destruct (m s) as [[a|e] s']; simpl in *.
  - exact Hm.
  - apply Hh, Hm.
Qed.

Lemma preserves_modify (f : S → S) :
  (∀ s, I s → I (f s)) → preserves I (modify f).
Proof. intros Hf s Hs. apply Hf, Hs. Qed.

Lemma preserves_for_each {A} (l : list A) (body : A → Py S unit) :
  (∀ x, preserves I (body x)) → preserves I (for_each l body).
Proof.
  intros Hb. induction l as [|x l IH]; simpl.
  - apply preserves_ret.
  - apply preserves_bind; [apply Hb | intros _; exact IH].
Qed.

Lemma preserves_for_fold {A B} (l : list A) (body : B → A → Py S B) b :
  (∀ b x, preserves I (body b x)) → preserves I (for_fold l body b).
Proof.
  intros Hb. revert b. induction l as [|x l IH]; intros b; simpl.
  - apply preserves_ret.
  - apply preserves_bind; [apply Hb | intros b'; apply IH].
Qed.
End Preserves.

(** ** Version 3 *)
Module V3Facts.
Import V3.

(** *** [spend_tokens] and [boost_self] *)

(** C3.  [spend_tokens]: when the amount exceeds the balance the call returns
    [False] and leaves the participant as it was (balance and [total_spent]
    included); otherwise it returns [True], takes exactly the amount off the
    balance and adds exactly the amount to [total_spent]. *)
Theorem spend_tokens_spec (p : Participant) (amount : Z) :
  (amount > token_bank p → spend_tokens amount p = (Returned false, p)) ∧
  (¬ amount > token_bank p →
     (spend_tokens amount p).1 = Returned true ∧
     token_bank (spend_tokens amount p).2 = token_bank p - amount ∧
     total_spent (spend_tokens amount p).2 = total_spent p + amount).
Proof.
  unfold spend_tokens. split; intros H.
  - rewrite bool_decide_eq_false_2 by lia. reflexivity.
  - rewrite bool_decide_eq_true_2 by lia. simpl. auto.
Qed.

Lemma spend_tokens_nonneg (p : Participant) (amount : Z) :
  0 ≤ token_bank p → 0 ≤ token_bank (spend_tokens amount p).2.
Proof.
  unfold spend_tokens. case_bool_decide; simpl; lia.
Qed.

(** C2.  [boost_self]: for an eliminated participant, or one whose balance is
    below 1000, it returns [False] and changes nothing; otherwise it returns
    [True], takes exactly 1000 off the balance and sets the level to
    [min(level + 2, 3)].  So the level is assigned only together with the
    debit, and the balance left by a successful call is not negative. *)
Theorem boost_self_atomic (p : Participant) :
  (eliminated p = true ∨ token_bank p < 1000 →
     boost_self p = (Returned false, p)) ∧
  (eliminated p = false ∧ 1000 ≤ token_bank p →
     (boost_self p).1 = Returned true ∧
     token_bank (boost_self p).2 = token_bank p - 1000 ∧
     level (boost_self p).2 = Z.min (level p + 2) 3 ∧
     0 ≤ token_bank (boost_self p).2) ∧
  ((boost_self p).1 = Returned true ∨ boost_self p = (Returned false, p)).
Proof.
  unfold boost_self. destruct (eliminated p) eqn:He.
  - split; [auto|]. split; [intros [? _]; discriminate | auto].
  - unfold mbind, Py_bind, bind, spend_tokens.
    case_bool_decide as Hb; simpl.
    + split; [intros [?|?]; [discriminate | lia]|].
      split; [intros _; repeat split; lia | auto].
    + split; [auto|]. split; [intros [_ ?]; lia | auto].
Qed.

Lemma boost_self_nonneg (p : Participant) :
  0 ≤ token_bank p → 0 ≤ token_bank (boost_self p).2.
Proof.
  intros H. unfold boost_self. destruct (eliminated p); [exact H|].
  unfold mbind, Py_bind, bind, spend_tokens.
  case_bool_decide; simpl; lia.
Qed.

(** Scenario B of the specification: level -5, balance 900. *)
Example boost_self_scenario_B :
  let p := set_token_bank 900 (set_level (-5) (new_participant "P1")) in
  boost_self p = (Returned false, p).
Proof. reflexivity. Qed.

(** *** Calls in the store *)

Lemma call_lookup {A} (k : string) (m : Py Participant A) (w : World) p :
  parts w !! k = Some p →
  call k m w = ((m p).1, set_parts (<[k := (m p).2]> (parts w)) w).
Proof. intros H. unfold call. rewrite H. destruct (m p); reflexivity. Qed.

Lemma call_missing {A} (k : string) (m : Py Participant A) (w : World) :
  parts w !! k = None → call k m w = (Raised InvalidRef, w).
Proof. intros H. unfold call. rewrite H. reflexivity. Qed.

Lemma self_get_lookup (k : string) (w : World) p :
  parts w !! k = Some p → self_get k w = (Returned p, w).
Proof.
  intros H. unfold self_get. rewrite (call_lookup _ _ _ _ H). simpl.
  destruct w as [ps ls]; unfold set_parts; simpl in *.
  by rewrite insert_id.
Qed.

Ltac py_unfold :=
  unfold mbind, Py_bind, bind, mret, Py_ret, ret, modify, lift_outcome.

(** Look-ups in a store after updates at known keys. *)
Ltac map_lookup :=
  simpl;
  repeat first [ rewrite lookup_insert_eq
               | rewrite lookup_insert_ne by congruence ].

(** *** [offer_loan] *)

(** C5 (amended).  [offer_loan] returns no loan and changes nothing when the
    lender's balance is below the principal.  Otherwise it succeeds, whoever
    the borrower is, eliminated or not, the lender itself included: it
    returns the loan object it has created, and nobody but the lender and
    the borrower changes.  For a lender and a borrower that are two
    participants, the principal goes from the lender's balance to the
    borrower's, and the loan is appended to the lender's [loans_issued] and
    to the borrower's [loans_owed].  A participant lending to itself keeps
    its balance and has the loan in both lists. *)
Theorem offer_loan_spec (w : World) (lender borrower : string)
    (l b : Participant) (amount : Z) (rate : spec_float) (dur : Z) :
  parts w !! lender = Some l →
  parts w !! borrower = Some b →
  (token_bank l < amount →
     offer_loan lender borrower amount rate dur w = (Returned None, w)) ∧
  (token_bank l >= amount →
     let loan := length (loans w) in
     let w' := (offer_loan lender borrower amount rate dur w).2 in
     (offer_loan lender borrower amount rate dur w).1 = Returned (Some loan) ∧
     loans w' = loans w ++ [new_loan (name l) (name b) amount rate dur] ∧
     (∀ k, k ≠ lender → k ≠ borrower → parts w' !! k = parts w !! k) ∧
     (lender ≠ borrower →
        parts w' !! lender =
          Some (set_loans_issued (loans_issued l ++ [loan])
                  (set_token_bank (token_bank l - amount) l)) ∧
        parts w' !! borrower =
          Some (set_loans_owed (loans_owed b ++ [loan])
                  (set_token_bank (token_bank b + amount) b))) ∧
     (lender = borrower →
        parts w' !! lender =
          Some (set_loans_owed (loans_owed l ++ [loan])
                  (set_loans_issued (loans_issued l ++ [loan])
                     (set_token_bank (token_bank l - amount + amount) l))))).
Proof.
  intros Hl Hb. unfold offer_loan. py_unfold.
  rewrite (self_get_lookup _ _ _ Hl).
  split; intros Hbal.
  - rewrite bool_decide_eq_false_2 by lia. reflexivity.
  - rewrite bool_decide_eq_true_2 by lia.
    rewrite (self_get_lookup _ _ _ Hb).
    unfold loan_alloc.
    rewrite (call_lookup lender _ _ l) by exact Hl. simpl.
    destruct (decide (lender = borrower)) as [<-|Hne].
    + assert (b = l) as -> by congruence.
      erewrite (call_lookup lender) by (map_lookup; reflexivity).
      simpl.
      erewrite (call_lookup lender) by (map_lookup; reflexivity).
      simpl.
      erewrite (call_lookup lender) by (map_lookup; reflexivity).
      simpl. split; [reflexivity|]. split; [reflexivity|]. split; [|split].
      * intros k Hk1 Hk2. map_lookup. reflexivity.
      * intros Hne. done.
      * intros _. map_lookup. reflexivity.
    + rewrite (call_lookup borrower _ _ b) by (map_lookup; exact Hb).
      simpl.
      erewrite (call_lookup lender) by (map_lookup; reflexivity).
      simpl.
      erewrite (call_lookup borrower) by (map_lookup; reflexivity).
      simpl. split; [reflexivity|]. split; [reflexivity|]. split; [|split].
      * intros k Hk1 Hk2. map_lookup. reflexivity.
      * intros _. split; map_lookup; reflexivity.
      * intros Heq. done.
Qed.

(** The loan of scenario C. *)
Lemma offer_loan_spec_witness :
  (offer_loan "A" "B" 500 PyFloat.lit_0_2 2 two_party_world).1
    = Returned (Some 0%nat) ∧
  token_bank <$> parts (offer_loan "A" "B" 500 PyFloat.lit_0_2 2
                          two_party_world).2 !! "B" = Some 1500.
Proof.
  destruct (offer_loan_spec two_party_world "A" "B" (new_participant "A")
              (new_participant "B") 500 PyFloat.lit_0_2 2
              eq_refl eq_refl) as [_ H].
  destruct H as (H1 & _ & _ & H4 & _); [simpl; lia |].
  destruct H4 as [_ H4]; [done|].
  split; [exact H1 | rewrite H4; reflexivity].
Defined.

(** C5, as stated, fails: the borrower ["B"] is eliminated, and the loan is
    made all the same. *)
Lemma offer_loan_to_eliminated_borrower :
  (eliminated <$> parts eliminated_borrower_world !! "B") = Some true ∧
  (offer_loan "A" "B" 500 PyFloat.lit_0_2 2 eliminated_borrower_world).1
    = Returned (Some 0%nat) ∧
  (offer_loan "A" "B" 500 PyFloat.lit_0_2 2 eliminated_borrower_world).1
    ≠ Returned None ∧
  (token_bank <$> parts (offer_loan "A" "B" 500 PyFloat.lit_0_2 2
                           eliminated_borrower_world).2 !! "A") = Some 500 ∧
  (token_bank <$> parts (offer_loan "A" "B" 500 PyFloat.lit_0_2 2
                           eliminated_borrower_world).2 !! "B") = Some 1500 ∧
  (loans_owed <$> parts (offer_loan "A" "B" 500 PyFloat.lit_0_2 2
                           eliminated_borrower_world).2 !! "B")
    = Some [0%nat].
Proof. vm_compute. repeat split; congruence. Qed.

(** *** [process_loan_payments] *)

Lemma remove_first_app (x : nat) (pre l : list nat) :
  x ∉ pre → remove_first x (pre ++ x :: l) = Some (pre ++ l).
Proof.
  induction pre as [|y pre IH]; intros Hx; simpl.
  - by rewrite bool_decide_eq_true_2.
  - apply not_elem_of_cons in Hx as [Hxy Hx].
    rewrite bool_decide_eq_false_2 by congruence.
    by rewrite IH.
Qed.

Lemma remove_list_filter (P : nat → bool) (l : list nat) :
  ∀ pre, NoDup (pre ++ l) → (∀ x, x ∈ pre → P x = false) →
    remove_list (List.filter P l) (pre ++ l)
    = Some (pre ++ List.filter (λ x, negb (P x)) l).
Proof.
  induction l as [|x l IH]; intros pre Hnd Hpre; simpl.
  - reflexivity.
  - destruct (P x) eqn:HP; simpl.
    + rewrite remove_first_app.
      * apply IH; [|exact Hpre].
        apply NoDup_app in Hnd as (Hn1 & Hn2 & Hn3).
        apply NoDup_app. repeat split; [exact Hn1 | | by inversion Hn3].
        intros y Hy Hy'. apply (Hn2 y Hy). by right.
      * apply NoDup_app in Hnd as (_ & Hn2 & _).
        intros Hx. apply (Hn2 x Hx). by left.
    + rewrite (cons_middle x pre l), app_assoc.
      rewrite IH; [by rewrite <- app_assoc | by rewrite <- app_assoc |].
      intros y Hy. apply elem_of_app in Hy as [Hy|Hy]; [by apply Hpre|].
      apply list_elem_of_singleton in Hy. by subst.
Qed.

Lemma set_token_bank_same (p : Participant) :
  set_token_bank (token_bank p - 0) p = p.
Proof. destruct p; unfold set_token_bank; simpl. by rewrite Z.sub_0_r. Qed.

Lemma set_loans_owed_same (p : Participant) :
  set_loans_owed (loans_owed p) p = p.
Proof. by destruct p. Qed.

Lemma calculate_payment_tick (r : Z) (l : TokenLoan) :
  calculate_payment (set_rounds_remaining r l) = calculate_payment l.
Proof. reflexivity. Qed.

Lemma repaid_total_app (a b : list loan_event) :
  repaid_total (a ++ b) = repaid_total a + repaid_total b.
Proof.
  induction a as [|[who p ld|who p ld] a IH]; simpl; [done| |done].
  unfold repaid_total in *. simpl. rewrite IH. lia.
Qed.

(** One turn of the loop over [self.loans_owed]. *)
Lemma process_one_loan_char (self : string) (w : World) (me : Participant)
    (acc : list loan_event * list nat) (i : nat) (l : TokenLoan) :
  parts w !! self = Some me →
  loans w !! i = Some l →
  (rounds_remaining l = 1 → returned (calculate_payment l)) →
  ∃ ev,
    process_one_loan self acc i w
    = (Returned (acc.1 ++ ev, acc.2 ++ (if matures w i then [i] else [])),
       set_parts
         (<[self := set_token_bank (token_bank me - repaid_total ev) me]>
            (parts w))
         (set_loans (<[i := tick l]> (loans w)) w)) ∧
    Forall (settles w [i] (name me)) ev.
Proof.
  intros Hme Hl Hpay. destruct acc as [results rem].
  unfold process_one_loan, loan_modify, loan_get, matures. py_unfold.
  rewrite Hl. simpl.
  rewrite list_lookup_insert_eq by (by eapply lookup_lt_Some).
  simpl.
  case_bool_decide as Hr.
  - assert (Hr1 : rounds_remaining l = 1) by lia.
    rewrite bool_decide_eq_true_2 by exact Hr1.
    destruct (Hpay Hr1) as [payment Hp].
    rewrite calculate_payment_tick, Hp.
    change (set_rounds_remaining (rounds_remaining l - 1) l) with (tick l).
    rewrite self_get_lookup with (p := me) by exact Hme.
    case_bool_decide as Hb.
    + exists [Repaid (name me) payment (lender_name l)]. split.
      * rewrite call_lookup with (p := me) by exact Hme. simpl.
        unfold repaid_total; simpl. by rewrite Z.add_0_r.
      * constructor; [|constructor].
        exists i, l, payment. rewrite list_elem_of_singleton. auto 10.
    + exists [Defaulted (name me) payment (lender_name l)]. split.
      * unfold repaid_total; simpl.
        rewrite set_token_bank_same, insert_id by exact Hme.
        by destruct w.
      * constructor; [|constructor].
        exists i, l, payment. rewrite list_elem_of_singleton. auto 10.
  - rewrite bool_decide_eq_false_2 by lia.
    exists []. split; [|constructor].
    unfold repaid_total; simpl.
    rewrite set_token_bank_same, insert_id by exact Hme.
    rewrite !app_nil_r. by destruct w.
Qed.


Lemma settles_mono (w w' : World) (owed owed' : list nat) (who : string)
    (ev : loan_event) :
  (∀ i, i ∈ owed → i ∈ owed' ∧ loans w' !! i = loans w !! i) →
  settles w owed who ev → settles w' owed' who ev.
Proof.
  intros H (i & l & payment & Hi & Hl & Hrest).
  destruct (H i Hi) as [Hi' Heq].
  exists i, l, payment. rewrite Heq. auto.
Qed.

(** The whole loop over [self.loans_owed], from any point of it. *)
Lemma loans_loop_char (self : string) (rest : list nat) :
  ∀ (w : World) (me : Participant) (acc : list loan_event * list nat),
    parts w !! self = Some me →
    NoDup rest →
    payable w rest →
    ∃ res w',
      for_fold rest (process_one_loan self) acc w
      = (Returned (acc.1 ++ res, acc.2 ++ List.filter (matures w) rest), w') ∧
      parts w'
      = <[self := set_token_bank (token_bank me - repaid_total res) me]>
          (parts w) ∧
      length (loans w') = length (loans w) ∧
      (∀ i, i ∈ rest → loans w' !! i = tick <$> loans w !! i) ∧
      (∀ i, i ∉ rest → loans w' !! i = loans w !! i) ∧
      Forall (settles w rest (name me)) res.
Proof.
  induction rest as [|i rest IH]; intros w me acc Hme Hnd Hpay.
  - exists [], w. simpl. rewrite !app_nil_r.
    unfold repaid_total; simpl.
    rewrite set_token_bank_same, insert_id by exact Hme.
    destruct acc. repeat split; auto. intros i Hi. by inversion Hi.
  - destruct (Hpay i) as (l & Hl & Hp); [by left|].
    destruct (process_one_loan_char self w me acc i l Hme Hl Hp)
      as (ev & Hstep & Hev).
    inversion Hnd as [|? ? Hi Hnd']; subst.
    set (me1 := set_token_bank (token_bank me - repaid_total ev) me) in *.
    set (w1 := set_parts (<[self := me1]> (parts w))
                 (set_loans (<[i := tick l]> (loans w)) w)) in *.
    assert (Hloans1 : ∀ j, j ≠ i → loans w1 !! j = loans w !! j).
    { intros j Hj. simpl. by rewrite list_lookup_insert_ne. }
    assert (Hme1 : parts w1 !! self = Some me1) by apply lookup_insert_eq.
    assert (Hpay1 : payable w1 rest).
    { intros j Hj. rewrite Hloans1 by (intros ->; done).
      apply Hpay. by right. }
    destruct (IH w1 me1
                (acc.1 ++ ev, acc.2 ++ (if matures w i then [i] else []))
                Hme1 Hnd' Hpay1)
      as (res & w' & Hrun & Hparts & Hlen & Hin & Hout & Hres).
    exists (ev ++ res), w'. repeat split.
    + simpl. py_unfold. rewrite Hstep. fold (@for_fold World).
      py_unfold. rewrite Hrun. simpl. f_equal. f_equal.
      f_equal; [by rewrite app_assoc|].
      rewrite <- app_assoc. f_equal.
      rewrite (List.filter_ext_in (matures w1) (matures w)).
      * by destruct (matures w i).
      * intros j Hj. unfold matures. rewrite Hloans1; [done|].
        intros ->. apply Hi. by apply list_elem_of_In.
    + rewrite Hparts. simpl. rewrite insert_insert_eq.
      rewrite repaid_total_app. f_equal.
      unfold me1, set_token_bank; simpl. f_equal. lia.
    + rewrite Hlen. simpl. by rewrite length_insert.
    + intros j Hj. apply elem_of_cons in Hj as [->|Hj].
      * rewrite Hout by exact Hi. simpl.
        rewrite list_lookup_insert_eq by (by eapply lookup_lt_Some).
        by rewrite Hl.
      * rewrite Hin by exact Hj. rewrite Hloans1; [done|].
        intros ->. done.
    + intros j Hj. apply not_elem_of_cons in Hj as [Hji Hj].
      rewrite Hout by exact Hj. by apply Hloans1.
    + apply Forall_app. split.
      * eapply Forall_impl; [exact Hev|]. intros e He.
        eapply settles_mono; [|exact He].
        intros j Hj. apply list_elem_of_singleton in Hj as ->.
        split; [by left | done].
      * eapply Forall_impl; [exact Hres|]. intros e He.
        eapply settles_mono; [|exact He].
        intros j Hj. split; [by right|].
        symmetry. apply Hloans1. intros ->. done.
Qed.

(** The loop that takes the settled loans off [self.loans_owed]. *)
Lemma remove_loop_char (self : string) (rem : list nat) :
  ∀ (w : World) (p : Participant) (fin : list nat),
    parts w !! self = Some p →
    remove_list rem (loans_owed p) = Some fin →
    for_each rem (remove_owed self) w
    = (Returned tt, set_parts (<[self := set_loans_owed fin p]> (parts w)) w).
Proof.
  induction rem as [|x rem IH]; intros w p fin Hp Hfin; simpl in *.
  - injection Hfin as <-.
    rewrite set_loans_owed_same, insert_id by exact Hp. by destruct w.
  - destruct (remove_first x (loans_owed p)) as [c|] eqn:Hc; [|done].
    py_unfold. unfold remove_owed at 1.
    rewrite call_lookup with (p := p) by exact Hp.
    rewrite Hc. simpl.
    rewrite (IH _ (set_loans_owed c p) fin);
      [| apply lookup_insert_eq | exact Hfin].
    simpl. by rewrite insert_insert_eq.
Qed.

(** [process_loan_payments], for a borrower whose [loans_owed] holds every
    loan once and whose due payments can be computed: it returns; the
    balance falls by the payments of the [Repaid] lines; the loans that came
    due leave [loans_owed]; every loan of the list has one round less to go;
    nothing else in the store changes. *)
Lemma process_loan_payments_char (self : string) (w : World)
    (me : Participant) :
  parts w !! self = Some me →
  NoDup (loans_owed me) →
  payable w (loans_owed me) →
  ∃ results w',
    process_loan_payments self w = (Returned results, w') ∧
    parts w'
    = <[self := set_loans_owed
                  (List.filter (λ i, negb (matures w i)) (loans_owed me))
                  (set_token_bank (token_bank me - repaid_total results) me)]>
        (parts w) ∧
    length (loans w') = length (loans w) ∧
    (∀ i, i ∈ loans_owed me → loans w' !! i = tick <$> loans w !! i) ∧
    (∀ i, i ∉ loans_owed me → loans w' !! i = loans w !! i) ∧
    Forall (settles w (loans_owed me) (name me)) results.
Proof.
  intros Hme Hnd Hpay.
  destruct (loans_loop_char self (loans_owed me) w me ([], []) Hme Hnd Hpay)
    as (res & w1 & Hrun & Hparts & Hlen & Hin & Hout & Hres).
  set (me1 := set_token_bank (token_bank me - repaid_total res) me) in *.
  assert (Hme1 : parts w1 !! self = Some me1).
  { rewrite Hparts. apply lookup_insert_eq. }
  pose proof (remove_list_filter (matures w) (loans_owed me) [] Hnd) as Hrm.
  simpl in Hrm. specialize (Hrm ltac:(intros x Hx; by inversion Hx)).
  exists res.
  exists (set_parts
            (<[self := set_loans_owed
                         (List.filter (λ i, negb (matures w i)) (loans_owed me))
                         me1]> (parts w1)) w1).
  repeat split; try done.
  - unfold process_loan_payments. py_unfold.
    rewrite self_get_lookup with (p := me) by exact Hme.
    rewrite Hrun. simpl.
    rewrite (remove_loop_char self _ w1 me1 _ Hme1 Hrm). reflexivity.
  - simpl. rewrite Hparts. by rewrite insert_insert_eq.
Qed.


(** Whatever [process_loan_payments] does, and also when it raises, the
    participants other than [self] are left as they were. *)
Lemma process_loan_payments_frame (self : string) (w : World) :
  ∀ k, k ≠ self → parts (process_loan_payments self w).2 !! k = parts w !! k.
Proof.
  intros k Hk.
  set (I := λ w' : World, parts w' !! k = parts w !! k).
  assert (Hcall : ∀ A (m : Py Participant A), preserves I (call self m)).
  { intros A m s Hs. unfold call. destruct (parts s !! self); [|exact Hs].
    destruct (m p) as [o p']. unfold I in *. simpl.
    by rewrite lookup_insert_ne. }
  assert (Hmod : ∀ i f, preserves I (loan_modify i f)).
  { intros i f s Hs. unfold loan_modify. by destruct (loans s !! i). }
  assert (Hget : ∀ i, preserves I (loan_get i)).
  { intros i s Hs. unfold loan_get. by destruct (loans s !! i). }
  assert (H : preserves I (process_loan_payments self)).
  { unfold process_loan_payments.
    apply preserves_bind; [apply Hcall|]. intros me.
    apply preserves_bind.
    - apply preserves_for_fold. intros [results rem] i.
      unfold process_one_loan.
      apply preserves_bind; [apply Hmod|]. intros _.
      apply preserves_bind; [apply Hget|]. intros l.
      case_bool_decide; [|apply preserves_ret].
      apply preserves_bind; [apply preserves_lift_outcome|]. intros payment.
      apply preserves_bind; [apply Hcall|]. intros me'.
      case_bool_decide; [|apply preserves_ret].
      apply preserves_bind; [apply Hcall|]. intros _. apply preserves_ret.
    - intros [results rem].
      apply preserves_bind; [|intros _; apply preserves_ret].
      apply preserves_for_each. intros i. apply Hcall. }
  apply H. reflexivity.
Qed.

Lemma total_tokens_insert (w : World) (k : string) (p p' : Participant) :
  parts w !! k = Some p →
  total_tokens (set_parts (<[k := p']> (parts w)) w)
  = total_tokens w - token_bank p + token_bank p'.
Proof.
  intros Hk. unfold total_tokens. simpl.
  rewrite (map_fold_delete_L _ _ k p (parts w)); [|intros; lia|exact Hk].
  rewrite <- (insert_delete_eq (parts w)).
  rewrite map_fold_insert_L; [lia|intros; lia|apply lookup_delete_eq].
Qed.

(** C4 (amended).  When a loan of [self.loans_owed] reaches zero rounds
    remaining during [process_loan_payments], repaid or defaulted, it leaves
    the borrower's [loans_owed]; the loans not yet due stay.  No
    [loans_issued] list is touched: the borrower's own is as before, and
    every other participant (the lender among them) is unchanged, so the
    matured loan stays in the lender's [loans_issued]. *)
Theorem matured_loan_leaves_owed_only (self : string) (w : World)
    (me : Participant) (i : nat) :
  parts w !! self = Some me →
  NoDup (loans_owed me) →
  payable w (loans_owed me) →
  i ∈ loans_owed me →
  matures w i = true →
  returned (process_loan_payments self w).1 ∧
  (rounds_remaining <$> loans (process_loan_payments self w).2 !! i) = Some 0 ∧
  (∃ me', parts (process_loan_payments self w).2 !! self = Some me' ∧
          (i ∉ loans_owed me') ∧
          (∀ j, j ∈ loans_owed me' ↔ j ∈ loans_owed me ∧ matures w j = false) ∧
          loans_issued me' = loans_issued me) ∧
  (∀ k p, k ≠ self → parts w !! k = Some p →
          parts (process_loan_payments self w).2 !! k = Some p).
Proof.
  intros Hme Hnd Hpay Hi Hm.
  destruct (process_loan_payments_char self w me Hme Hnd Hpay)
    as (results & w' & Hrun & Hparts & _ & Hin & _ & _).
  rewrite Hrun. simpl. split; [by eexists|]. split; [|split].
  - rewrite (Hin i Hi). unfold matures in Hm.
    destruct (loans w !! i) as [l|]; [|done]. simpl.
    apply bool_decide_eq_true_1 in Hm. f_equal. lia.
  - eexists. split; [rewrite Hparts; apply lookup_insert_eq|]. simpl.
    assert (Hiff : ∀ j, j ∈ List.filter (λ i, negb (matures w i)) (loans_owed me)
                        ↔ j ∈ loans_owed me ∧ matures w j = false).
    { intros j. rewrite !list_elem_of_In, List.filter_In.
      by rewrite negb_true_iff. }
    split; [|split; [exact Hiff | reflexivity]].
    rewrite Hiff. intros [_ Hf]. congruence.
  - intros k p Hk Hp. rewrite <- Hp.
    pose proof (process_loan_payments_frame self w k Hk) as Hf.
    rewrite Hrun in Hf. exact Hf.
Qed.

(** Scenario C, second round: the loan comes due and is repaid. *)
Lemma matured_loan_leaves_owed_only_witness :
  (loans_owed <$> parts (process_loan_payments "B" scenario_C_round1).2 !! "B")
    = Some [] ∧
  (loans_issued <$> parts (process_loan_payments "B" scenario_C_round1).2 !! "A")
    = Some [0%nat].
Proof.
  assert (Hpay : payable scenario_C_round1 (loans_owed scenario_C_borrower)).
  { intros i Hi. apply list_elem_of_singleton in Hi. subst i.
    eexists. split; [reflexivity|]. intros _. eexists. vm_compute. reflexivity. }
  destruct (matured_loan_leaves_owed_only "B" scenario_C_round1
              scenario_C_borrower 0%nat eq_refl
              ltac:(apply NoDup_singleton) Hpay
              ltac:(apply list_elem_of_singleton; reflexivity) eq_refl)
    as (_ & _ & _ & Hframe).
  split; [reflexivity|].
  rewrite (Hframe "A" (set_loans_issued [0%nat]
                         (set_token_bank 500 (new_participant "A"))));
    [reflexivity | discriminate | reflexivity].
Defined.

(** C4, as stated, fails: after the loan of scenario C has come due and has
    been repaid it is gone from the borrower's [loans_owed] and still in the
    lender's [loans_issued]; the same after a default. *)
Lemma matured_loan_stays_with_lender :
  ((rounds_remaining <$> loans scenario_C_round2 !! 0%nat) = Some 0 ∧
   (token_bank <$> parts scenario_C_round2 !! "B") = Some 900 ∧
   (loans_owed <$> parts scenario_C_round2 !! "B") = Some [] ∧
   (loans_issued <$> parts scenario_C_round2 !! "A") = Some [0%nat]) ∧
  ((rounds_remaining <$> loans scenario_C_default !! 0%nat) = Some 0 ∧
   (token_bank <$> parts scenario_C_default !! "B") = Some 500 ∧
   (loans_owed <$> parts scenario_C_default !! "B") = Some [] ∧
   (loans_issued <$> parts scenario_C_default !! "A") = Some [0%nat]).
Proof. vm_compute. repeat split. Qed.




(** *** Signs in float arithmetic *)

Lemma binary_round_aux_sign (s : bool) (m e : Z) (l : location) :
  PyFloat.sign_is s (binary_round_aux PyFloat.prec PyFloat.emax s m e l).
Proof.
  unfold binary_round_aux.
  destruct (shr_fexp PyFloat.prec PyFloat.emax m e l) as [mrs' e'].
  destruct (shr_fexp PyFloat.prec PyFloat.emax _ e' loc_Exact) as [mrs'' e''].
  destruct (shr_m mrs''); simpl; [done | | done].
  by destruct (e'' <=? PyFloat.emax - PyFloat.prec).
Qed.

Lemma of_int_sign (n : Z) (f : spec_float) :
  0 ≤ n → PyFloat.of_int n = Returned f → PyFloat.sign_is false f.
Proof.
  intros Hn. unfold PyFloat.of_int, binary_normalize.
  destruct n as [|m|m]; [| |lia].
  - intros [= <-]. done.
  - unfold binary_round.
    destruct (shl_align m 0 _) as [mz ez].
    pose proof (binary_round_aux_sign false (Z.pos mz) ez loc_Exact) as Hs.
    destruct (binary_round_aux _ _ _ _ _ _); intros [= <-]; exact Hs.
Qed.

Lemma mul_sign (x y : spec_float) :
  PyFloat.sign_is false x → PyFloat.sign_is false y →
  PyFloat.sign_is false (PyFloat.mul x y).
Proof.
  unfold PyFloat.mul, SFmul.
  destruct x as [sx|sx| |sx mx ex], y as [sy|sy| |sy my ey]; simpl;
    intros Hx Hy; subst; try done.
  apply binary_round_aux_sign.
Qed.

Lemma to_int_nonneg (x : spec_float) (r : Z) :
  PyFloat.sign_is false x → PyFloat.to_int x = Returned r → 0 ≤ r.
Proof.
  destruct x as [s|s| |s m e]; simpl; intros Hs [= <-]; [lia|].
  subst s. apply Z.shiftl_nonneg. lia.
Qed.

(** [int(n * x)] is not negative when neither [n] nor [x] is. *)
Lemma int_mul_float_nonneg (n : Z) (x : spec_float) (r : Z) :
  0 ≤ n → PyFloat.sign_is false x →
  PyFloat.int_mul_float n x = Returned r → 0 ≤ r.
Proof.
  intros Hn Hx. unfold PyFloat.int_mul_float.
  destruct (PyFloat.of_int n) as [f|] eqn:Hf; [|done].
  intros Hr. eapply to_int_nonneg; [|exact Hr].
  apply mul_sign; [|exact Hx]. by eapply of_int_sign.
Qed.


(** *** Invariants of the store, participant by participant *)

Lemma self_get_inv (self : string) (w : World) :
  (∃ me, parts w !! self = Some me ∧ self_get self w = (Returned me, w)) ∨
  (parts w !! self = None ∧ self_get self w = (Raised InvalidRef, w)).
Proof.
  destruct (parts w !! self) as [me|] eqn:E.
  - left. exists me. split; [done|]. by apply self_get_lookup.
  - right. split; [done|]. unfold self_get. by apply call_missing.
Qed.

(** Reading [self] and going on with what was read. *)
Lemma self_get_bind_at {B} (I : World → Prop) (self : string)
    (body : Participant → Py World B) (w : World) :
  I w →
  (∀ me, parts w !! self = Some me → I (body me w).2) →
  I ((self_get self ≫= body) w).2.
Proof.
  intros Hw Hbody. py_unfold.
  destruct (self_get_inv self w) as [(me & Hme & ->)|(_ & ->)]; [|exact Hw].
  by apply Hbody.
Qed.

Lemma preserves_self_get_bind {B} (I : World → Prop) (self : string)
    (body : Participant → Py World B) :
  (∀ me w, parts w !! self = Some me → I w → I (body me w).2) →
  preserves I (self_get self ≫= body).
Proof.
  intros Hbody w Hw. apply self_get_bind_at; [exact Hw|].
  intros me Hme. by apply Hbody.
Qed.

Lemma preserves_in_world {A} (I : World → Prop) (m : Py World A) :
  preserves I m → preserves (λ e, I (world e)) (in_world m).
Proof.
  intros Hm e He. unfold in_world, zoom.
  specialize (Hm (world e) He). by destruct (m (world e)).
Qed.

Lemma preserves_in_world_get_bind {B} (I : Engine → Prop) (self : string)
    (body : Participant → Py Engine B) :
  (∀ me e, parts (world e) !! self = Some me → I e → I (body me e).2) →
  preserves I (in_world (self_get self) ≫= body).
Proof.
  intros Hbody e He. py_unfold. unfold in_world, zoom.
  destruct (self_get_inv self (world e)) as [(me & Hme & ->)|(_ & ->)].
  - replace (set_world (world e) e) with e by (by destruct e).
    by apply Hbody.
  - by destruct e.
Qed.

Section Invariant.
Context (R : string → option Participant → Prop) (HR : stable R).

Lemma call_preserves {A} (self : string) (m : Py Participant A) :
  (∀ p, R self (Some p) → R self (Some (m p).2)) →
  preserves (part_inv R) (call self m).
Proof.
  intros Hm w Hw. unfold call.
  destruct (parts w !! self) as [p|] eqn:E; [|exact Hw].
  specialize (Hm p). destruct (m p) as [o p']. simpl in *.
  intros k. simpl. destruct (decide (k = self)) as [->|Hk].
  - rewrite lookup_insert_eq. apply Hm. rewrite <- E. apply Hw.
  - rewrite lookup_insert_ne by done. apply Hw.
Qed.

(** An assignment to [self] whose right-hand side was computed from the
    attributes read just before. *)
Lemma call_modify_at (self : string) (f : Participant → Participant)
    (w : World) (p : Participant) :
  parts w !! self = Some p → part_inv R w → R self (Some (f p)) →
  part_inv R (call self (modify f) w).2.
Proof.
  intros Hp Hw Hf. rewrite call_lookup with (p := p) by exact Hp.
  intros k. simpl. destruct (decide (k = self)) as [->|Hk].
  - by rewrite lookup_insert_eq.
  - rewrite lookup_insert_ne by done. apply Hw.
Qed.

Lemma get_config_keeps (k : string) (p : Participant) :
  R k (Some p) → R k (Some (get_config p).2).
Proof. unfold get_config. by destruct (PERFORMANCE_LEVELS (level p)). Qed.

Lemma earn_tokens_keeps (k : string) (p : Participant) (c : Z) :
  0 ≤ c → R k (Some p) → R k (Some (earn_tokens c p).2).
Proof.
  intros Hc Hp. unfold earn_tokens, modify. simpl.
  apply (stable_earned R HR). by apply (stable_credit R HR).
Qed.

Lemma apply_interest_keeps (k : string) (p : Participant) :
  R k (Some p) → R k (Some (apply_interest p).2).
Proof.
  intros Hp. unfold apply_interest. case_bool_decide as Hb; [|exact Hp].
  destruct (PyFloat.int_mul_float _ _) as [interest|] eqn:Hi; [|exact Hp].
  simpl. apply (stable_interest R HR). apply (stable_credit R HR); [|exact Hp].
  eapply int_mul_float_nonneg; [| |exact Hi]; [lia|done].
Qed.

Lemma loan_modify_preserves (i : nat) f :
  preserves (part_inv R) (loan_modify i f).
Proof. intros w Hw. unfold loan_modify. by destruct (loans w !! i). Qed.

Lemma loan_get_preserves (i : nat) : preserves (part_inv R) (loan_get i).
Proof. intros w Hw. unfold loan_get. by destruct (loans w !! i). Qed.

Lemma self_get_preserves (self : string) :
  preserves (part_inv R) (self_get self).
Proof.
  intros w Hw.
  by destruct (self_get_inv self w) as [(me & _ & ->)|(_ & ->)].
Qed.

Lemma process_one_loan_preserves (self : string) acc (i : nat) :
  preserves (part_inv R) (process_one_loan self acc i).
Proof.
  destruct acc as [results rem]. unfold process_one_loan.
  apply preserves_bind; [apply loan_modify_preserves|]. intros _.
  apply preserves_bind; [apply loan_get_preserves|]. intros l.
  case_bool_decide; [|apply preserves_ret].
  apply preserves_bind; [apply preserves_lift_outcome|]. intros payment.
  apply preserves_self_get_bind. intros me w Hme Hw.
  case_bool_decide as Hb; [|exact Hw].
  apply bind_at; [|intros _; apply preserves_ret].
  apply call_modify_at with (p := me); [exact Hme | exact Hw |].
  apply (stable_debit R HR); [exact Hb|].
  rewrite <- Hme. apply Hw.
Qed.

Lemma process_loan_payments_preserves (self : string) :
  preserves (part_inv R) (process_loan_payments self).
Proof.
  unfold process_loan_payments.
  apply preserves_bind; [apply self_get_preserves|]. intros me.
  apply preserves_bind.
  - apply preserves_for_fold. intros acc i. apply process_one_loan_preserves.
  - intros [results rem].
    apply preserves_bind; [|intros _; apply preserves_ret].
    apply preserves_for_each. intros i. unfold remove_owed.
    apply call_preserves. intros p Hp.
    destruct (remove_first i (loans_owed p)); [|exact Hp].
    by apply (stable_owed R HR).
Qed.

Lemma get_status_display_preserves (self : string) :
  preserves (part_inv R) (get_status_display self).
Proof.
  unfold get_status_display.
  apply preserves_bind; [apply call_preserves, get_config_keeps|]. intros _.
  apply preserves_bind; [apply self_get_preserves|]. intros me.
  apply preserves_for_each. intros i.
  apply preserves_bind; [apply loan_get_preserves|]. intros l.
  apply preserves_bind; [apply preserves_lift_outcome|]. intros _.
  apply preserves_ret.
Qed.
End Invariant.


(** *** The same invariants through a round *)

Ltac pres_step :=
  first [ apply preserves_ret
        | apply preserves_raise
        | apply preserves_lift_outcome
        | apply preserves_get
        | apply preserves_for_each; intros ?
        | apply preserves_for_fold; intros ? ?
        | apply preserves_bind; [|intros ?] ].

Lemma judge_responses_state (reply : judge_reply) responses (e : Engine) :
  (judge_responses reply responses e).2 = e.
Proof.
  unfold judge_responses, try, first_name, last_name. py_unfold. simpl.
  destruct (known_names e responses); [|done]. simpl.
  case_bool_decide; [done|].
  destruct reply; simpl; [|done].
  destruct (head _); simpl; [|done]. by destruct (last _).
Qed.

Section EngineInvariant.
Context (R : string → option Participant → Prop) (HR : stable R).

Let Ie : Engine → Prop := λ e, part_inv R (world e).

Lemma engine_self_get_preserves (n : string) :
  preserves Ie (in_world (self_get n)).
Proof. apply (preserves_in_world (part_inv R)), self_get_preserves. Qed.

Lemma engine_call_preserves {A} (n : string) (m : Py Participant A) :
  (∀ p, R n (Some p) → R n (Some (m p).2)) →
  preserves Ie (in_world (call n m)).
Proof.
  intros H. by apply (preserves_in_world (part_inv R)), call_preserves.
Qed.

Lemma values_preserves : preserves Ie values.
Proof.
  unfold values. repeat pres_step. apply engine_self_get_preserves.
Qed.

Lemma apply_interest_to_all_preserves : preserves Ie apply_interest_to_all.
Proof.
  unfold apply_interest_to_all. repeat pres_step.
  - apply engine_self_get_preserves.
  - destruct (eliminated _); repeat pres_step.
    apply engine_call_preserves. intros p. by apply apply_interest_keeps.
Qed.

Lemma process_all_loans_preserves : preserves Ie process_all_loans.
Proof.
  unfold process_all_loans. repeat pres_step.
  - apply engine_self_get_preserves.
  - destruct (eliminated _); repeat pres_step.
    apply (preserves_in_world (part_inv R)).
    by apply process_loan_payments_preserves.
Qed.

Lemma get_challenge_preserves : preserves Ie get_challenge.
Proof.
  unfold get_challenge. repeat pres_step.
  case_bool_decide; repeat pres_step; by apply preserves_modify.
Qed.

Lemma collect_responses_preserves responder :
  preserves Ie (collect_responses responder).
Proof.
  unfold collect_responses, get_response. repeat pres_step.
  - apply engine_self_get_preserves.
  - destruct (eliminated _); repeat pres_step.
    + apply engine_self_get_preserves.
    + destruct (eliminated _); repeat pres_step.
      apply engine_call_preserves. intros p. by apply get_config_keeps.
Qed.

Lemma judge_responses_preserves reply responses :
  preserves Ie (judge_responses reply responses).
Proof. intros e He. by rewrite judge_responses_state. Qed.

Lemma participants_getitem_preserves (v : jval) :
  preserves Ie (participants_getitem v).
Proof.
  destruct v; simpl; repeat pres_step.
  case_bool_decide; repeat pres_step.
Qed.

Lemma apply_performance_changes_preserves (best worst : jval) :
  preserves Ie (apply_performance_changes best worst).
Proof.
  unfold apply_performance_changes. repeat pres_step;
    try apply participants_getitem_preserves;
    try apply engine_self_get_preserves;
    try (apply engine_call_preserves; intros p Hp).
  - by apply (stable_level R HR).
  - by apply earn_tokens_keeps.
  - by apply get_config_keeps.
  - by apply (stable_level R HR).
  - case_bool_decide; repeat pres_step.
    apply engine_call_preserves. intros p. by apply get_config_keeps.
Qed.

Lemma survival_bonus_preserves : preserves Ie survival_bonus.
Proof.
  unfold survival_bonus. repeat pres_step.
  - apply engine_self_get_preserves.
  - destruct (eliminated _); repeat pres_step.
    apply engine_call_preserves. intros p. by apply earn_tokens_keeps.
Qed.

Lemma check_group_survival_bonus_preserves :
  preserves Ie check_group_survival_bonus.
Proof.
  unfold check_group_survival_bonus.
  apply preserves_bind; [apply values_preserves|]. intros ps.
  destruct (forallb _ ps); repeat pres_step.
  apply engine_call_preserves. intros p. by apply earn_tokens_keeps.
Qed.

Lemma check_eliminations_preserves : preserves Ie check_eliminations.
Proof.
  unfold check_eliminations. apply preserves_for_each. intros n.
  apply preserves_in_world_get_bind. intros me e Hme He.
  destruct (eliminated me) eqn:Hel; simpl; [exact He|].
  case_bool_decide; [|exact He].
  py_unfold. simpl. unfold in_world, zoom.
  pose proof (call_modify_at R n (set_eliminated (current_round e))
                (world e) me Hme He) as Hc.
  destruct (call n _ (world e)) as [o w']. simpl in *.
  apply Hc. apply (stable_eliminate R HR); [exact Hel|].
  rewrite <- Hme. apply He.
Qed.

(** Every [stable] property of the participants holds after [run_round] if
    it held before, whether the round completes or raises. *)
Lemma run_round_preserves responder reply :
  preserves Ie (run_round responder reply).
Proof.
  unfold run_round.
  apply preserves_bind; [by apply preserves_modify|]. intros _.
  apply preserves_bind.
  { apply preserves_for_each. intros n.
    apply (preserves_in_world (part_inv R)).
    by apply get_status_display_preserves. }
  intros _.
  apply preserves_bind; [apply apply_interest_to_all_preserves|]. intros _.
  apply preserves_bind; [apply process_all_loans_preserves|]. intros _.
  apply preserves_bind; [apply get_challenge_preserves|]. intros _.
  apply preserves_bind; [apply collect_responses_preserves|].
  intros responses.
  apply preserves_bind.
  { case_bool_decide; [|apply preserves_ret].
    apply preserves_bind; [apply judge_responses_preserves|].
    intros [best worst].
    destruct (truthy best && truthy worst); [|apply preserves_ret].
    apply apply_performance_changes_preserves. }
  intros _.
  apply preserves_bind; [apply survival_bonus_preserves|]. intros _.
  apply preserves_bind; [apply check_group_survival_bonus_preserves|].
  intros _. apply check_eliminations_preserves.
Qed.

Lemma run_rounds_preserves rounds : preserves Ie (run_rounds rounds).
Proof.
  induction rounds as [|[responder reply] rounds IH]; simpl.
  - apply preserves_ret.
  - apply preserves_bind; [apply values_preserves|]. intros ps.
    case_bool_decide; [apply preserves_ret|].
    apply preserves_bind; [apply run_round_preserves|]. intros _. exact IH.
Qed.

Lemma run_preserves collaborators : preserves Ie (run collaborators).
Proof.
  unfold run. apply preserves_bind; [apply preserves_get|]. intros e.
  apply run_rounds_preserves.
Qed.
End EngineInvariant.


(** *** Balances *)

Lemma stable_nonneg : stable nonneg_at.
Proof.
  split; unfold nonneg_at; intros k p; intros; simplify_eq; simpl;
    try (by eauto).
  - assert (0 ≤ token_bank p) by eauto. lia.
  - lia.
Qed.

Lemma bank_nonneg_part_inv (w : World) :
  bank_nonneg w ↔ part_inv nonneg_at w.
Proof.
  unfold bank_nonneg, part_inv, nonneg_at. split.
  - intros H k p Hp. by eapply H.
  - intros H k p Hp. by eapply H.
Qed.

Lemma preserves_bank_nonneg {A} (m : Py World A) :
  preserves (part_inv nonneg_at) m → preserves bank_nonneg m.
Proof.
  intros H w Hw. apply bank_nonneg_part_inv, H.
  by apply bank_nonneg_part_inv.
Qed.

Lemma preserves_engine_bank_nonneg {A} (m : Py Engine A) :
  preserves (λ e, part_inv nonneg_at (world e)) m →
  preserves (λ e, bank_nonneg (world e)) m.
Proof.
  intros H e He. apply bank_nonneg_part_inv, H.
  by apply bank_nonneg_part_inv.
Qed.

Lemma loan_alloc_bind {B} (x : TokenLoan) (f : nat → Py World B) (w : World) :
  (loan_alloc x ≫= f) w = f (length (loans w)) (set_loans (loans w ++ [x]) w).
Proof. reflexivity. Qed.

Lemma donate_to_nonneg (self target : string) (amount : Z) :
  0 ≤ amount → preserves bank_nonneg (donate_to self target amount).
Proof.
  intros Ha. apply preserves_bank_nonneg. unfold donate_to.
  apply preserves_bind.
  { apply call_preserves. intros p Hp q [= <-].
    apply spend_tokens_nonneg. by apply Hp. }
  intros [|]; [|apply preserves_ret].
  apply preserves_bind.
  { apply call_preserves. intros p.
    by apply (earn_tokens_keeps _ stable_nonneg). }
  intros _. apply preserves_bind.
  { apply call_preserves. intros p Hp q [= <-]. simpl. by apply Hp. }
  intros _. apply preserves_bind; [|intros _; apply preserves_ret].
  apply call_preserves. intros p Hp q [= <-]. simpl. by apply Hp.
Qed.

Lemma offer_loan_nonneg (self borrower : string) (amount : Z)
    (rate : spec_float) (dur : Z) :
  0 ≤ amount →
  preserves bank_nonneg (offer_loan self borrower amount rate dur).
Proof.
  intros Ha. apply preserves_bank_nonneg. unfold offer_loan.
  apply preserves_self_get_bind. intros me w Hme Hw.
  case_bool_decide as Hb; [|exact Hw].
  apply self_get_bind_at; [exact Hw|]. intros b _.
  rewrite loan_alloc_bind. apply bind_at.
  { apply call_modify_at with (p := me); [exact Hme | exact Hw |].
    intros q [= <-]. simpl. lia. }
  intros _. apply preserves_bind.
  { apply call_preserves. intros p Hp q [= <-]. simpl.
    specialize (Hp p eq_refl). lia. }
  intros _. apply preserves_bind.
  { apply call_preserves. intros p Hp q [= <-]. simpl. by apply Hp. }
  intros _. apply preserves_bind; [|intros _; apply preserves_ret].
  apply call_preserves. intros p Hp q [= <-]. simpl. by apply Hp.
Qed.

Lemma new_engine_nonneg : bank_nonneg (world new_engine).
Proof.
  intros k p Hp. simpl in Hp.
  repeat (apply lookup_insert_Some in Hp as [[_ <-]|[_ Hp]]; [done|]).
  by rewrite lookup_empty in Hp.
Qed.

(** C1 (amended).  In version 3 no debit makes a balance negative: a season
    starts with non-negative balances, and [spend_tokens], [boost_self],
    [donate_to] and [offer_loan] (for a non-negative amount),
    [process_loan_payments], a whole [run_round] and a whole [run] each
    leave every balance non-negative if every balance was, also when they
    raise. *)
Theorem v3_balances_stay_nonneg :
  bank_nonneg (world new_engine) ∧
  (∀ p amount, 0 ≤ token_bank p → 0 ≤ token_bank (spend_tokens amount p).2) ∧
  (∀ p, 0 ≤ token_bank p → 0 ≤ token_bank (boost_self p).2) ∧
  (∀ self target amount,
     0 ≤ amount → preserves bank_nonneg (donate_to self target amount)) ∧
  (∀ self borrower amount rate dur,
     0 ≤ amount →
     preserves bank_nonneg (offer_loan self borrower amount rate dur)) ∧
  (∀ self, preserves bank_nonneg (process_loan_payments self)) ∧
  (∀ responder reply,
     preserves (λ e, bank_nonneg (world e)) (run_round responder reply)) ∧
  (∀ collaborators,
     preserves (λ e, bank_nonneg (world e)) (run collaborators)).
Proof.
  split; [exact new_engine_nonneg|].
  split; [intros p amount; apply spend_tokens_nonneg|].
  split; [exact boost_self_nonneg|].
  split; [exact donate_to_nonneg|].
  split; [exact offer_loan_nonneg|].
  split; [|split].
  - intros self. apply preserves_bank_nonneg.
    apply process_loan_payments_preserves, stable_nonneg.
  - intros responder reply. apply preserves_engine_bank_nonneg.
    apply run_round_preserves, stable_nonneg.
  - intros collaborators. apply preserves_engine_bank_nonneg.
    apply run_preserves, stable_nonneg.
Qed.

(** *** Elimination *)

Lemma out_at_keep (k0 : string) (r : option Z) (k : string)
    (p p' : Participant) :
  eliminated p' = eliminated p →
  elimination_round p' = elimination_round p →
  out_at k0 r k (Some p) → out_at k0 r k (Some p').
Proof.
  intros He Hr Hp Hk. destruct (Hp Hk) as (q & [= <-] & Hq & Hqr).
  exists p'. split; [reflexivity|]. split; congruence.
Qed.

Lemma stable_out (k0 : string) (r : option Z) : stable (out_at k0 r).
Proof.
  split.
  - intros k p c _. by apply out_at_keep.
  - intros k p x _. by apply out_at_keep.
  - intros k p v. by apply out_at_keep.
  - intros k p v. by apply out_at_keep.
  - intros k p v. by apply out_at_keep.
  - intros k p v. by apply out_at_keep.
  - intros k p r' He Hp Hk.
    destruct (Hp Hk) as (q & [= <-] & Hq & _). congruence.
Qed.

Lemma eliminate_if_due_idem (r : Z) (p : Participant) :
  eliminate_if_due r (eliminate_if_due r p) = eliminate_if_due r p.
Proof.
  unfold eliminate_if_due.
  destruct (negb (eliminated p) && bool_decide (level p <= -6)) eqn:E;
    [reflexivity | by rewrite E].
Qed.

(** A loop over keys that assigns to each participant a function [g] of the
    round number and of the participant. *)
Lemma for_each_update (g : Z → Participant → Participant)
    (body : string → Py Engine unit) :
  (∀ n e p, parts (world e) !! n = Some p →
     body n e
     = (Returned tt,
        set_world (set_parts (<[n := g (current_round e) p]> (parts (world e)))
                     (world e)) e)) →
  ∀ (l : list string) (e : Engine),
    NoDup l →
    (∀ n, n ∈ l → is_Some (parts (world e) !! n)) →
    ∃ m',
      for_each l body e
      = (Returned tt, set_world (set_parts m' (world e)) e) ∧
      (∀ n, n ∈ l → m' !! n = g (current_round e) <$> parts (world e) !! n) ∧
      (∀ n, n ∉ l → m' !! n = parts (world e) !! n).
Proof.
  intros Hbody l. induction l as [|n l IH]; intros e Hnd Hin.
  - exists (parts (world e)). simpl. split; [|split; [|done]].
    + by destruct e as [[? ?] ? ? ?].
    + intros n Hn. by apply elem_of_nil in Hn.
  - inversion Hnd as [|? ? Hn Hnd']; subst.
    destruct (Hin n) as [p Hp]; [by left|].
    set (e1 := set_world
                 (set_parts (<[n := g (current_round e) p]> (parts (world e)))
                    (world e)) e).
    destruct (IH e1 Hnd') as (m' & Hrun & Hl & Hout).
    { intros k Hk. simpl. destruct (decide (k = n)) as [->|Hkn]; [done|].
      rewrite lookup_insert_ne by done. apply Hin. by right. }
    exists m'. split; [|split].
    + simpl. py_unfold. rewrite (Hbody n e p Hp). fold e1.
      change (for_each l body e1
              = (Returned (), set_world (set_parts m' (world e)) e)).
      rewrite Hrun. by destruct e as [[? ?] ? ? ?].
    + intros k Hk. apply elem_of_cons in Hk as [->|Hk].
      * rewrite Hout by done. simpl. rewrite lookup_insert_eq. by rewrite Hp.
      * rewrite Hl by done. simpl. rewrite lookup_insert_ne; [done|].
        intros ->. done.
    + intros k Hk. apply not_elem_of_cons in Hk as [Hkn Hk].
      rewrite Hout by done. simpl. by rewrite lookup_insert_ne.
Qed.

Lemma NoDup_names : NoDup names.
Proof. apply (bool_decide_unpack _). by vm_compute. Qed.

Lemma check_eliminations_body (n : string) (e : Engine) (p : Participant) :
  parts (world e) !! n = Some p →
  (p ← in_world (self_get n);
   if negb (eliminated p) && bool_decide (level p <= -6) then
     e ← get; in_world (call n (modify (set_eliminated (current_round e))))
   else mret tt) e
  = (Returned tt,
     set_world (set_parts (<[n := eliminate_if_due (current_round e) p]>
                             (parts (world e))) (world e)) e).
Proof.
  intros Hp. py_unfold. unfold in_world, zoom, eliminate_if_due.
  rewrite self_get_lookup with (p := p) by exact Hp. simpl.
  destruct (negb (eliminated p) && bool_decide (level p <= -6)).
  - unfold get. simpl. rewrite call_lookup with (p := p) by exact Hp.
    simpl. by destruct e as [[? ?] ? ? ?].
  - rewrite insert_id by exact Hp. by destruct e as [[? ?] ? ? ?].
Qed.

(** [check_eliminations] on a full roster. *)
Lemma check_eliminations_char (e : Engine) :
  roster_present e →
  ∃ m',
    check_eliminations e = (Returned tt, set_world (set_parts m' (world e)) e) ∧
    (∀ n, n ∈ names →
       m' !! n = eliminate_if_due (current_round e) <$> parts (world e) !! n) ∧
    (∀ n, n ∉ names → m' !! n = parts (world e) !! n).
Proof.
  intros Hin. unfold check_eliminations.
  apply (for_each_update eliminate_if_due); [|exact NoDup_names|exact Hin].
  intros n e' p Hp. by apply check_eliminations_body.
Qed.

(** C8.  [check_eliminations] turns a participant that is not eliminated
    and whose level is at most -6 into an eliminated one and records the
    current round; it leaves every other participant as it is, an eliminated
    one in particular, so that checking twice is checking once.  A
    participant eliminated before a round ([run_round]) or a season ([run])
    is eliminated after it, with the round recorded at its elimination. *)
Theorem elimination_is_permanent :
  (∀ e, roster_present e →
     ∃ m',
       check_eliminations e
       = (Returned tt, set_world (set_parts m' (world e)) e) ∧
       (∀ n, n ∈ names →
          m' !! n
          = eliminate_if_due (current_round e) <$> parts (world e) !! n) ∧
       (∀ n, n ∉ names → m' !! n = parts (world e) !! n) ∧
       check_eliminations (check_eliminations e).2
       = (Returned tt, (check_eliminations e).2)) ∧
  (∀ r p, eliminated p = false → level p <= -6 →
     eliminated (eliminate_if_due r p) = true ∧
     elimination_round (eliminate_if_due r p) = Some r) ∧
  (∀ r p, eliminated p = false → ¬ level p <= -6 →
     eliminate_if_due r p = p) ∧
  (∀ r p, eliminated p = true → eliminate_if_due r p = p) ∧
  (∀ responder reply e k p,
     parts (world e) !! k = Some p → eliminated p = true →
     ∃ p', parts (world (run_round responder reply e).2) !! k = Some p' ∧
           eliminated p' = true ∧
           elimination_round p' = elimination_round p) ∧
  (∀ collaborators e k p,
     parts (world e) !! k = Some p → eliminated p = true →
     ∃ p', parts (world (run collaborators e).2) !! k = Some p' ∧
           eliminated p' = true ∧
           elimination_round p' = elimination_round p).
Proof.
  split; [|split; [|split; [|split; [|split]]]].
  - intros e Hin.
    destruct (check_eliminations_char e Hin) as (m' & Hrun & Hl & Hout).
    exists m'. split; [exact Hrun|]. split; [exact Hl|]. split; [exact Hout|].
    rewrite Hrun. simpl.
    set (e1 := set_world (set_parts m' (world e)) e).
    destruct (check_eliminations_char e1) as (m'' & Hrun' & Hl' & Hout').
    { intros n Hn. simpl. rewrite Hl by done.
      destruct (Hin n Hn) as [p ->]. by eexists. }
    rewrite Hrun'. f_equal.
    assert (m'' = m') as ->.
    { apply map_eq. intros n. destruct (decide (n ∈ names)) as [Hn|Hn].
      - rewrite Hl' by done. simpl. rewrite Hl by done.
        destruct (parts (world e) !! n); simpl; [|done].
        by rewrite eliminate_if_due_idem.
      - rewrite Hout' by done. done. }
    by destruct e as [[? ?] ? ? ?].
  - intros r p He Hl. unfold eliminate_if_due. rewrite He. simpl.
    by rewrite bool_decide_eq_true_2.
  - intros r p He Hl. unfold eliminate_if_due. rewrite He. simpl.
    by rewrite bool_decide_eq_false_2.
  - intros r p He. unfold eliminate_if_due. by rewrite He.
  - intros responder reply e k p Hp He.
    pose proof (run_round_preserves (out_at k (elimination_round p))
                  (stable_out _ _) responder reply e) as H.
    destruct (H ltac:(intros k' ->; eauto) k eq_refl) as (p' & ? & ? & ?).
    eauto.
  - intros collaborators e k p Hp He.
    pose proof (run_preserves (out_at k (elimination_round p))
                  (stable_out _ _) collaborators e) as H.
    destruct (H ltac:(intros k' ->; eauto) k eq_refl) as (p' & ? & ? & ?).
    eauto.
Qed.


(** *** Judging *)



(** *** Settlement of the levels *)

Lemma in_world_call_lookup {A} (k : string) (m : Py Participant A)
    (e : Engine) (p : Participant) :
  parts (world e) !! k = Some p →
  in_world (call k m) e
  = ((m p).1,
     set_world (set_parts (<[k := (m p).2]> (parts (world e))) (world e)) e).
Proof.
  intros Hp. unfold in_world, zoom.
  by rewrite call_lookup with (p := p) by exact Hp.
Qed.

Lemma in_world_self_get_lookup (k : string) (e : Engine) (p : Participant) :
  parts (world e) !! k = Some p → in_world (self_get k) e = (Returned p, e).
Proof.
  intros Hp. unfold in_world, zoom.
  rewrite self_get_lookup with (p := p) by exact Hp.
  by destruct e as [[? ?] ? ? ?].
Qed.

Lemma PERFORMANCE_LEVELS_domain (lvl : Z) :
  -5 ≤ lvl ≤ 3 → is_Some (PERFORMANCE_LEVELS lvl).
Proof.
  intros H.
  assert (lvl = -5 ∨ lvl = -4 ∨ lvl = -3 ∨ lvl = -2 ∨ lvl = -1 ∨ lvl = 0 ∨
          lvl = 1 ∨ lvl = 2 ∨ lvl = 3) as Hc by lia.
  repeat (destruct Hc as [->|Hc]; [by eexists|]). subst. by eexists.
Qed.

Lemma get_config_returns (p : Participant) :
  -5 ≤ level p ≤ 3 → ∃ c, get_config p = (Returned c, p).
Proof.
  intros H. unfold get_config.
  destruct (PERFORMANCE_LEVELS_domain _ H) as [c ->]. by exists c.
Qed.

(** C7 (amended).  The settlement of version 3, for a best and a worst
    participant that are not the same one: the best's level becomes
    [min(level + 1, 3)] and it earns 500 tokens; the worst's level becomes
    [max(level - 1, -6)]; nobody else changes. *)
Theorem settle_levels_clamped (e : Engine) (best worst : string)
    (b w : Participant) :
  parts (world e) !! best = Some b →
  parts (world e) !! worst = Some w →
  best ≠ worst →
  -6 ≤ level b →
  level w ≤ 4 →
  ∃ e',
    apply_performance_changes (JStr best) (JStr worst) e = (Returned tt, e') ∧
    parts (world e') !! best
    = Some (set_total_earned (total_earned b + 500)
              (set_token_bank (token_bank b + 500)
                 (set_level (Z.min (level b + 1) 3) b))) ∧
    parts (world e') !! worst = Some (set_level (Z.max (level w - 1) (-6)) w) ∧
    (∀ k, k ≠ best → k ≠ worst →
          parts (world e') !! k = parts (world e) !! k).
Proof.
  intros Hb Hw Hne Hlb Hlw.
  unfold apply_performance_changes, participants_getitem.
  py_unfold. unfold get. simpl.
  rewrite bool_decide_eq_true_2 by (by rewrite Hb).
  rewrite bool_decide_eq_true_2 by (by rewrite Hw).
  rewrite in_world_call_lookup with (p := b) by exact Hb. simpl.
  erewrite in_world_call_lookup by (map_lookup; reflexivity). simpl.
  erewrite in_world_call_lookup by (map_lookup; reflexivity).
  match goal with
  | |- context [get_config ?p] =>
      destruct (get_config_returns p) as [c Hc]; [simpl; lia|]; rewrite Hc
  end.
  simpl.
  erewrite in_world_call_lookup by (map_lookup; exact Hw). simpl.
  erewrite in_world_self_get_lookup by (map_lookup; reflexivity).
  simpl. case_bool_decide as Hlvl.
  - erewrite in_world_call_lookup by (map_lookup; reflexivity).
    match goal with
    | |- context [get_config ?p] =>
        destruct (get_config_returns p) as [c' Hc']; [simpl; lia|];
        rewrite Hc'
    end.
    simpl. eexists. split; [reflexivity|]. simpl.
    split; [map_lookup; reflexivity|]. split; [map_lookup; reflexivity|].
    intros k Hk1 Hk2. map_lookup. reflexivity.
  - eexists. split; [reflexivity|]. simpl.
    split; [map_lookup; reflexivity|]. split; [map_lookup; reflexivity|].
    intros k Hk1 Hk2. map_lookup. reflexivity.
Qed.

(** The settlement of scenario A. *)
Lemma settle_levels_clamped_witness :
  ∃ e',
    apply_performance_changes (JStr "Grok") (JStr "ChatGPT") new_engine
    = (Returned tt, e') ∧
    (level <$> parts (world e') !! "Grok") = Some 1 ∧
    (token_bank <$> parts (world e') !! "Grok") = Some 1500 ∧
    (level <$> parts (world e') !! "ChatGPT") = Some (-1) ∧
    (level <$> parts (world e') !! "Claude") = Some 0.
Proof.
  destruct (settle_levels_clamped new_engine "Grok" "ChatGPT"
              (new_participant "Grok") (new_participant "ChatGPT")
              eq_refl eq_refl ltac:(discriminate)
              ltac:(simpl; lia) ltac:(simpl; lia))
    as (e' & Hrun & Hb & Hw & Hframe).
  exists e'. split; [exact Hrun|].
  rewrite Hb, Hw, (Hframe "Claude") by discriminate.
  repeat split.
Defined.


(** *** The group survival bonus *)

(** A loop that collects what is stored under each key of a list. *)
Lemma for_fold_collect {S A} (look : string → Py S A)
    (stored : S → string → option A) :
  (∀ k s a, stored s k = Some a → look k s = (Returned a, s)) →
  ∀ (l : list string) (acc : list A) (s : S),
    (∀ k, k ∈ l → is_Some (stored s k)) →
    ∃ ps,
      for_fold l (λ acc k, a ← look k; mret (acc ++ [a])) acc s
      = (Returned (acc ++ ps), s) ∧
      Forall2 (λ k a, stored s k = Some a) l ps.
Proof.
  intros Hlook l. induction l as [|k l IH]; intros acc s Hin.
  - exists []. simpl. rewrite app_nil_r. split; [done|constructor].
  - destruct (Hin k) as [a Ha]; [by left|].
    destruct (IH (acc ++ [a]) s) as (ps & Hrun & Hps).
    { intros k' Hk'. apply Hin. by right. }
    exists (a :: ps). split; [|by constructor].
    simpl. py_unfold. rewrite (Hlook k s a Ha).
    change (for_fold l (λ acc k, a ← look k; mret (acc ++ [a])) (acc ++ [a]) s
            = (Returned (acc ++ a :: ps), s)).
    rewrite Hrun. by rewrite <- app_assoc.
Qed.

Lemma forallb_stored {A} (f : A → bool) (stored : string → option A)
    (l : list string) (ps : list A) :
  Forall2 (λ k a, stored k = Some a) l ps →
  forallb f ps = true ↔ ∀ k a, k ∈ l → stored k = Some a → f a = true.
Proof.
  induction 1 as [|k a l ps Hk _ IH]; simpl.
  - split; [|done]. intros _ k a Hk. by apply elem_of_nil in Hk.
  - rewrite andb_true_iff, IH. split.
    + intros [Ha Hl] k' a' Hk' Ha'.
      apply elem_of_cons in Hk' as [->|Hk']; [congruence | by eapply Hl].
    + intros H. split; [apply (H k); [by left|done]|].
      intros k' a' Hk' Ha'. apply (H k'); [by right|done].
Qed.

Lemma values_char (e : Engine) :
  roster_present e →
  ∃ ps, values e = (Returned ps, e) ∧
        Forall2 (λ n p, parts (world e) !! n = Some p) names ps.
Proof.
  intros Hin. unfold values.
  destruct (for_fold_collect (λ n, in_world (self_get n))
              (λ e n, parts (world e) !! n)
              (λ k s a, in_world_self_get_lookup k s a) names [] e Hin)
    as (ps & Hrun & Hps).
  by exists ps.
Qed.

(** [check_group_survival_bonus] on a full roster: with nobody eliminated it
    returns [True] and every participant has earned 300 tokens; otherwise it
    returns [False] and nothing has changed. *)
Lemma check_group_survival_bonus_char (e : Engine) :
  roster_present e →
  ((∀ n p, n ∈ names → parts (world e) !! n = Some p → eliminated p = false) →
   ∃ m',
     check_group_survival_bonus e
     = (Returned true, set_world (set_parts m' (world e)) e) ∧
     (∀ n, n ∈ names →
        m' !! n
        = (λ p, set_total_earned (total_earned p + 300)
                  (set_token_bank (token_bank p + 300) p))
          <$> parts (world e) !! n) ∧
     (∀ n, n ∉ names → m' !! n = parts (world e) !! n)) ∧
  (¬ (∀ n p, n ∈ names → parts (world e) !! n = Some p →
             eliminated p = false) →
   check_group_survival_bonus e = (Returned false, e)).
Proof.
  intros Hin. destruct (values_char e Hin) as (ps & Hv & Hps).
  pose proof (forallb_stored (λ p, negb (eliminated p))
                (λ n, parts (world e) !! n) names ps Hps) as Hall.
  unfold check_group_survival_bonus. py_unfold. rewrite Hv.
  split; intros Halive.
  - rewrite (proj2 Hall).
    2:{ intros n p Hn Hp. by rewrite (Halive n p Hn Hp). }
    destruct (for_each_update
                (λ _ p, set_total_earned (total_earned p + 300)
                          (set_token_bank (token_bank p + 300) p))
                (λ n, in_world (call n (earn_tokens 300)))
                ltac:(intros n e' p Hp; cbv beta;
                      by rewrite in_world_call_lookup with (p := p))
                names e NoDup_names Hin)
      as (m' & Hrun & Hl & Hout).
    exists m'. by rewrite Hrun.
  - destruct (forallb _ ps) eqn:Hf; [|done].
    exfalso. apply Halive. intros n p Hn Hp.
    apply negb_true_iff. by apply (proj1 Hall eq_refl n p).
Qed.
End V3Facts.

(** ** Version 5 *)
Module V5Facts.
Import V5.

Example new_engine_roster : new_engine roster [2%nat] = Returned season_start.
Proof. reflexivity. Qed.

(** C1, as stated, fails in version 5: [run_challenge_round] takes the
    tokens the provider reports off the balance without looking at the
    balance.  From the start of a season (10000 tokens each), one round in
    which Claude's answer is reported at 14000 tokens leaves Claude at -1000
    after the group bonus, and the engine then eliminates it. *)
Lemma v5_debit_goes_negative :
  (token_bank <$> ais season_start !! "Claude") = Some 10000 ∧
  (run_challenge_round costly_api (JudgeRanking claude_first) 1
     season_start).1 = Returned claude_first ∧
  (token_bank <$>
     ais (run_challenge_round costly_api (JudgeRanking claude_first) 1
            season_start).2 !! "Claude") = Some (-1000) ∧
  (alive <$>
     ais (run_challenge_round costly_api (JudgeRanking claude_first) 1
            season_start).2 !! "Claude") = Some false.
Proof. vm_compute. repeat split. Qed.

(** C7, as stated, fails in version 5: its settlement adds and subtracts 1
    without a bound and pays the best nothing.  After four settlements won
    by Claude and lost by DeepSeek, Claude is at level 4, DeepSeek at -4,
    and Claude's balance is that of everybody else. *)
Lemma v5_levels_not_clamped :
  (level <$> ais season_start !! "Claude") = Some 0 ∧
  (level <$> ais after_four_settlements !! "Claude") = Some 4 ∧
  (level <$> ais after_four_settlements !! "DeepSeek") = Some (-4) ∧
  (token_bank <$> ais after_four_settlements !! "Claude") = Some 22000 ∧
  (token_bank <$> ais after_four_settlements !! "ChatGPT") = Some 22000.
Proof. vm_compute. repeat split. Qed.

(** *** The group bonus *)

Lemma on_ai_lookup (k : string) (g : AI → AI) (e : Engine) (a : AI) :
  ais e !! k = Some a →
  on_ai k g e = (Returned tt, set_ais (<[k := g a]> (ais e)) e).
Proof. intros H. unfold on_ai. by rewrite H. Qed.

Lemma ai_get_lookup (k : string) (e : Engine) (a : AI) :
  ais e !! k = Some a → ai_get k e = (Returned a, e).
Proof. intros H. unfold ai_get. by rewrite H. Qed.

(** A loop over keys that assigns [g a] to each AI [a]. *)
Lemma for_each_on_ai (g : AI → AI) (l : list string) :
  ∀ e : Engine,
    NoDup l →
    (∀ k, k ∈ l → is_Some (ais e !! k)) →
    ∃ m',
      for_each l (λ k, on_ai k g) e = (Returned tt, set_ais m' e) ∧
      (∀ k, k ∈ l → m' !! k = g <$> ais e !! k) ∧
      (∀ k, k ∉ l → m' !! k = ais e !! k).
Proof.
  induction l as [|k l IH]; intros e Hnd Hin.
  - exists (ais e). simpl. split; [by destruct e|]. split; [|done].
    intros k Hk. by apply elem_of_nil in Hk.
  - inversion Hnd as [|? ? Hk Hnd']; subst.
    destruct (Hin k) as [a Ha]; [by left|].
    destruct (IH (set_ais (<[k := g a]> (ais e)) e) Hnd')
      as (m' & Hrun & Hl & Hout).
    { intros k' Hk'. simpl. destruct (decide (k' = k)) as [->|Hne]; [done|].
      rewrite lookup_insert_ne by done. apply Hin. by right. }
    exists m'. split; [|split].
    + simpl. V3Facts.py_unfold. rewrite (on_ai_lookup k g e a Ha).
      change (for_each l (λ k, on_ai k g) (set_ais (<[k := g a]> (ais e)) e)
              = (Returned (), set_ais m' e)).
      by rewrite Hrun.
    + intros k' Hk'. apply elem_of_cons in Hk' as [->|Hk'].
      * rewrite Hout by done. simpl. rewrite lookup_insert_eq. by rewrite Ha.
      * rewrite Hl by done. simpl. rewrite lookup_insert_ne; [done|].
        intros ->. done.
    + intros k' Hk'. apply not_elem_of_cons in Hk' as [Hne Hk'].
      rewrite Hout by done. simpl. by rewrite lookup_insert_ne.
Qed.

Lemma ais_values_char (e : Engine) :
  roster_present e →
  ∃ vs, values e = (Returned vs, e) ∧
        Forall2 (λ k a, ais e !! k = Some a) (keys e) vs.
Proof.
  intros Hin. unfold values. V3Facts.py_unfold. unfold get.
  destruct (V3Facts.for_fold_collect ai_get (λ e k, ais e !! k)
              ai_get_lookup (keys e) [] e Hin)
    as (vs & Hrun & Hvs).
  by exists vs.
Qed.

(** The group bonus of version 5 on a full roster: with everybody alive
    every AI receives 3000 tokens; otherwise nothing changes. *)
Lemma group_bonus_char (e : Engine) :
  roster_present e →
  NoDup (keys e) →
  ((∀ k a, k ∈ keys e → ais e !! k = Some a → alive a = true) →
   ∃ m',
     group_bonus e = (Returned tt, set_ais m' e) ∧
     (∀ k, k ∈ keys e →
        m' !! k
        = (λ a, set_token_bank (token_bank a + 3000) a) <$> ais e !! k) ∧
     (∀ k, k ∉ keys e → m' !! k = ais e !! k)) ∧
  (¬ (∀ k a, k ∈ keys e → ais e !! k = Some a → alive a = true) →
   group_bonus e = (Returned tt, e)).
Proof.
  intros Hin Hnd. destruct (ais_values_char e Hin) as (vs & Hv & Hvs).
  pose proof (V3Facts.forallb_stored alive (λ k, ais e !! k) (keys e) vs Hvs)
    as Hall.
  unfold group_bonus. V3Facts.py_unfold. rewrite Hv.
  split; intros Halive.
  - rewrite (proj2 Hall) by exact Halive. unfold get.
    destruct (for_each_on_ai (λ a, set_token_bank (token_bank a + 3000) a)
                (keys e) e Hnd Hin) as (m' & Hrun & Hl & Hout).
    exists m'. by rewrite Hrun.
  - destruct (forallb alive vs) eqn:Hf; [|done].
    exfalso. apply Halive. by apply (proj1 Hall).
Qed.
End V5Facts.

(** ** Both engines *)


Lemma all_alive_decided (e : V3.Engine) :
  V3.roster_present e →
  (∀ n p, n ∈ V3.names → V3.parts (V3.world e) !! n = Some p →
          V3.eliminated p = false) ∨
  ¬ (∀ n p, n ∈ V3.names → V3.parts (V3.world e) !! n = Some p →
            V3.eliminated p = false).
Proof.
  intros Hin. destruct (V3Facts.values_char e Hin) as (ps & _ & Hps).
  pose proof (V3Facts.forallb_stored (λ p, negb (V3.eliminated p))
                (λ n, V3.parts (V3.world e) !! n) V3.names ps Hps) as Hall.
  destruct (forallb (λ p, negb (V3.eliminated p)) ps) eqn:Hf.
  - left. intros n p Hn Hp. apply negb_true_iff.
    by apply (proj1 Hall eq_refl n p).
  - right. intros Ha.
    assert (false = true) by
      (apply Hall; intros n p Hn Hp; by rewrite (Ha n p Hn Hp)).
    discriminate.
Qed.


(** ** Scenarios *)
Module Scenarios.
Import V3.

(** Scenario A of the specification: four participants at level 0 with 1000
    tokens, one round, Grok judged best and ChatGPT worst.  Interest 50,
    best bonus 500, survival bonus 100, group bonus 300. *)
Example scenario_A :
  let e := (run_round (λ _, "a") (JudgeReturns (JStr "Grok") (JStr "ChatGPT"))
              new_engine).2 in
  ((λ p, (level p, token_bank p)) <$> parts (world e) !! "Grok")
    = Some (1, 1950) ∧
  ((λ p, (level p, token_bank p)) <$> parts (world e) !! "Claude")
    = Some (0, 1450) ∧
  ((λ p, (level p, token_bank p)) <$> parts (world e) !! "ChatGPT")
    = Some (-1, 1450).
Proof. vm_compute. repeat split. Qed.

(** A season in which the judge always fails: ChatGPT, last in the order of
    the responses, loses a level per round and is eliminated in round 6, at
    level -6.  Round 7 then stops at the status display, where
    [get_status_display] looks up [PERFORMANCE_LEVELS[-6]]. *)
Example season_stops_after_first_elimination :
  let r := run (λ _, ((λ _, "a"), JudgeRaises)) new_engine in
  r.1 = Raised KeyError ∧
  current_round r.2 = 7 ∧
  ((λ p, (level p, eliminated p, elimination_round p))
     <$> parts (world r.2) !! "ChatGPT") = Some (-6, true, Some 6).
Proof. vm_compute. repeat split. Qed.

(** [donate_to] with a negative amount takes tokens from the target, whose
    balance is not looked at. *)
Example donate_negative_amount :
  let r := donate_to "A" "B" (-1500) two_party_world in
  r.1 = Returned true ∧
  (token_bank <$> parts r.2 !! "A") = Some 2500 ∧
  (token_bank <$> parts r.2 !! "B") = Some (-500).
Proof. vm_compute. repeat split. Qed.

(** A participant lending to itself: the balance is where it was, and the
    loan is in both of its lists. *)
Example offer_loan_to_self :
  let r := offer_loan "A" "A" 500 PyFloat.lit_0_2 2 two_party_world in
  r.1 = Returned (Some 0%nat) ∧
  ((λ p, (token_bank p, loans_issued p, loans_owed p)) <$> parts r.2 !! "A")
    = Some (1000, [0%nat], [0%nat]).
Proof. vm_compute. repeat split. Qed.

(** The judge naming the same participant best and worst: the level goes up
    and down again, the bonus is paid. *)
Example settle_same_participant :
  let r := apply_performance_changes (JStr "Grok") (JStr "Grok") new_engine in
  r.1 = Returned tt ∧
  ((λ p, (level p, token_bank p)) <$> parts (world r.2) !! "Grok")
    = Some (0, 1500).
Proof. vm_compute. repeat split. Qed.

End Scenarios.

(** * Further properties *)

(** ** Version 3: the economy *)
Module V3More.
Import V3 V3Facts.

(** *** Donations *)

(** X1.  [donate_to]: when the donor's balance is below the amount the call
    returns [False] and nothing changes.  Otherwise it returns [True],
    whoever the target is, and nobody but the donor and the target changes.
    For a donor and a target that are two participants the amount leaves
    the donor's balance and enters its [total_spent] and [donations_given],
    and it enters the target's balance, [total_earned] and
    [donations_received].  A participant giving to itself keeps its balance,
    and the amount enters its four statistics. *)
Theorem donate_to_spec (w : World) (self target : string)
    (d t : Participant) (amount : Z) :
  parts w !! self = Some d →
  parts w !! target = Some t →
  (token_bank d < amount →
     donate_to self target amount w = (Returned false, w)) ∧
  (token_bank d >= amount →
     let w' := (donate_to self target amount w).2 in
     (donate_to self target amount w).1 = Returned true ∧
     loans w' = loans w ∧
     (∀ k, k ≠ self → k ≠ target → parts w' !! k = parts w !! k) ∧
     (self ≠ target →
        parts w' !! self
        = Some (set_donations_given (donations_given d + amount)
                  (set_total_spent (total_spent d + amount)
                     (set_token_bank (token_bank d - amount) d))) ∧
        parts w' !! target
        = Some (set_donations_received (donations_received t + amount)
                  (set_total_earned (total_earned t + amount)
                     (set_token_bank (token_bank t + amount) t)))) ∧
     (self = target →
        parts w' !! self
        = Some (set_donations_received (donations_received d + amount)
                  (set_donations_given (donations_given d + amount)
                     (set_total_earned (total_earned d + amount)
                        (set_total_spent (total_spent d + amount)
                           (set_token_bank
                              (token_bank d - amount + amount) d))))))).
Proof.
  intros Hd Ht. unfold donate_to. py_unfold.
  rewrite (call_lookup self _ _ d) by exact Hd.
  unfold spend_tokens.
  split; intros Hbal.
  - rewrite bool_decide_eq_false_2 by lia. simpl.
    rewrite insert_id by exact Hd. by destruct w.
  - rewrite bool_decide_eq_true_2 by lia. simpl.
    destruct (decide (self = target)) as [<-|Hne].
    + erewrite (call_lookup self) by (map_lookup; reflexivity). simpl.
      erewrite (call_lookup self) by (map_lookup; reflexivity). simpl.
      erewrite (call_lookup self) by (map_lookup; reflexivity). simpl.
      split; [reflexivity|]. split; [reflexivity|]. split; [|split].
      * intros k Hk1 Hk2. map_lookup. reflexivity.
      * intros Hne. done.
      * intros _. map_lookup. reflexivity.
    + erewrite (call_lookup target) by (map_lookup; exact Ht). simpl.
      erewrite (call_lookup self) by (map_lookup; reflexivity). simpl.
      erewrite (call_lookup target) by (map_lookup; reflexivity). simpl.
      split; [reflexivity|]. split; [reflexivity|]. split; [|split].
      * intros k Hk1 Hk2. map_lookup. reflexivity.
      * intros _. split; map_lookup; reflexivity.
      * intros Heq. done.
Qed.

(** ["A"] gives ["B"] 300 of its 1000 tokens. *)
Lemma donate_to_spec_witness :
  (donate_to "A" "B" 300 two_party_world).1 = Returned true ∧
  (token_bank <$> parts (donate_to "A" "B" 300 two_party_world).2 !! "A")
    = Some 700 ∧
  (token_bank <$> parts (donate_to "A" "B" 300 two_party_world).2 !! "B")
    = Some 1300.
Proof.
  destruct (donate_to_spec two_party_world "A" "B" (new_participant "A")
              (new_participant "B") 300 eq_refl eq_refl) as [_ H].
  destruct H as (H1 & _ & _ & H3 & _); [simpl; lia |].
  destruct H3 as [H3 H4]; [done|].
  split; [exact H1|]. split; [rewrite H3 | rewrite H4]; reflexivity.
Defined.

(** *** Conservation *)

Lemma map_tokens_insert (m : gmap string Participant) (k : string)
    (p p' : Participant) :
  m !! k = Some p →
  map_fold (λ _ q acc, token_bank q + acc) 0 (<[k := p']> m)
  = map_fold (λ _ q acc, token_bank q + acc) 0 m
    - token_bank p + token_bank p'.
Proof.
  intros Hk.
  rewrite (map_fold_delete_L _ _ k p m); [|intros; lia|exact Hk].
  rewrite <- (insert_delete_eq m).
  rewrite map_fold_insert_L; [lia|intros; lia|apply lookup_delete_eq].
Qed.

(** The balance under a key after updates at known keys. *)
Ltac tokens_step :=
  erewrite map_tokens_insert by (map_lookup; first [eassumption|reflexivity]);
  simpl.

(** X2.  Transfers neither create nor destroy tokens: after [donate_to] and
    after [offer_loan], successful or not, between any two participants of
    the store (also one and the same), the tokens held by all participants
    together are what they were. *)
Theorem transfers_conserve_tokens (w : World) (a b : string)
    (pa pb : Participant) :
  parts w !! a = Some pa →
  parts w !! b = Some pb →
  (∀ amount, total_tokens (donate_to a b amount w).2 = total_tokens w) ∧
  (∀ amount rate dur,
     total_tokens (offer_loan a b amount rate dur w).2 = total_tokens w).
Proof.
  intros Ha Hb. split.
  - intros amount. unfold donate_to. py_unfold.
    rewrite (call_lookup a _ w pa Ha). unfold spend_tokens.
    case_bool_decide; simpl.
    2:{ rewrite insert_id by exact Ha. by destruct w. }
    destruct (decide (a = b)) as [<-|Hne].
    + assert (pb = pa) as -> by congruence. clear Hb.
      erewrite (call_lookup a) by (map_lookup; reflexivity). simpl.
      erewrite (call_lookup a) by (map_lookup; reflexivity). simpl.
      erewrite (call_lookup a) by (map_lookup; reflexivity). simpl.
      unfold total_tokens. simpl. repeat tokens_step. lia.
    + erewrite (call_lookup b) by (map_lookup; exact Hb). simpl.
      erewrite (call_lookup a) by (map_lookup; reflexivity). simpl.
      erewrite (call_lookup b) by (map_lookup; reflexivity). simpl.
      unfold total_tokens. simpl. repeat tokens_step. lia.
  - intros amount rate dur. unfold offer_loan. py_unfold.
    rewrite (self_get_lookup a w pa Ha).
    case_bool_decide; [|done].
    rewrite (self_get_lookup b w pb Hb). unfold loan_alloc.
    rewrite (call_lookup a _ _ pa) by exact Ha. simpl.
    destruct (decide (a = b)) as [<-|Hne].
    + assert (pb = pa) as -> by congruence. clear Hb.
      erewrite (call_lookup a) by (map_lookup; reflexivity). simpl.
      erewrite (call_lookup a) by (map_lookup; reflexivity). simpl.
      erewrite (call_lookup a) by (map_lookup; reflexivity). simpl.
      unfold total_tokens. simpl. repeat tokens_step. lia.
    + erewrite (call_lookup b) by (map_lookup; exact Hb). simpl.
      erewrite (call_lookup a) by (map_lookup; reflexivity). simpl.
      erewrite (call_lookup b) by (map_lookup; reflexivity). simpl.
      unfold total_tokens. simpl. repeat tokens_step. lia.
Qed.

(** A gift and a loan between ["A"] and ["B"]: 2000 tokens before and
    after. *)
Lemma transfers_conserve_tokens_witness :
  total_tokens (donate_to "A" "B" 300 two_party_world).2 = 2000 ∧
  total_tokens (offer_loan "A" "B" 500 PyFloat.lit_0_2 2 two_party_world).2
  = 2000.
Proof.
  destruct (transfers_conserve_tokens two_party_world "A" "B"
              (new_participant "A") (new_participant "B") eq_refl eq_refl)
    as [Hd Hl].
  rewrite Hd, Hl. split; reflexivity.
Defined.

(** *** Interest *)

Lemma shr_1_nonneg (mrs : shr_record) :
  0 ≤ shr_m mrs → 0 ≤ shr_m (shr_1 mrs).
Proof.
  destruct mrs as [m r s]. simpl.
  destruct m as [|[p|p|]|[p|p|]]; simpl; lia.
Qed.

Lemma iter_shr_1_nonneg (p : positive) :
  ∀ mrs, 0 ≤ shr_m mrs → 0 ≤ shr_m (SpecFloat.iter_pos shr_1 p mrs).
Proof.
  induction p as [p IH|p IH|]; intros mrs H; simpl.
  - apply IH, IH, shr_1_nonneg, H.
  - apply IH, IH, H.
  - apply shr_1_nonneg, H.
Qed.

Lemma shr_fexp_nonneg (m e : Z) (l : location) :
  0 ≤ m → 0 ≤ shr_m (shr_fexp PyFloat.prec PyFloat.emax m e l).1.
Proof.
  intros Hm. unfold shr_fexp, shr.
  assert (H0 : 0 ≤ shr_m (shr_record_of_loc m l)).
  { destruct l as [|[]]; exact Hm. }
  destruct (fexp _ _ _ - e); simpl; [exact H0| |exact H0].
  by apply iter_shr_1_nonneg.
Qed.

(** Rounding a non-negative mantissa never gives NaN. *)
Lemma binary_round_aux_not_nan (s : bool) (m e : Z) (l : location) :
  0 ≤ m → binary_round_aux PyFloat.prec PyFloat.emax s m e l ≠ S754_nan.
Proof.
  intros Hm. unfold binary_round_aux.
  pose proof (shr_fexp_nonneg m e l Hm) as H1.
  destruct (shr_fexp PyFloat.prec PyFloat.emax m e l) as [mrs' e'].
  simpl in H1.
  assert (H2 : 0 ≤ round_nearest_even (shr_m mrs') (loc_of_shr_record mrs')).
  { unfold round_nearest_even.
    destruct (loc_of_shr_record mrs') as [|[]]; try lia.
    destruct (Z.even (shr_m mrs')); lia. }
  pose proof (shr_fexp_nonneg _ e' loc_Exact H2) as H3.
  destruct (shr_fexp PyFloat.prec PyFloat.emax _ e' loc_Exact) as [mrs'' e''].
  simpl in H3.
  destruct (shr_m mrs''); [done | | lia].
  by destruct (e'' <=? PyFloat.emax - PyFloat.prec).
Qed.

(** The conversion of an integer gives a number, never NaN. *)
Lemma of_int_not_nan (n : Z) : PyFloat.of_int n ≠ Returned S754_nan.
Proof.
  unfold PyFloat.of_int, binary_normalize.
  destruct n as [|m|m]; [done| |].
  - unfold binary_round. destruct (shl_align m 0 _) as [mz ez].
    pose proof (binary_round_aux_not_nan false (Z.pos mz) ez loc_Exact
                  ltac:(lia)) as H.
    destruct (binary_round_aux _ _ _ _ _ _); congruence.
  - unfold binary_round. destruct (shl_align m 0 _) as [mz ez].
    pose proof (binary_round_aux_not_nan true (Z.pos mz) ez loc_Exact
                  ltac:(lia)) as H.
    destruct (binary_round_aux _ _ _ _ _ _); congruence.
Qed.

(** [int(n * x)] for a finite [x]: a value or [OverflowError]. *)
Lemma int_mul_float_finite (n : Z) (s : bool) (m : positive) (e : Z) :
  (∃ r, PyFloat.int_mul_float n (S754_finite s m e) = Returned r) ∨
  PyFloat.int_mul_float n (S754_finite s m e) = Raised OverflowError.
Proof.
  unfold PyFloat.int_mul_float.
  pose proof (of_int_not_nan n) as Hnan.
  unfold PyFloat.of_int in *.
  destruct (binary_normalize PyFloat.prec PyFloat.emax n 0 false)
    as [s'|s'| |s' m' e']; [ | by right | done | ].
  { left. by eexists. }
  unfold PyFloat.mul, SFmul.
  pose proof (binary_round_aux_not_nan (xorb s' s) (Z.pos (m' * m)) (e' + e)
                loc_Exact ltac:(lia)) as H.
  destruct (binary_round_aux _ _ _ _ _ _); simpl;
    [left; by eexists | by right | done | left; by eexists].
Qed.

(** X3.  [apply_interest]: with a balance of zero or less it returns 0 and
    changes nothing.  With a positive balance it either returns an interest
    that is not negative, added to the balance and to
    [total_interest_earned] and to nothing else, or raises [OverflowError]
    (the balance does not fit a float) and changes nothing. *)
Theorem apply_interest_outcomes (p : Participant) :
  (token_bank p ≤ 0 → apply_interest p = (Returned 0, p)) ∧
  (0 < token_bank p →
     (∃ interest,
        0 ≤ interest ∧
        apply_interest p
        = (Returned interest,
           set_total_interest_earned (total_interest_earned p + interest)
             (set_token_bank (token_bank p + interest) p))) ∨
     apply_interest p = (Raised OverflowError, p)).
Proof.
  unfold apply_interest. split; intros H.
  - by rewrite bool_decide_eq_false_2 by lia.
  - rewrite bool_decide_eq_true_2 by lia.
    destruct (int_mul_float_finite (token_bank p) false 7205759403792794 (-57))
      as [[r Hr]|Hr]; fold PyFloat.lit_0_05 in Hr; rewrite Hr.
    + left. exists r. split; [|done].
      eapply int_mul_float_nonneg; [| |exact Hr]; [lia|done].
    + by right.
Qed.

(** Interest on the first three balances of a season: 50, 52, 55. *)
Example apply_interest_compounds :
  (apply_interest (new_participant "A")).1 = Returned 50 ∧
  (apply_interest (set_token_bank 1050 (new_participant "A"))).1 = Returned 52 ∧
  (apply_interest (set_token_bank 1102 (new_participant "A"))).1 = Returned 55.
Proof. vm_compute. repeat split. Qed.

(** *** The schedule of a loan *)

Lemma computable_payable (w : World) (owed : list nat) :
  computable w owed → payable w owed.
Proof.
  intros H i Hi. destruct (H i Hi) as (l & Hl & Hp). exists l. auto.
Qed.

Lemma filter_elem_of (P : nat → bool) (l : list nat) (x : nat) :
  x ∈ List.filter P l ↔ x ∈ l ∧ P x = true.
Proof. by rewrite !list_elem_of_In, List.filter_In. Qed.

Lemma NoDup_list_filter (P : nat → bool) (l : list nat) :
  NoDup l → NoDup (List.filter P l).
Proof.
  induction 1 as [|x l Hx Hnd IH]; simpl; [constructor|].
  destruct (P x); [|exact IH].
  constructor; [|exact IH]. rewrite filter_elem_of. tauto.
Qed.

(** [n] rounds of loan processing, loan by loan: a loan of the list with
    [r] rounds remaining is still owed, with [r - n] rounds remaining, as
    long as [r <= 0] or [n < r]; from the round [n = r >= 1] on it is gone
    from the list and stays at zero. *)
Lemma process_times_char (self : string) (n : nat) :
  ∀ (w : World) (me : Participant),
    parts w !! self = Some me →
    NoDup (loans_owed me) →
    computable w (loans_owed me) →
    ∃ w' me',
      process_times n self w = (Returned tt, w') ∧
      parts w' !! self = Some me' ∧
      (∀ i, i ∉ loans_owed me → loans w' !! i = loans w !! i) ∧
      (∀ i, i ∈ loans_owed me' → i ∈ loans_owed me) ∧
      (∀ i l, i ∈ loans_owed me → loans w !! i = Some l →
         (rounds_remaining l ≤ 0 ∨ Z.of_nat n < rounds_remaining l →
            i ∈ loans_owed me' ∧
            loans w' !! i
            = Some (set_rounds_remaining (rounds_remaining l - Z.of_nat n) l)) ∧
         (1 ≤ rounds_remaining l ≤ Z.of_nat n →
            (i ∉ loans_owed me') ∧
            loans w' !! i = Some (set_rounds_remaining 0 l))).
Proof.
  induction n as [|n IH]; intros w me Hme Hnd Hc.
  - exists w, me. simpl.
    split; [done|]. split; [done|]. split; [done|]. split; [done|].
    intros i l Hi Hl. split; [|lia]. intros _. split; [done|].
    rewrite Hl. destruct l. unfold set_rounds_remaining. simpl.
    do 2 f_equal. lia.
  - destruct (process_loan_payments_char self w me Hme Hnd
                (computable_payable _ _ Hc))
      as (results & w1 & Hrun & Hparts & _ & Hin & Hout & _).
    set (me1 := set_loans_owed
                  (List.filter (λ i, negb (matures w i)) (loans_owed me))
                  (set_token_bank (token_bank me - repaid_total results) me))
      in *.
    assert (Howed1 : loans_owed me1
                     = List.filter (λ i, negb (matures w i)) (loans_owed me))
      by reflexivity.
    assert (Hme1 : parts w1 !! self = Some me1).
    { rewrite Hparts. apply lookup_insert_eq. }
    assert (Hnd1 : NoDup (loans_owed me1))
      by (rewrite Howed1; by apply NoDup_list_filter).
    assert (Hc1 : computable w1 (loans_owed me1)).
    { intros i Hi. rewrite Howed1 in Hi. apply filter_elem_of in Hi as [Hi _].
      destruct (Hc i Hi) as (l & Hl & Hp).
      exists (tick l). rewrite (Hin i Hi), Hl. split; [done|].
      unfold tick. by rewrite calculate_payment_tick. }
    destruct (IH w1 me1 Hme1 Hnd1 Hc1)
      as (w' & me' & Hrun' & Hme' & Hout' & Hsub & Hsched).
    exists w', me'. split; [|split; [exact Hme'|split; [|split]]].
    + simpl. py_unfold. rewrite Hrun. exact Hrun'.
    + intros i Hi. rewrite Hout'; [by apply Hout|].
      intros Hi1. rewrite Howed1 in Hi1.
      apply filter_elem_of in Hi1 as [? _]. done.
    + intros i Hi. apply Hsub in Hi. rewrite Howed1 in Hi.
      by apply filter_elem_of in Hi as [? _].
    + intros i l Hi Hl.
      assert (Hl1 : loans w1 !! i = Some (tick l)) by (by rewrite (Hin i Hi), Hl).
      destruct (decide (rounds_remaining l = 1)) as [Hr|Hr].
      * (* the loan comes due in this round *)
        assert (Hgone : i ∉ loans_owed me1).
        { rewrite Howed1, filter_elem_of. unfold matures. rewrite Hl.
          rewrite bool_decide_eq_true_2 by done. simpl. intros [_ ?]. done. }
        split; [lia|]. intros _. split.
        -- intros Hi'. by apply Hsub in Hi'.
        -- rewrite (Hout' i Hgone), Hl1. unfold tick. do 2 f_equal. lia.
      * assert (Hstay : i ∈ loans_owed me1).
        { rewrite Howed1, filter_elem_of. split; [done|].
          unfold matures. rewrite Hl. by rewrite bool_decide_eq_false_2. }
        destruct (Hsched i (tick l) Hstay Hl1) as [Hbefore Hafter].
        unfold tick in *. simpl in *. split.
        -- intros Hcase. destruct Hbefore as [Hk Hv]; [lia|].
           split; [exact Hk|]. rewrite Hv.
           unfold set_rounds_remaining. simpl. do 2 f_equal. lia.
        -- intros Hcase. destruct Hafter as [Hk Hv]; [lia|].
           split; [exact Hk|]. rewrite Hv. reflexivity.
Qed.

(** X4.  A loan comes due on schedule.  For a borrower whose [loans_owed]
    holds every loan once and whose payments can be computed, [n] rounds of
    [process_loan_payments] all return; a loan of the list with [r] rounds
    remaining is still owed after them, with [r - n] rounds remaining, if
    [n < r]; it has left the list, at zero rounds remaining, if
    [1 <= r <= n]; and a loan with [r <= 0] never comes due: it stays owed
    and keeps counting down. *)
Theorem loan_comes_due_on_schedule (self : string) (w : World)
    (me : Participant) (i : nat) (l : TokenLoan) (n : nat) :
  parts w !! self = Some me →
  NoDup (loans_owed me) →
  computable w (loans_owed me) →
  i ∈ loans_owed me →
  loans w !! i = Some l →
  ∃ w' me',
    process_times n self w = (Returned tt, w') ∧
    parts w' !! self = Some me' ∧
    (rounds_remaining l ≤ 0 ∨ Z.of_nat n < rounds_remaining l →
       i ∈ loans_owed me' ∧
       (rounds_remaining <$> loans w' !! i)
       = Some (rounds_remaining l - Z.of_nat n)) ∧
    (1 ≤ rounds_remaining l ≤ Z.of_nat n →
       (i ∉ loans_owed me') ∧ (rounds_remaining <$> loans w' !! i) = Some 0).
Proof.
  intros Hme Hnd Hc Hi Hl.
  destruct (process_times_char self n w me Hme Hnd Hc)
    as (w' & me' & Hrun & Hme' & _ & _ & Hsched).
  destruct (Hsched i l Hi Hl) as [Hbefore Hafter].
  exists w', me'. split; [exact Hrun|]. split; [exact Hme'|]. split.
  - intros Hcase. destruct (Hbefore Hcase) as [Hk ->]. by split.
  - intros Hcase. destruct (Hafter Hcase) as [Hk ->]. by split.
Qed.

Lemma scenario_C_computable :
  computable scenario_C_start [0%nat].
Proof.
  intros i Hi. apply list_elem_of_singleton in Hi. subst i.
  eexists. split; [reflexivity|]. eexists. vm_compute. reflexivity.
Qed.

(** The loan of scenario C, made for two rounds: owed after one round, gone
    after two. *)
Lemma loan_comes_due_on_schedule_witness :
  (∃ w' me',
     process_times 1 "B" scenario_C_start = (Returned tt, w') ∧
     parts w' !! "B" = Some me' ∧ 0%nat ∈ loans_owed me') ∧
  (∃ w' me',
     process_times 2 "B" scenario_C_start = (Returned tt, w') ∧
     parts w' !! "B" = Some me' ∧ 0%nat ∉ loans_owed me').
Proof.
  split.
  - destruct (loan_comes_due_on_schedule "B" scenario_C_start
                (set_loans_owed [0%nat]
                   (set_token_bank 1500 (new_participant "B")))
                0%nat (new_loan "A" "B" 500 PyFloat.lit_0_2 2) 1
                eq_refl ltac:(apply NoDup_singleton) scenario_C_computable
                ltac:(apply list_elem_of_singleton; reflexivity) eq_refl)
      as (w' & me' & Hrun & Hme' & Hbefore & _).
    exists w', me'. split; [exact Hrun|]. split; [exact Hme'|].
    apply Hbefore. right. simpl. lia.
  - destruct (loan_comes_due_on_schedule "B" scenario_C_start
                (set_loans_owed [0%nat]
                   (set_token_bank 1500 (new_participant "B")))
                0%nat (new_loan "A" "B" 500 PyFloat.lit_0_2 2) 2
                eq_refl ltac:(apply NoDup_singleton) scenario_C_computable
                ltac:(apply list_elem_of_singleton; reflexivity) eq_refl)
      as (w' & me' & Hrun & Hme' & _ & Hafter).
    exists w', me'. split; [exact Hrun|]. split; [exact Hme'|].
    apply Hafter. simpl. lia.
Defined.

(** *** The rotation of the challenges *)

Lemma get_challenge_step (e : Engine) :
  0 ≤ challenge_round e ≤ n_challenges →
  get_challenge e
  = (Returned (challenge_round e mod n_challenges),
     set_challenge_round (challenge_round e mod n_challenges + 1) e).
Proof.
  unfold n_challenges. intros H. unfold get_challenge. py_unfold.
  unfold get, n_challenges. simpl.
  destruct (decide (challenge_round e = 20)) as [H20|H20].
  - rewrite H20. reflexivity.
  - repeat case_bool_decide; try lia.
    rewrite Z.mod_small by lia. reflexivity.
Qed.

(** X5.  The challenges rotate.  From a position between 0 and 20, [n]
    calls of [get_challenge] hand out the indices [c mod 20],
    [(c + 1) mod 20], ... in this order and touch nothing but the position,
    which stays between 0 and 20. *)
Theorem challenges_rotate (n : nat) :
  ∀ e : Engine,
    0 ≤ challenge_round e ≤ n_challenges →
    ∃ e',
      draw_challenges n e
      = (Returned ((λ k, (challenge_round e + Z.of_nat k) mod n_challenges)
                   <$> seq 0 n), e') ∧
      world e' = world e ∧
      current_round e' = current_round e ∧
      max_rounds e' = max_rounds e ∧
      0 ≤ challenge_round e' ≤ n_challenges.
Proof.
  induction n as [|n IH]; intros e H.
  - exists e. simpl. destruct H. by repeat split.
  - pose proof (Z.mod_pos_bound (challenge_round e) n_challenges
                  ltac:(unfold n_challenges; lia)) as Hm.
    destruct (IH (set_challenge_round
                    (challenge_round e mod n_challenges + 1) e))
      as (e' & Hrun & Hw & Hc & Hmx & Hb); [simpl; lia|].
    simpl in Hw, Hc, Hmx. destruct Hb as [Hb1 Hb2].
    exists e'. split; [|by repeat split].
    simpl. py_unfold. rewrite (get_challenge_step e H).
    rewrite Hrun. simpl.
    replace (challenge_round e + Z.of_nat 0) with (challenge_round e) by lia.
    do 3 f_equal.
    change (list_fmap nat Z ?f ?l) with (f <$> l).
    rewrite <- fmap_S_seq, <- list_fmap_compose.
    apply list_fmap_ext. intros _ k _. simpl.
    unfold n_challenges.
    rewrite <- Z.add_assoc, Z.add_mod_idemp_l by lia. f_equal. lia.
Qed.

(** A season of 45 rounds from the start: the 21st and the 41st challenge
    are the first again. *)
Lemma challenges_rotate_witness :
  ∃ e',
    draw_challenges 45 new_engine
    = (Returned ((λ k, Z.of_nat k mod 20) <$> seq 0 45), e').
Proof.
  destruct (challenges_rotate 45 new_engine ltac:(by vm_compute))
    as (e' & Hrun & _).
  exists e'. exact Hrun.
Defined.

(** *** A level outside the table stops the round *)

Lemma for_each_state {S A} (l : list A) (body : A → Py S unit) (s : S) :
  (∀ x, (body x s).2 = s) → (for_each l body s).2 = s.
Proof.
  intros Hb. induction l as [|x l' IH]; simpl; [done|].
  py_unfold. specialize (Hb x).
  destruct (body x s) as [[[]|err] s']; simpl in *; subst; done.
Qed.

(** A loop whose turns leave the state alone and raise nothing but
    exceptions in [P], one turn at least raising: the loop raises an
    exception in [P]. *)
Lemma for_each_raises {S A} (P : exn → Prop) (l : list A)
    (body : A → Py S unit) (s : S) :
  (∀ x, x ∈ l → (body x s).2 = s) →
  (∀ x err, x ∈ l → (body x s).1 = Raised err → P err) →
  (∃ x err, x ∈ l ∧ (body x s).1 = Raised err) →
  ∃ err, P err ∧ for_each l body s = (Raised err, s).
Proof.
  induction l as [|x l' IH]; intros Hst HP (y & err & Hy & Hraise).
  - by apply elem_of_nil in Hy.
  - simpl. py_unfold.
    pose proof (Hst x ltac:(by left)) as Hx.
    pose proof (HP x) as HPx.
    destruct (body x s) as [[[]|err'] s'] eqn:Hbx; simpl in *; subst s'.
    + apply IH.
      * intros z Hz. apply Hst. by right.
      * intros z e Hz. apply HP. by right.
      * apply elem_of_cons in Hy as [->|Hy].
        -- rewrite Hbx in Hraise. discriminate.
        -- by exists y, err.
    + exists err'. split; [|done]. apply (HPx err'); [by left|done].
Qed.

Lemma bind_modify {S B} (f : S → S) (k : Py S B) (s : S) :
  (modify f;; k) s = k (f s).
Proof. reflexivity. Qed.

Lemma bind_returned {S A B} (m : Py S A) (k : A → Py S B) (s s' : S) a :
  m s = (Returned a, s') → (x ← m; k x) s = k a s'.
Proof. intros H. py_unfold. by rewrite H. Qed.

Lemma bind_raised {S A B} (m : Py S A) (k : A → Py S B) (s s' : S) err :
  m s = (Raised err, s') → (x ← m; k x) s = (Raised err, s').
Proof. intros H. py_unfold. by rewrite H. Qed.

(** [get_status_display] never changes the store. *)
Lemma get_status_display_state (self : string) (w : World) :
  (get_status_display self w).2 = w.
Proof.
  unfold get_status_display. py_unfold.
  unfold call at 1. destruct (parts w !! self) as [p|] eqn:Hp; [|done].
  unfold get_config.
  assert (Hsame : set_parts (<[self := p]> (parts w)) w = w).
  { rewrite insert_id by exact Hp. by destruct w. }
  destruct (PERFORMANCE_LEVELS (level p)) as [c|]; rewrite Hsame; [|done].
  rewrite (self_get_lookup self w p Hp).
  apply for_each_state. intros i. py_unfold. unfold loan_get.
  destruct (loans w !! i) as [ln|]; [|done]. simpl.
  unfold lift_outcome. by destruct (calculate_payment ln).
Qed.

Lemma get_status_display_raises (self : string) (w : World)
    (p : Participant) :
  parts w !! self = Some p →
  PERFORMANCE_LEVELS (level p) = None →
  (get_status_display self w).1 = Raised KeyError.
Proof.
  intros Hp Hl. unfold get_status_display. py_unfold.
  rewrite (call_lookup self _ w p Hp). unfold get_config. by rewrite Hl.
Qed.

(** With nothing owed, the display returns or raises [KeyError]. *)
Lemma get_status_display_error (self : string) (w : World) (p : Participant)
    (err : exn) :
  parts w !! self = Some p →
  loans_owed p = [] →
  (get_status_display self w).1 = Raised err → err = KeyError.
Proof.
  intros Hp Ho. unfold get_status_display. py_unfold.
  rewrite (call_lookup self _ w p Hp). unfold get_config.
  destruct (PERFORMANCE_LEVELS (level p)); simpl; [|congruence].
  erewrite self_get_lookup by (map_lookup; reflexivity).
  rewrite Ho. simpl. discriminate.
Qed.

(** X6.  A level outside the table stops the round.  When a participant of
    the roster has a level that is not a key of [PERFORMANCE_LEVELS] (an
    eliminated participant, at -6, is one), [run_round] raises at the status
    display: the round counter is one higher and nothing else has changed.
    With a full roster that owes no loans the exception is [KeyError]. *)
Theorem round_stops_at_unlisted_level (responder : string → string)
    (reply : judge_reply) (e : Engine) (n : string) (p : Participant) :
  n ∈ names →
  parts (world e) !! n = Some p →
  PERFORMANCE_LEVELS (level p) = None →
  ∃ err,
    run_round responder reply e
    = (Raised err, set_current_round (current_round e + 1) e) ∧
    (roster_present e →
     (∀ m q, m ∈ names → parts (world e) !! m = Some q → loans_owed q = []) →
     err = KeyError).
Proof.
  intros Hn Hp Hl.
  set (e1 := set_current_round (current_round e + 1) e).
  destruct (for_each_raises
              (λ err, roster_present e →
                      (∀ m q, m ∈ names → parts (world e) !! m = Some q →
                              loans_owed q = []) →
                      err = KeyError)
              names (λ n, in_world (get_status_display n)) e1)
    as (err & Herr & Hrun).
  - intros m _. unfold in_world, zoom.
    pose proof (get_status_display_state m (world e1)) as Hs.
    destruct (get_status_display m (world e1)) as [o w']. simpl in *.
    subst w'. by destruct e.
  - intros m err Hm Hraise Hpresent Hnone.
    destruct (Hpresent m Hm) as [q Hq].
    unfold in_world, zoom in Hraise.
    pose proof (get_status_display_error m (world e1) q err Hq
                  (Hnone m q Hm Hq)) as Hk.
    destruct (get_status_display m (world e1)) as [o w']. simpl in *.
    by apply Hk.
  - exists n, KeyError. split; [exact Hn|].
    unfold in_world, zoom.
    pose proof (get_status_display_raises n (world e1) p Hp Hl) as Hr.
    destruct (get_status_display n (world e1)) as [o w']. simpl in *.
    exact Hr.
  - exists err. split; [|exact Herr].
    unfold run_round. rewrite bind_modify. fold e1.
    by apply bind_raised.
Qed.

(** The season of [failing_judge_season]: ChatGPT is out, at level -6, and
    whatever the collaborators answer the next round raises. *)
Lemma round_stops_at_unlisted_level_witness :
  ∃ err,
    run_round (λ _, "a") (JudgeReturns (JStr "Grok") (JStr "Claude"))
      failing_judge_season
    = (Raised err,
       set_current_round (current_round failing_judge_season + 1)
         failing_judge_season).
Proof.
  assert (Hout : parts (world failing_judge_season) !! "ChatGPT"
                 = Some (set_eliminated 6
                           (set_total_interest_earned 658
                              (set_total_earned 3400
                                 (set_token_bank 4058
                                    (set_level (-6)
                                       (new_participant "ChatGPT")))))))
    by (by vm_compute).
  assert (Hin : "ChatGPT" ∈ names) by (by apply (bool_decide_unpack _)).
  destruct (round_stops_at_unlisted_level (λ _, "a")
              (JudgeReturns (JStr "Grok") (JStr "Claude"))
              failing_judge_season "ChatGPT" _ Hin Hout eq_refl)
    as (err & Hrun & _).
  exists err. exact Hrun.
Defined.

(** *** What a round never writes *)

Lemma record_at_keep (k0 : string) c (k : string) (p p' : Participant) :
  cooperation_record p' = cooperation_record p →
  record_at k0 c k (Some p) → record_at k0 c k (Some p').
Proof.
  intros Hc Hp Hk. destruct (Hp Hk) as (q & [= <-] & Hq).
  exists p'. split; [reflexivity|]. congruence.
Qed.

Lemma stable_record (k0 : string) c : stable (record_at k0 c).
Proof.
  split; intros; by eapply record_at_keep; [|eassumption].
Qed.

(** X7.  The engine of version 3 never spends, gives or lends: over a round
    and over a season, completed or not, every participant keeps its name,
    its [loans_issued], its [total_spent], its [donations_given] and its
    [donations_received]. *)
Theorem rounds_never_spend (e : Engine) (k : string) (p : Participant) :
  parts (world e) !! k = Some p →
  (∀ responder reply,
     ∃ p', parts (world (run_round responder reply e).2) !! k = Some p' ∧
           cooperation_record p' = cooperation_record p) ∧
  (∀ collaborators,
     ∃ p', parts (world (run collaborators e).2) !! k = Some p' ∧
           cooperation_record p' = cooperation_record p).
Proof.
  intros Hp. split.
  - intros responder reply.
    pose proof (run_round_preserves (record_at k (cooperation_record p))
                  (stable_record _ _) responder reply e) as H.
    apply (H ltac:(intros k' ->; eauto) k eq_refl).
  - intros collaborators.
    pose proof (run_preserves (record_at k (cooperation_record p))
                  (stable_record _ _) collaborators e) as H.
    apply (H ltac:(intros k' ->; eauto) k eq_refl).
Qed.

(** Over the whole of [failing_judge_season] Grok has spent nothing. *)
Lemma rounds_never_spend_witness :
  ∃ p', parts (world failing_judge_season) !! "Grok" = Some p' ∧
        total_spent p' = 0 ∧ loans_issued p' = [].
Proof.
  unfold failing_judge_season.
  destruct (rounds_never_spend new_engine "Grok" (new_participant "Grok")
              eq_refl) as [_ H].
  destruct (H (λ _, ((λ _, "a"), JudgeRaises))) as (p' & Hp' & Hrec).
  exists p'. split; [exact Hp'|]. clear Hp' H.
  unfold cooperation_record in Hrec. injection Hrec as _ Hi Hs _ _.
  rewrite Hi, Hs. split; reflexivity.
Defined.
End V3More.

(** ** Version 5: rankings, negotiation, the season *)
Module V5More.
Import V5 V5Facts.

(** *** The fallback ranking *)

Lemma insert_cons_Permutation (x : list string) (j : nat) (a b : string) :
  x !! j = Some b → b :: <[j := a]> x ≡ₚ a :: x.
Proof.
  revert j. induction x as [|c x IH]; intros [|j] H; simplify_eq/=.
  - apply Permutation_swap.
  - rewrite (Permutation_swap c b), (Permutation_swap c a).
    f_equiv. by apply IH.
Qed.

Lemma swap_Permutation (i j : nat) (x : list string) : swap i j x ≡ₚ x.
Proof.
  unfold swap.
  destruct (x !! i) as [a|] eqn:Hi; [|done].
  destruct (x !! j) as [b|] eqn:Hj; [|done].
  revert i j Hi Hj.
  induction x as [|c x IH]; intros [|i] [|j] Hi Hj; simplify_eq/=.
  - done.
  - by apply insert_cons_Permutation.
  - by apply insert_cons_Permutation.
  - f_equiv. by apply IH.
Qed.

Lemma set_rng_set_rng (r r' : list nat) (e : Engine) :
  set_rng r (set_rng r' e) = set_rng r e.
Proof. reflexivity. Qed.

Lemma shuffle_from_Permutation (i : nat) :
  ∀ (x : list string) (e : Engine),
    ∃ x' r, shuffle_from i x e = (Returned x', set_rng r e) ∧ x' ≡ₚ x.
Proof.
  induction i as [|i IH]; intros x e.
  - exists x, (rng e). split; [by destruct e|done].
  - change (shuffle_from (S i) x)
      with (j ← randbelow (S i + 1); shuffle_from i (swap (S i) j x)).
    V3Facts.py_unfold. unfold randbelow.
    destruct (draw (S i + 1) (rng e)) as [j r].
    destruct (IH (swap (S i) j x) (set_rng r e)) as (x' & r' & Hrun & Hperm).
    exists x', r'. split; [|by rewrite Hperm, swap_Permutation].
    change (shuffle_from i (swap (S i) j x) (set_rng r e)
            = (Returned x', set_rng r' e)).
    by rewrite Hrun.
Qed.

(** X8.  When the judge of version 5 fails and some AI of the roster is
    alive, the ranking is a permutation of the names that responded: every
    responder is ranked exactly once, and only the random state changes. *)
Theorem fallback_ranking_is_permutation
    (responses : list (string * string)) (e : Engine) (k : string) (a : AI) :
  roster_present e →
  k ∈ keys e →
  ais e !! k = Some a →
  alive a = true →
  ∃ ranked r,
    _judge_responses JudgeFails responses e
    = (Returned (JStr <$> ranked), set_rng r e) ∧
    ranked ≡ₚ responses.*1.
Proof.
  intros Hin Hk Ha Halive.
  destruct (ais_values_char e Hin) as (vs & Hv & Hvs).
  pose proof (V3Facts.forallb_stored (λ a, negb (alive a))
                (λ k, ais e !! k) (keys e) vs Hvs) as Hall.
  unfold _judge_responses. V3Facts.py_unfold. rewrite Hv.
  destruct (forallb (λ a, negb (alive a)) vs) eqn:Hf.
  - pose proof (proj1 Hall eq_refl k a Hk Ha) as Hdead. simpl in Hdead.
    rewrite Halive in Hdead. discriminate.
  - unfold shuffle.
    destruct (shuffle_from_Permutation (length responses.*1 - 1)
                responses.*1 e) as (x' & r & Hrun & Hperm).
    exists x', r. by rewrite Hrun.
Qed.

Lemma season_start_present : roster_present season_start.
Proof.
  intros k Hk. simpl in Hk.
  repeat (apply elem_of_cons in Hk as [->|Hk]; [by eexists|]).
  by apply elem_of_nil in Hk.
Qed.

Lemma fallback_ranking_is_permutation_witness :
  ∃ ranked r,
    _judge_responses JudgeFails four_responses season_start
    = (Returned (JStr <$> ranked), set_rng r season_start) ∧
    ranked ≡ₚ ["Claude"; "ChatGPT"; "Grok"; "DeepSeek"].
Proof.
  apply (fallback_ranking_is_permutation four_responses season_start
           "Claude" (new_ai "Claude" "anthropic" false false)).
  - exact season_start_present.
  - by apply (bool_decide_unpack _).
  - reflexivity.
  - reflexivity.
Defined.

(** X9.  With nobody of the roster alive there is no judge:
    [_judge_responses] raises [StopIteration], whatever the judge would have
    answered, and changes nothing. *)
Theorem no_judge_without_survivor (reply : judge_reply)
    (responses : list (string * string)) (e : Engine) :
  roster_present e →
  (∀ k a, k ∈ keys e → ais e !! k = Some a → alive a = false) →
  _judge_responses reply responses e = (Raised StopIteration, e).
Proof.
  intros Hin Hdead.
  destruct (ais_values_char e Hin) as (vs & Hv & Hvs).
  pose proof (V3Facts.forallb_stored (λ a, negb (alive a))
                (λ k, ais e !! k) (keys e) vs Hvs) as Hall.
  unfold _judge_responses. V3Facts.py_unfold. rewrite Hv.
  rewrite (proj2 Hall); [done|].
  intros k a Hk Ha. by rewrite (Hdead k a Hk Ha).
Qed.

Lemma no_judge_without_survivor_witness :
  _judge_responses (JudgeRanking claude_first) four_responses lone_claude_out
  = (Raised StopIteration, lone_claude_out).
Proof.
  assert (Hkeys : keys lone_claude_out = ["Claude"]) by (by vm_compute).
  assert (Hc : ais lone_claude_out !! "Claude"
               = Some {| name := "Claude"; api_type := "anthropic";
                         token_bank := -1000; level := 0; alive := false;
                         eliminated_round := Some 1; is_traitor := true;
                         traitor_revealed := false; has_v4_memory := false;
                         sabotage_tokens := 3; reputation_score := 2 |})
    by (by vm_compute).
  apply no_judge_without_survivor.
  - intros k Hk. rewrite Hkeys in Hk.
    apply list_elem_of_singleton in Hk as ->. rewrite Hc. by eexists.
  - intros k a Hk Ha. rewrite Hkeys in Hk.
    apply list_elem_of_singleton in Hk as ->. rewrite Hc in Ha.
    by injection Ha as <-.
Defined.

(** *** Rankings the settlement cannot use *)

(** X10.  [_apply_round_results] on a ranking it cannot use: an empty
    ranking raises [IndexError], a ranking with an entry that is not a
    string raises [TypeError], a ranking whose first name is not in
    [self.ais] raises [KeyError]; in the three cases the engine is
    unchanged. *)
Theorem settlement_rejects_ranking (round_num : Z) (e : Engine) :
  _apply_round_results round_num [] e = (Raised IndexError, e) ∧
  (∀ rankings,
     all_strings rankings = None →
     _apply_round_results round_num rankings e = (Raised TypeError, e)) ∧
  (∀ best rest,
     is_Some (all_strings rest) →
     ais e !! best = None →
     _apply_round_results round_num (JStr best :: rest) e
     = (Raised KeyError, e)).
Proof.
  split; [reflexivity|]. split.
  - intros rankings H. unfold _apply_round_results. by rewrite H.
  - intros best rest [rs Hrs] Hbest. unfold _apply_round_results. simpl.
    rewrite Hrs. simpl.
    destruct (last (best :: rs)) as [worst|] eqn:Hlast.
    + unfold level_changes. V3Facts.py_unfold. unfold on_ai at 1.
      by rewrite Hbest.
    + by rewrite last_cons in Hlast; destruct (last rs).
Qed.

(** X11.  The settlement is not atomic.  When the first name of the ranking
    is in [self.ais] and the last one is not, [_apply_round_results] raises
    [KeyError] with the best already one level up: no reputation, no bonus
    and no elimination follow. *)
Theorem settlement_stops_at_unknown_worst (round_num : Z) (rankings : list jval)
    (names : list string) (best worst : string) (a : AI) (e : Engine) :
  all_strings rankings = Some names →
  head names = Some best →
  last names = Some worst →
  ais e !! best = Some a →
  ais e !! worst = None →
  _apply_round_results round_num rankings e
  = (Raised KeyError,
     set_ais (<[best := set_level (level a + 1) a]> (ais e)) e).
Proof.
  intros Hs Hh Hl Hbest Hworst. unfold _apply_round_results.
  rewrite Hs, Hh, Hl. unfold level_changes. V3Facts.py_unfold.
  rewrite (on_ai_lookup best _ e a Hbest). unfold on_ai at 1. simpl.
  rewrite lookup_insert_ne by congruence. by rewrite Hworst.
Qed.

Lemma settlement_stops_at_unknown_worst_witness :
  _apply_round_results 1 [JStr "Claude"; JStr "Gemini"] season_start
  = (Raised KeyError,
     set_ais (<["Claude" := set_level 1
                              (new_ai "Claude" "anthropic" false false)]>
                (ais season_start)) season_start).
Proof.
  apply (settlement_stops_at_unknown_worst 1 _ ["Claude"; "Gemini"]
           "Claude" "Gemini" (new_ai "Claude" "anthropic" false false));
    reflexivity.
Defined.

(** *** The engine as [__init__] leaves it *)

Lemma draw_lt (n : nat) (r : list nat) : (0 < n)%nat → ((draw n r).1 < n)%nat.
Proof.
  intros Hn. destruct r as [|d r]; simpl; [done|].
  apply Nat.mod_upper_bound. lia.
Qed.

Lemma foldl_insert_snoc (m0 : gmap string AI) (l : list AI) (x : AI) :
  foldl (λ m a, <[name a := a]> m) m0 (l ++ [x])
  = <[name x := x]> (foldl (λ m a, <[name a := a]> m) m0 l).
Proof. by rewrite foldl_app. Qed.

(** The dictionary built from AIs with different names holds each of them
    under its name, and nothing else. *)
Lemma foldl_insert_lookup (l : list AI) :
  NoDup (name <$> l) →
  (∀ a, a ∈ l →
     foldl (λ m a, <[name a := a]> m) (∅ : gmap string AI) l !! name a
     = Some a) ∧
  (∀ k, k ∉ name <$> l →
     foldl (λ m a, <[name a := a]> m) (∅ : gmap string AI) l !! k = None).
Proof.
  induction l as [|x l IH] using rev_ind; intros Hnd.
  - split; [intros a Ha; by apply elem_of_nil in Ha|done].
  - rewrite fmap_app in Hnd. apply NoDup_app in Hnd as (Hnd & Hdis & _).
    destruct (IH Hnd) as [IHin IHout]. split.
    + intros a Ha. rewrite foldl_insert_snoc.
      apply elem_of_app in Ha as [Ha|Ha].
      * rewrite lookup_insert_ne; [by apply IHin|].
        intros Heq. apply (Hdis (name a)).
        -- apply list_elem_of_fmap. by exists a.
        -- simpl. rewrite Heq. by left.
      * apply list_elem_of_singleton in Ha as ->.
        by rewrite lookup_insert_eq.
    + intros k Hk. rewrite foldl_insert_snoc, fmap_app in *.
      apply not_elem_of_app in Hk as [Hk Hx].
      rewrite lookup_insert_ne; [by apply IHout|].
      intros Heq. apply Hx. simpl. rewrite Heq. by left.
Qed.

Lemma dict_keys_snoc (l : list AI) (x : AI) :
  dict_keys (l ++ [x])
  = if bool_decide (name x ∈ dict_keys l) then dict_keys l
    else dict_keys l ++ [name x].
Proof. unfold dict_keys. by rewrite foldl_app. Qed.

Lemma dict_keys_NoDup (l : list AI) :
  NoDup (name <$> l) → dict_keys l = name <$> l.
Proof.
  induction l as [|x l IH] using rev_ind; intros Hnd; [done|].
  rewrite fmap_app in Hnd. apply NoDup_app in Hnd as (Hnd & Hdis & _).
  rewrite dict_keys_snoc, IH by done.
  rewrite bool_decide_eq_false_2; [by rewrite fmap_app|].
  intros Hx. apply (Hdis (name x) Hx). by left.
Qed.

(** X12.  [__init__] on a non-empty list of AIs with different names
    returns an engine whose keys are the names in the order of the list and
    whose [traitor_name] is the name of an AI of the list; the dictionary
    holds that AI marked as the traitor, every other AI as it was given, and
    nothing under any other key. *)
Theorem new_engine_one_traitor (l : list AI) (r : list nat) :
  l ≠ [] →
  NoDup (name <$> l) →
  ∃ e t,
    new_engine l r = Returned e ∧
    t ∈ l ∧
    traitor_name e = name t ∧
    keys e = name <$> l ∧
    (∀ a, a ∈ l →
       ais e !! name a
       = Some (if bool_decide (name a = name t) then set_is_traitor true a
               else a)) ∧
    (∀ k, k ∉ name <$> l → ais e !! k = None).
Proof.
  intros Hne Hnd. unfold new_engine.
  rewrite bool_decide_eq_false_2 by done.
  pose proof (draw_lt (length l) r) as Hlt.
  destruct (draw (length l) r) as [j r'] eqn:Hdraw. simpl in Hlt.
  destruct (lookup_lt_is_Some_2 l j) as [t Ht].
  { apply Hlt. destruct l; [done|simpl; lia]. }
  rewrite Ht.
  set (l' := <[j := set_is_traitor true t]> l).
  assert (Hnames : name <$> l' = name <$> l).
  { unfold l'. rewrite list_fmap_insert. apply list_insert_id.
    rewrite list_lookup_fmap, Ht. reflexivity. }
  assert (Hnd' : NoDup (name <$> l')) by (by rewrite Hnames).
  destruct (foldl_insert_lookup l' Hnd') as [Hin Hout].
  eexists _, t. split; [reflexivity|]. simpl.
  split; [by eapply list_elem_of_lookup_2|].
  split; [reflexivity|]. split; [by apply dict_keys_NoDup|]. split.
  - intros a Ha. apply list_elem_of_lookup in Ha as [i Hi].
    destruct (decide (i = j)) as [->|Hij].
    + assert (a = t) as -> by congruence.
      rewrite bool_decide_eq_true_2 by done.
      apply (Hin (set_is_traitor true t)).
      apply list_elem_of_lookup. exists j. unfold l'.
      apply list_lookup_insert_eq. by eapply lookup_lt_Some.
    + rewrite bool_decide_eq_false_2.
      * apply Hin. apply list_elem_of_lookup. exists i. unfold l'.
        by rewrite list_lookup_insert_ne.
      * intros Heq. apply Hij.
        eapply (NoDup_lookup (name <$> l)); [done| |];
          rewrite list_lookup_fmap.
        -- by rewrite Hi.
        -- rewrite Ht. simpl. by rewrite Heq.
  - intros k Hk. apply Hout. by rewrite Hnames.
Qed.

Lemma new_engine_one_traitor_witness :
  ∃ e t,
    new_engine roster [2%nat] = Returned e ∧
    t ∈ roster ∧
    traitor_name e = name t ∧
    keys e = name <$> roster.
Proof.
  destruct (new_engine_one_traitor roster [2%nat])
    as (e & t & He & Ht & Hn & Hk & _).
  - discriminate.
  - apply (bool_decide_unpack _). by vm_compute.
  - by exists e, t.
Defined.

(** *** What the rounds keep *)

Lemma preserves_for_each_in {S A} (I : S → Prop) (l : list A)
    (body : A → Py S unit) :
  (∀ x, x ∈ l → preserves I (body x)) → preserves I (for_each l body).
Proof.
  induction l as [|x l IH]; intros Hb; simpl.
  - apply preserves_ret.
  - apply preserves_bind; [apply Hb; by left|].
    intros _. apply IH. intros y Hy. apply Hb. by right.
Qed.

Lemma on_ai_at (I : Engine → Prop) (k : string) (g : AI → AI) (e : Engine) :
  I e →
  (∀ a, ais e !! k = Some a → I (set_ais (<[k := g a]> (ais e)) e)) →
  I (on_ai k g e).2.
Proof.
  intros He H. unfold on_ai. destruct (ais e !! k) as [a|]; simpl; auto.
Qed.

Lemma ai_get_bind_at {B} (I : Engine → Prop) (k : string)
    (f : AI → Py Engine B) (e : Engine) :
  I e →
  (∀ a, ais e !! k = Some a → I (f a e).2) →
  I ((a ← ai_get k; f a) e).2.
Proof.
  intros He H. V3Facts.py_unfold. unfold ai_get.
  destruct (ais e !! k) as [a|]; simpl; auto.
Qed.

Lemma collect_result (l : list string) :
  ∀ (acc : list AI) (e : Engine),
    (∃ vs,
       for_fold l (λ acc k, a ← ai_get k; mret (acc ++ [a])) acc e
       = (Returned (acc ++ vs), e) ∧
       Forall2 (λ k a, ais e !! k = Some a) l vs) ∨
    for_fold l (λ acc k, a ← ai_get k; mret (acc ++ [a])) acc e
    = (Raised KeyError, e).
Proof.
  induction l as [|k l IH]; intros acc e.
  - left. exists []. simpl. rewrite app_nil_r. split; [done|constructor].
  - simpl. V3Facts.py_unfold.
    destruct (ais e !! k) as [a|] eqn:Ha;
      [|right; unfold ai_get; by rewrite Ha].
    rewrite (ai_get_lookup k e a Ha).
    destruct (IH (acc ++ [a]) e) as [(vs & Hrun & Hvs)|Hrun].
    + left. exists (a :: vs). rewrite <- app_assoc in Hrun.
      split; [exact Hrun|by constructor].
    + by right.
Qed.

(** [self.ais.values()] returns the AIs under the keys, or raises; the
    engine is as before. *)
Lemma values_result (e : Engine) :
  (∃ vs, values e = (Returned vs, e) ∧
         Forall2 (λ k a, ais e !! k = Some a) (keys e) vs) ∨
  values e = (Raised KeyError, e).
Proof. apply (collect_result (keys e) [] e). Qed.

Lemma ais_values_preserves (I : Engine → Prop) : preserves I values.
Proof.
  intros e He. destruct (values_result e) as [(vs & -> & _)| ->]; exact He.
Qed.

Section Talk.
Context (I : Engine → Prop) (HI : talk_stable I).

Lemma debit_preserves (k : string) (cost : Z) (e : Engine) (a : AI) :
  I e → ais e !! k = Some a → alive a = true →
  I (on_ai k (λ a, set_token_bank (token_bank a - cost) a) e).2.
Proof.
  intros He Ha Hal. apply on_ai_at; [done|].
  intros a' Ha'. assert (a' = a) as -> by congruence.
  by apply (talk_debit I HI).
Qed.

Lemma _run_sabotage_vote_preserves (ballot : string → string * Z) :
  preserves I (_run_sabotage_vote ballot).
Proof.
  unfold _run_sabotage_vote. apply preserves_bind; [apply preserves_get|].
  intros e0. apply preserves_for_fold. intros votes k e He.
  apply ai_get_bind_at; [done|]. intros a Ha.
  destruct (alive a) eqn:Hal; simpl; [|done].
  destruct (ballot k) as [vote cost].
  apply bind_at; [by eapply debit_preserves|].
  intros _. destruct (first_word vote) as [w|]; [|apply preserves_raise].
  apply preserves_bind; [apply preserves_get|].
  intros e'. case_bool_decide; apply preserves_ret.
Qed.

Lemma _apply_group_sabotage_preserves (target : string) (n : Z) :
  preserves I (_apply_group_sabotage target n).
Proof.
  intros e He. unfold _apply_group_sabotage. apply on_ai_at; [done|].
  intros a Ha. by apply (talk_reputation I HI).
Qed.

Lemma run_negotiation_round_preserves (forum ballot : string → string * Z)
    (n : Z) :
  preserves I (run_negotiation_round forum ballot n).
Proof.
  unfold run_negotiation_round. apply preserves_bind; [apply preserves_get|].
  intros e0. apply preserves_bind.
  { apply preserves_for_each. intros k e He.
    apply ai_get_bind_at; [done|]. intros a Ha.
    destruct (alive a) eqn:Hal; simpl; [|done].
    destruct (forum k) as [post cost]. by eapply debit_preserves. }
  intros _. apply preserves_bind; [apply _run_sabotage_vote_preserves|].
  intros votes. destruct (max_vote votes) as [target|].
  - apply _apply_group_sabotage_preserves.
  - apply preserves_ret.
Qed.
End Talk.

Section Stable.
Context (I : Engine → Prop) (HI : stable I).

Lemma randbelow_preserves (n : nat) : preserves I (randbelow n).
Proof.
  intros e He. unfold randbelow. destruct (draw n (rng e)) as [j r].
  by apply (stable_rng I HI).
Qed.

Lemma _judge_responses_preserves (reply : judge_reply)
    (responses : list (string * string)) :
  preserves I (_judge_responses reply responses).
Proof.
  unfold _judge_responses. apply preserves_bind; [apply ais_values_preserves|].
  intros vs. destruct (forallb _ vs); [apply preserves_raise|].
  destruct reply as [|ranking]; [|apply preserves_ret].
  apply preserves_bind; [|intros; apply preserves_ret].
  intros e He. unfold shuffle.
  destruct (shuffle_from_Permutation (length responses.*1 - 1)
              responses.*1 e) as (x' & r & -> & _).
  by apply (stable_rng I HI).
Qed.

Lemma level_changes_preserves (best worst : string) :
  preserves I (level_changes best worst).
Proof.
  unfold level_changes.
  apply preserves_bind; [|intros _; apply preserves_bind; [|intros _]];
    intros e He; (apply on_ai_at; [done|]); intros a Ha.
  - by apply (stable_level I HI).
  - by apply (stable_level I HI).
  - by apply (talk_reputation I (stable_talk I HI)).
Qed.

Lemma group_bonus_preserves : preserves I group_bonus.
Proof.
  intros e He. unfold group_bonus. V3Facts.py_unfold.
  destruct (values_result e) as [(vs & Hv & Hvs)|Hv]; rewrite Hv; [|done].
  destruct (forallb alive vs) eqn:Hf; [|done].
  pose proof (proj1 (V3Facts.forallb_stored alive (λ k, ais e !! k)
                       (keys e) vs Hvs) Hf) as Hall.
  unfold get.
  apply (preserves_for_each_in
           (λ e', I e' ∧ all_alive e' ∧ keys e' = keys e)); [|done].
  intros k Hk e' (He' & Hall' & Hkeys). apply on_ai_at; [done|].
  intros a Ha. split; [|split; [|done]].
  - apply (stable_bonus I HI); [done..| |done]. by rewrite Hkeys.
  - intros k' a' Hk' Ha'. simpl in *.
    destruct (decide (k' = k)) as [->|Hne].
    + rewrite lookup_insert_eq in Ha'. injection Ha' as <-. simpl.
      by apply (Hall' k a); [rewrite Hkeys|].
    + rewrite lookup_insert_ne in Ha' by done. by apply (Hall' k' a').
Qed.

Lemma settle_eliminations_preserves (n : Z) :
  preserves I (check_eliminations n).
Proof.
  unfold check_eliminations. apply preserves_bind; [apply preserves_get|].
  intros e0. apply preserves_for_each. intros k e He.
  apply ai_get_bind_at; [done|]. intros a Ha.
  destruct (alive a) eqn:Hal; simpl; [|done].
  case_bool_decide as Hb; [|done].
  apply on_ai_at; [done|]. intros a' Ha'.
  assert (a' = a) as -> by congruence.
  by apply (stable_eliminate I HI).
Qed.

Lemma _apply_round_results_preserves (n : Z) (rankings : list jval) :
  preserves I (_apply_round_results n rankings).
Proof.
  unfold _apply_round_results.
  destruct (all_strings rankings) as [rs|]; [|apply preserves_raise].
  destruct (head rs) as [best|]; [|apply preserves_raise].
  destruct (last rs) as [worst|]; [|apply preserves_raise].
  apply preserves_bind; [apply level_changes_preserves|].
  intros _. apply preserves_bind; [apply group_bonus_preserves|].
  intros _. apply settle_eliminations_preserves.
Qed.

Lemma run_challenge_round_preserves (api : string → string * Z)
    (reply : judge_reply) (n : Z) :
  preserves I (run_challenge_round api reply n).
Proof.
  unfold run_challenge_round.
  apply preserves_bind; [apply randbelow_preserves|].
  intros _. apply preserves_bind; [apply preserves_get|].
  intros e0. apply preserves_bind.
  { apply preserves_for_fold. intros responses k e He.
    apply ai_get_bind_at; [done|]. intros a Ha.
    destruct (alive a) eqn:Hal; simpl; [|done].
    destruct (api k) as [response cost].
    apply bind_at; [|intros; apply preserves_ret].
    by eapply (debit_preserves I (stable_talk I HI)). }
  intros responses.
  apply preserves_bind; [apply _judge_responses_preserves|].
  intros rankings.
  apply preserves_bind; [apply _apply_round_results_preserves|].
  intros _. apply preserves_ret.
Qed.

Lemma experiment_rounds_preserves (script : Z → Script) (rounds : list Z) :
  preserves I (experiment_rounds script rounds).
Proof.
  induction rounds as [|n rounds IH]; [apply preserves_ret|].
  simpl. apply preserves_bind.
  { case_bool_decide.
    - apply (run_negotiation_round_preserves I (stable_talk I HI)).
    - apply preserves_bind; [apply run_challenge_round_preserves|].
      intros _. apply preserves_ret. }
  intros _. apply preserves_bind; [apply ais_values_preserves|].
  intros vs. case_bool_decide; [apply preserves_ret|exact IH].
Qed.
End Stable.

Lemma dead_at_stable (k0 : string) (b : Z) (r : option Z) :
  stable (dead_at k0 b r).
Proof.
  split; [split|..].
  - intros e k a cost (a0 & Ha0 & Hd & Hb & Hr) Ha Hal.
    exists a0. simpl. rewrite lookup_insert_ne; [done|]. congruence.
  - intros e k a v (a0 & Ha0 & Hd & Hb & Hr) Ha. simpl.
    destruct (decide (k = k0)) as [->|Hne].
    + eexists. simpl. rewrite lookup_insert_eq. split; [done|].
      assert (a = a0) as -> by congruence. done.
    + exists a0. simpl. by rewrite lookup_insert_ne.
  - intros e r' (a0 & H). by exists a0.
  - intros e k a v (a0 & Ha0 & Hd & Hb & Hr) Ha. simpl.
    destruct (decide (k = k0)) as [->|Hne].
    + eexists. simpl. rewrite lookup_insert_eq. split; [done|].
      assert (a = a0) as -> by congruence. done.
    + exists a0. simpl. by rewrite lookup_insert_ne.
  - intros e k a (a0 & Ha0 & Hd & Hb & Hr) Hall Hk Ha.
    exists a0. simpl. rewrite lookup_insert_ne; [done|].
    intros ->. rewrite (Hall k0 a0 Hk Ha0) in Hd. discriminate.
  - intros e k a r' (a0 & Ha0 & Hd & Hb & Hr) Ha Hal Hle.
    exists a0. simpl. rewrite lookup_insert_ne; [done|]. congruence.
Qed.

Lemma fixed_at_stable (ks : list string) (t : string) (n : Z) (k0 : string)
    (c : string * string * bool * bool * bool * Z) :
  stable (fixed_at ks t n k0 c).
Proof.
  assert (Hset : ∀ (g : AI → AI) e k a,
             (∀ a, fixed_fields (g a) = fixed_fields a) →
             fixed_at ks t n k0 c e → ais e !! k = Some a →
             fixed_at ks t n k0 c (set_ais (<[k := g a]> (ais e)) e)).
  { intros g e k a Hg (Hk & Ht & Hn & a0 & Ha0 & Hc) Ha.
    split; [done|]. split; [done|]. split; [done|]. simpl.
    destruct (decide (k = k0)) as [->|Hne].
    - exists (g a). simpl. rewrite lookup_insert_eq. split; [done|].
      rewrite Hg. congruence.
    - exists a0. simpl. by rewrite lookup_insert_ne. }
  split; [split|..].
  - intros e k a cost He Ha _.
    by apply (Hset (λ a, set_token_bank (token_bank a - cost) a)).
  - intros e k a v He Ha. by apply (Hset (set_reputation_score v)).
  - intros e r He. exact He.
  - intros e k a v He Ha. by apply (Hset (set_level v)).
  - intros e k a He _ _ Ha.
    by apply (Hset (λ a, set_token_bank (token_bank a + 3000) a)).
  - intros e k a r He Ha _ _. by apply (Hset (set_eliminated r)).
Qed.

Lemma standing_at_talk_stable (k0 : string) (l : Z) (al : bool)
    (r : option Z) :
  talk_stable (standing_at k0 l al r).
Proof.
  split.
  - intros e k a cost (a0 & Ha0 & H) Ha _. simpl.
    destruct (decide (k = k0)) as [->|Hne].
    + eexists. simpl. rewrite lookup_insert_eq. split; [done|].
      assert (a = a0) as -> by congruence. done.
    + exists a0. simpl. by rewrite lookup_insert_ne.
  - intros e k a v (a0 & Ha0 & H) Ha. simpl.
    destruct (decide (k = k0)) as [->|Hne].
    + eexists. simpl. rewrite lookup_insert_eq. split; [done|].
      assert (a = a0) as -> by congruence. done.
    + exists a0. simpl. by rewrite lookup_insert_ne.
Qed.

(** X13.  In version 5 an eliminated AI is out for good and its balance is
    frozen: a challenge round, a negotiation round and any run of the
    season's loop, completed or not, leave it eliminated, in the same round,
    with the same balance. *)
Theorem dead_ai_stays_frozen (k : string) (b : Z) (r : option Z)
    (e : Engine) :
  dead_at k b r e →
  (∀ api reply n, dead_at k b r (run_challenge_round api reply n e).2) ∧
  (∀ forum ballot n,
     dead_at k b r (run_negotiation_round forum ballot n e).2) ∧
  (∀ script rounds, dead_at k b r (experiment_rounds script rounds e).2).
Proof.
  intros He. pose proof (dead_at_stable k b r) as Hs. split; [|split].
  - intros api reply n. by apply run_challenge_round_preserves.
  - intros forum ballot n.
    by apply (run_negotiation_round_preserves _ (stable_talk _ Hs)).
  - intros script rounds. by apply experiment_rounds_preserves.
Qed.

Lemma dead_ai_stays_frozen_witness :
  dead_at "Claude" (-1000) (Some 1)
    (experiment_rounds grudge_script (Z.of_nat <$> seq 2 19) claude_out).2.
Proof.
  apply (dead_ai_stays_frozen "Claude" (-1000) (Some 1) claude_out).
  eexists. split; [reflexivity|]. by vm_compute.
Defined.

(** X14.  A negotiation round settles nothing: whatever the AIs post and
    vote, and whether the round completes or raises, every AI keeps its
    level, stays alive if it was (also with a balance the round has taken
    to zero or below) and keeps its round of elimination. *)
Theorem negotiation_never_eliminates (k : string) (l : Z) (al : bool)
    (r : option Z) (forum ballot : string → string * Z) (n : Z)
    (e : Engine) :
  standing_at k l al r e →
  standing_at k l al r (run_negotiation_round forum ballot n e).2.
Proof.
  apply run_negotiation_round_preserves, standing_at_talk_stable.
Qed.

Lemma negotiation_never_eliminates_witness :
  standing_at "Claude" 0 true None
    (run_negotiation_round (λ _, ("...", 20000)) (λ _, ("Grok", 10)) 5
       season_start).2.
Proof.
  apply negotiation_never_eliminates.
  eexists. split; [reflexivity|]. done.
Defined.

(** In that round Claude pays 20010 tokens out of 10000 and stays in. *)
Example negotiation_leaves_broke_ai_in :
  (λ a, (token_bank a, alive a)) <$>
    ais (run_negotiation_round (λ _, ("...", 20000)) (λ _, ("Grok", 10)) 5
           season_start).2 !! "Claude"
  = Some (-10010, true).
Proof. by vm_compute. Qed.

(** X15.  The engine of version 5 never spends a sabotage token, never
    reveals the traitor and never renames anybody: over any run of the
    season's loop, completed or not, the keys, [traitor_name] and
    [round_number] of the engine and, for every AI, its name, API type,
    traitor mark, [traitor_revealed], [has_v4_memory] and [sabotage_tokens]
    are as before. *)
Theorem season_keeps_fixed_fields (ks : list string) (t : string) (n : Z)
    (k : string) (c : string * string * bool * bool * bool * Z)
    (script : Z → Script) (rounds : list Z) (e : Engine) :
  fixed_at ks t n k c e →
  fixed_at ks t n k c (experiment_rounds script rounds e).2.
Proof.
  apply experiment_rounds_preserves, fixed_at_stable.
Qed.

Lemma season_keeps_fixed_fields_witness :
  fixed_at ["Claude"; "ChatGPT"; "Grok"; "DeepSeek"] "Grok" 0 "Grok"
    ("Grok", "xai", true, false, true, 3)
    (experiment grudge_script season_start).2.
Proof.
  apply season_keeps_fixed_fields.
  repeat split. eexists. split; reflexivity.
Defined.

(** *** Counting the votes *)

Lemma votes_get_count_vote (k w : string) (votes : list (string * Z)) :
  votes_get k (count_vote w votes)
  = votes_get k votes + (if bool_decide (w = k) then 1 else 0).
Proof.
  induction votes as [|[k' n] votes IH]; simpl.
  - repeat case_bool_decide; simplify_eq; lia.
  - repeat (case_bool_decide; simplify_eq/=); try lia; try done.
Qed.

Lemma count_vote_keys (w : string) (votes : list (string * Z)) :
  (count_vote w votes).*1
  = if bool_decide (w ∈ votes.*1) then votes.*1 else votes.*1 ++ [w].
Proof.
  induction votes as [|[k' n] votes IH]; [done|].
  cbn [count_vote]. destruct (decide (k' = w)) as [->|Hne].
  - rewrite bool_decide_eq_true_2 by done. rewrite !fmap_cons. cbn [fst].
    rewrite bool_decide_eq_true_2; [done|by left].
  - rewrite bool_decide_eq_false_2 by done. rewrite !fmap_cons, IH.
    cbn [fst]. destruct (decide (w ∈ votes.*1)) as [Hin|Hout].
    + rewrite !bool_decide_eq_true_2; [done|by right|done].
    + rewrite !bool_decide_eq_false_2; [done| |done].
      intros [->|?]%elem_of_cons; done.
Qed.

Lemma tally_snoc (ws : list string) (w : string) :
  tally (ws ++ [w]) = count_vote w (tally ws).
Proof. unfold tally. by rewrite foldl_app. Qed.

Lemma occurrences_snoc (k w : string) (ws : list string) :
  occurrences k (ws ++ [w])
  = (occurrences k ws + (if bool_decide (w = k) then 1 else 0))%nat.
Proof.
  unfold occurrences. rewrite List.filter_app, length_app. simpl.
  by case_bool_decide.
Qed.

Lemma occurrences_notin (w : string) (ws : list string) :
  w ∉ ws → occurrences w ws = 0%nat.
Proof.
  unfold occurrences. induction ws as [|w' ws IH]; intros Hw; [done|].
  apply not_elem_of_cons in Hw as [Hne Hw]. simpl.
  rewrite bool_decide_eq_false_2 by done. by apply IH.
Qed.

Lemma votes_get_tally (k : string) (ws : list string) :
  votes_get k (tally ws) = Z.of_nat (occurrences k ws).
Proof.
  induction ws as [|w ws IH] using rev_ind; [done|].
  rewrite tally_snoc, votes_get_count_vote, occurrences_snoc, IH.
  case_bool_decide; lia.
Qed.

Lemma tally_keys (ws : list string) :
  NoDup (tally ws).*1 ∧ ∀ k, k ∈ (tally ws).*1 ↔ k ∈ ws.
Proof.
  induction ws as [|w ws [IHnd IH]] using rev_ind.
  - split; [constructor|done].
  - rewrite tally_snoc, count_vote_keys. case_bool_decide as Hw.
    + split; [done|]. intros k. rewrite IH, elem_of_app, list_elem_of_singleton.
      split; [auto|]. intros [?| ->]; [done|by apply IH].
    + split.
      * apply NoDup_app. split; [done|]. split; [|apply NoDup_singleton].
        intros k Hk ->%list_elem_of_singleton. done.
      * intros k. rewrite !elem_of_app, IH. done.
Qed.

(** The keys of [votes] only grow at the end. *)
Lemma tally_keys_prefix (pre post : list string) :
  ∃ more, (tally (pre ++ post)).*1 = (tally pre).*1 ++ more.
Proof.
  induction post as [|w post [more IH]] using rev_ind.
  - exists []. by rewrite !app_nil_r.
  - rewrite app_assoc, tally_snoc, count_vote_keys, IH.
    case_bool_decide; [by exists more|].
    exists (more ++ [w]). by rewrite app_assoc.
Qed.

Lemma votes_get_elem (k : string) (n : Z) (votes : list (string * Z)) :
  NoDup votes.*1 → (k, n) ∈ votes → votes_get k votes = n.
Proof.
  induction votes as [|[k' n'] votes IH]; intros Hnd Hin.
  - by apply elem_of_nil in Hin.
  - simpl in *. apply NoDup_cons in Hnd as [Hk' Hnd].
    apply elem_of_cons in Hin as [[= -> ->]|Hin].
    + by rewrite bool_decide_eq_true_2.
    + rewrite bool_decide_eq_false_2; [by apply IH|].
      intros ->. apply Hk'. apply list_elem_of_fmap. by exists (k, n).
Qed.

Lemma NoDup_split_inj (l1 l2 l1' l2' : list string) (x : string) :
  NoDup (l1 ++ x :: l2) → l1 ++ x :: l2 = l1' ++ x :: l2' → l1 = l1'.
Proof.
  revert l1'. induction l1 as [|y l1 IH]; intros [|y' l1'] Hnd Heq;
    simplify_eq/=.
  - done.
  - apply NoDup_cons in Hnd as [Hx _]. exfalso. apply Hx.
    apply elem_of_app. right. by left.
  - apply NoDup_cons in Hnd as [Hx _]. exfalso. apply Hx.
    apply elem_of_app. right. by left.
  - apply NoDup_cons in Hnd as [_ Hnd]. f_equal. by eapply IH.
Qed.

(** [max] keeps the first entry with the highest count. *)
Lemma first_max (rest : list (string * Z)) (kn : string * Z) :
  ∃ pre post,
    kn :: rest
    = pre ++ foldl (λ best kv, if bool_decide (best.2 < kv.2) then kv
                               else best) kn rest :: post ∧
    (∀ kv, kv ∈ pre →
       kv.2 < (foldl (λ best kv, if bool_decide (best.2 < kv.2) then kv
                                 else best) kn rest).2) ∧
    (∀ kv, kv ∈ post →
       kv.2 ≤ (foldl (λ best kv, if bool_decide (best.2 < kv.2) then kv
                                 else best) kn rest).2).
Proof.
  induction rest as [|x rest (pre & post & Heq & Hpre & Hpost)] using rev_ind.
  - exists [], []. simpl. split; [done|].
    split; intros kv Hkv; by apply elem_of_nil in Hkv.
  - rewrite foldl_app. simpl.
    set (b := foldl _ kn rest) in *.
    case_bool_decide as Hlt.
    + exists (kn :: rest), []. split; [by rewrite app_comm_cons|].
      split; [|intros kv Hkv; by apply elem_of_nil in Hkv].
      intros kv Hkv. rewrite Heq in Hkv.
      apply elem_of_app in Hkv as [Hkv|Hkv].
      * specialize (Hpre kv Hkv). lia.
      * apply elem_of_cons in Hkv as [->|Hkv]; [done|].
        specialize (Hpost kv Hkv). lia.
    + exists pre, (post ++ [x]).
      split; [by rewrite app_comm_cons, Heq, <- app_assoc|].
      split; [done|]. intros kv Hkv.
      apply elem_of_app in Hkv as [Hkv|Hkv]; [by apply Hpost|].
      apply list_elem_of_singleton in Hkv as ->. lia.
Qed.

(** X17.  The target of the group sabotage.  No ballot, no target;
    otherwise the target has at least as many votes as anybody, and strictly
    more than everybody who received a vote before the target's first one:
    among the most voted, the one voted for first. *)
Theorem sabotage_hits_most_voted (ws : list string) :
  (max_vote (tally ws) = None ↔ ws = []) ∧
  (∀ t, max_vote (tally ws) = Some t →
     ∃ pre post,
       ws = pre ++ t :: post ∧ (t ∉ pre) ∧
       (∀ w, w ∈ pre → (occurrences w ws < occurrences t ws)%nat) ∧
       (∀ w, (occurrences w ws ≤ occurrences t ws)%nat)).
Proof.
  destruct (tally_keys ws) as [Hnd Hkeys]. split.
  - split; [|by intros ->].
    destruct ws as [|w ws]; [done|]. intros Hnone. exfalso.
    assert (Hw : w ∈ (tally (w :: ws)).*1) by (apply Hkeys; by left).
    unfold max_vote in Hnone.
    destruct (tally (w :: ws)); [by apply elem_of_nil in Hw|discriminate].
  - intros t Ht. unfold max_vote in Ht.
    destruct (tally ws) as [|kn rest] eqn:Hvotes; [discriminate|].
    injection Ht as Ht.
    destruct (first_max rest kn) as (v1 & v2 & Heq & Hv1 & Hv2).
    set (b := foldl _ kn rest) in *.
    assert (Hb : b = (t, b.2)) by (rewrite <- Ht; by destruct b).
    assert (Hget : ∀ k n, (k, n) ∈ kn :: rest →
                          n = Z.of_nat (occurrences k ws)).
    { intros k n Hin. rewrite <- votes_get_tally, Hvotes.
      symmetry. by apply votes_get_elem. }
    assert (Hbin : (t, b.2) ∈ kn :: rest).
    { rewrite Heq, <- Hb. apply elem_of_app. right. by left. }
    pose proof (Hget t b.2 Hbin) as Hbn.
    assert (Htws : t ∈ ws).
    { apply Hkeys. apply list_elem_of_fmap. by exists (t, b.2). }
    destruct (list_elem_of_split_l ws t Htws) as (pre & post & Hws & Hpre).
    exists pre, post. split; [done|]. split; [done|]. split.
    + intros w Hw.
      destruct (tally_keys_prefix (pre ++ [t]) post) as [more Hmore].
      rewrite <- app_assoc in Hmore. simpl in Hmore.
      rewrite <- Hws, Hvotes, tally_snoc, count_vote_keys in Hmore.
      rewrite bool_decide_eq_false_2 in Hmore
        by (intros Hin; by apply (tally_keys pre) in Hin).
      rewrite <- app_assoc in Hmore.
      change ([t] ++ more) with (t :: more) in Hmore.
      assert (Hsplit : v1.*1 = (tally pre).*1).
      { eapply (NoDup_split_inj _ v2.*1 _ more t).
        - rewrite Heq, fmap_app, fmap_cons, Hb in Hnd. exact Hnd.
        - rewrite <- Hmore, Heq, fmap_app, fmap_cons, Hb. done. }
      assert (Hwk : w ∈ v1.*1) by (rewrite Hsplit; by apply tally_keys).
      apply list_elem_of_fmap in Hwk as ([w' m] & -> & Hwm). simpl.
      pose proof (Hv1 _ Hwm) as Hlt. simpl in Hlt.
      assert (Hwin : (w', m) ∈ kn :: rest).
      { rewrite Heq. apply elem_of_app. by left. }
      pose proof (Hget w' m Hwin). lia.
    + intros w. destruct (decide (w ∈ ws)) as [Hw|Hw].
      * apply Hkeys, list_elem_of_fmap in Hw as ([w' m] & -> & Hwm). simpl.
        pose proof (Hget w' m Hwm) as Hm.
        rewrite Heq in Hwm. apply elem_of_app in Hwm as [Hwm|Hwm].
        -- pose proof (Hv1 _ Hwm). simpl in *. lia.
        -- apply elem_of_cons in Hwm as [Hwm|Hwm].
           ++ rewrite Hb in Hwm. injection Hwm as -> ->. lia.
           ++ pose proof (Hv2 _ Hwm). simpl in *. lia.
      * rewrite (occurrences_notin w ws Hw). lia.
Qed.

(** *** The accounts of a negotiation round *)

(** A loop over keys whose turn at [k] assigns [g k a] to the AI [a]. *)
Lemma for_each_ai_update (body : string → Py Engine unit)
    (g : string → AI → AI) (l : list string) :
  (∀ k e a, ais e !! k = Some a →
            body k e = (Returned tt, set_ais (<[k := g k a]> (ais e)) e)) →
  ∀ e : Engine,
    NoDup l →
    (∀ k, k ∈ l → is_Some (ais e !! k)) →
    ∃ m',
      for_each l body e = (Returned tt, set_ais m' e) ∧
      (∀ k, k ∈ l → m' !! k = g k <$> ais e !! k) ∧
      (∀ k, k ∉ l → m' !! k = ais e !! k).
Proof.
  intros Hbody. induction l as [|k l IH]; intros e Hnd Hin.
  - exists (ais e). simpl. split; [by destruct e|]. split; [|done].
    intros k Hk. by apply elem_of_nil in Hk.
  - inversion Hnd as [|? ? Hk Hnd']; subst.
    destruct (Hin k) as [a Ha]; [by left|].
    destruct (IH (set_ais (<[k := g k a]> (ais e)) e) Hnd')
      as (m' & Hrun & Hl & Hout).
    { intros k' Hk'. simpl. destruct (decide (k' = k)) as [->|Hne].
      - rewrite lookup_insert_eq. by eexists.
      - rewrite lookup_insert_ne by done. apply Hin. by right. }
    exists m'. split; [|split].
    + simpl. V3Facts.py_unfold. rewrite (Hbody k e a Ha). exact Hrun.
    + intros k' Hk'. apply elem_of_cons in Hk' as [->|Hk'].
      * rewrite Hout by done. simpl. rewrite lookup_insert_eq. by rewrite Ha.
      * rewrite Hl by done. simpl. rewrite lookup_insert_ne; [done|].
        intros ->. done.
    + intros k' Hk'. apply not_elem_of_cons in Hk' as [Hne Hk'].
      rewrite Hout by done. simpl. by rewrite lookup_insert_ne.
Qed.

Lemma omap_ext_in {A B} (f g : A → option B) (l : list A) :
  (∀ x, x ∈ l → f x = g x) → omap f l = omap g l.
Proof.
  induction l as [|x l IH]; intros H; [done|].
  cbn [omap list_omap]. rewrite (H x) by (by left).
  rewrite IH; [done|]. intros y Hy. apply H. by right.
Qed.

Lemma set_ais_same (e : Engine) (k : string) (a : AI) :
  ais e !! k = Some a → set_ais (<[k := a]> (ais e)) e = e.
Proof. intros Ha. rewrite insert_id by done. by destruct e. Qed.

(** The turn of one AI in the public forum. *)
Lemma forum_turn (forum : string → string * Z) (k : string) (e : Engine)
    (a : AI) :
  ais e !! k = Some a →
  (a ← ai_get k;
   if negb (alive a) then mret tt
   else let '(post, cost) := forum k in
        on_ai k (λ a, set_token_bank (token_bank a - cost) a)) e
  = (Returned tt,
     set_ais (<[k := if alive a
                     then set_token_bank (token_bank a - (forum k).2) a
                     else a]> (ais e)) e).
Proof.
  intros Ha. V3Facts.py_unfold. rewrite (ai_get_lookup k e a Ha).
  destruct (alive a); simpl.
  - destruct (forum k) as [post cost]. by rewrite (on_ai_lookup k _ e a Ha).
  - by rewrite set_ais_same.
Qed.

Lemma vote_of_ext (ballot : string → string * Z) (e e' : Engine) (k : string) :
  ais e' !! k = ais e !! k →
  (∀ w, is_Some (ais e' !! w) ↔ is_Some (ais e !! w)) →
  vote_of ballot e' k = vote_of ballot e k.
Proof.
  intros Hk Hdom. unfold vote_of. rewrite Hk.
  destruct (ais e !! k) as [a|]; simpl; [|done].
  destruct (alive a); [|done].
  destruct (first_word (ballot k).1) as [w|]; simpl; [|done].
  by rewrite (bool_decide_ext _ _ (Hdom w)).
Qed.

Lemma vote_of_alive (ballot : string → string * Z) (e e' : Engine)
    (k : string) :
  alive <$> ais e' !! k = alive <$> ais e !! k →
  (∀ w, is_Some (ais e' !! w) ↔ is_Some (ais e !! w)) →
  vote_of ballot e' k = vote_of ballot e k.
Proof.
  intros Hk Hdom. unfold vote_of.
  destruct (ais e' !! k) as [a'|], (ais e !! k) as [a|]; simplify_eq/=;
    [|done].
  rewrite Hk. destruct (alive a); [|done].
  destruct (first_word (ballot k).1) as [w|]; simpl; [|done].
  by rewrite (bool_decide_ext _ _ (Hdom w)).
Qed.

(** The loop of [_run_sabotage_vote] when no ballot of an alive AI is
    blank. *)
Lemma vote_loop (ballot : string → string * Z) (l : list string) :
  ∀ (e : Engine) (votes : list (string * Z)),
    NoDup l →
    (∀ k, k ∈ l → is_Some (ais e !! k)) →
    (∀ k a, k ∈ l → ais e !! k = Some a → alive a = true →
            is_Some (first_word (ballot k).1)) →
    ∃ m',
      for_fold l
        (λ votes k,
           a ← ai_get k;
           if negb (alive a) then mret votes
           else
             let '(vote, cost) := ballot k in
             on_ai k (λ a, set_token_bank (token_bank a - cost) a);;
             match first_word vote with
             | None => raise IndexError
             | Some vote_clean =>
                 e' ← get;
                 if bool_decide (is_Some (ais e' !! vote_clean))
                 then mret (count_vote vote_clean votes)
                 else mret votes
             end)
        votes e
      = (Returned (foldl (λ votes w, count_vote w votes) votes
                     (omap (vote_of ballot e) l)),
         set_ais m' e) ∧
      (∀ k, k ∈ l →
         m' !! k
         = (λ a, if alive a
                 then set_token_bank (token_bank a - (ballot k).2) a
                 else a) <$> ais e !! k) ∧
      (∀ k, k ∉ l → m' !! k = ais e !! k).
Proof.
  induction l as [|k l IH]; intros e votes Hnd Hin Hword.
  - exists (ais e). simpl. split; [by destruct e|]. split; [|done].
    intros k Hk. by apply elem_of_nil in Hk.
  - inversion Hnd as [|? ? Hk Hnd']; subst.
    destruct (Hin k) as [a Ha]; [by left|].
    cbn [for_fold omap list_omap]. V3Facts.py_unfold.
    rewrite (ai_get_lookup k e a Ha).
    destruct (alive a) eqn:Hal; cbn [negb].
    + destruct (Hword k a ltac:(by left) Ha Hal) as [w Hw].
      set (a1 := set_token_bank (token_bank a - (ballot k).2) a).
      set (e1 := set_ais (<[k := a1]> (ais e)) e).
      assert (Hdom : ∀ w, is_Some (ais e1 !! w) ↔ is_Some (ais e !! w)).
      { intros w'. simpl. destruct (decide (w' = k)) as [->|Hne].
        - rewrite lookup_insert_eq, Ha. split; by eexists.
        - by rewrite lookup_insert_ne. }
      assert (Hsame : omap (vote_of ballot e1) l = omap (vote_of ballot e) l).
      { apply omap_ext_in. intros k' Hk'.
        apply vote_of_ext; [|done]. simpl.
        rewrite lookup_insert_ne; [done|]. intros ->. done. }
      destruct (IH e1 (if bool_decide (is_Some (ais e !! w))
                       then count_vote w votes else votes) Hnd')
        as (m' & Hrun & Hl & Hout).
      { intros k' Hk'. apply Hdom, Hin. by right. }
      { intros k' a' Hk' Ha' Hal'. simpl in Ha'.
        rewrite lookup_insert_ne in Ha' by (intros ->; done).
        apply (Hword k' a'); [by right|done..]. }
      exists m'. split; [|split].
      * unfold vote_of at 1. rewrite Ha. simpl. rewrite Hal.
        destruct (ballot k) as [vote cost] eqn:Hballot. simpl in *.
        rewrite (on_ai_lookup k _ e a Ha). rewrite Hw. simpl.
        unfold get. fold a1. fold e1.
        rewrite (bool_decide_ext _ _ (Hdom w)).
        rewrite Hsame in Hrun.
        case_bool_decide; simpl; exact Hrun.
      * intros k' Hk'. apply elem_of_cons in Hk' as [->|Hk'].
        -- rewrite Hout by done. simpl. rewrite lookup_insert_eq, Ha. simpl.
           by rewrite Hal.
        -- rewrite Hl by done. simpl. rewrite lookup_insert_ne; [done|].
           intros ->. done.
      * intros k' Hk'. apply not_elem_of_cons in Hk' as [Hne Hk'].
        rewrite Hout by done. simpl. by rewrite lookup_insert_ne.
    + destruct (IH e votes Hnd') as (m' & Hrun & Hl & Hout).
      { intros k' Hk'. apply Hin. by right. }
      { intros k' a' Hk'. apply Hword. by right. }
      exists m'. split; [|split].
      * unfold vote_of at 1. rewrite Ha. simpl. rewrite Hal. exact Hrun.
      * intros k' Hk'. apply elem_of_cons in Hk' as [->|Hk'].
        -- rewrite Hout by done. rewrite Ha. simpl. by rewrite Hal.
        -- by apply Hl.
      * intros k' Hk'. apply not_elem_of_cons in Hk' as [Hne Hk'].
        by apply Hout.
Qed.

Lemma max_vote_elem (votes : list (string * Z)) (t : string) :
  max_vote votes = Some t → t ∈ votes.*1.
Proof.
  unfold max_vote. destruct votes as [|kn rest]; [discriminate|].
  intros [= <-]. destruct (first_max rest kn) as (pre & post & Heq & _).
  rewrite Heq, fmap_app, fmap_cons. apply elem_of_app. right. by left.
Qed.

(** X16.  The accounts of a negotiation round.  On an engine whose
    dictionary is well formed, when every alive AI returns a ballot that is
    not blank, [run_negotiation_round] returns, and in the engine it leaves
    every alive AI has paid for its public statement and for its ballot,
    dead AIs have paid nothing, and the target of the vote, the most voted
    name among the ballots that count, has lost one point of reputation;
    everything else is as before. *)
Theorem negotiation_accounts (forum ballot : string → string * Z) (n : Z)
    (e : Engine) :
  well_formed e →
  (∀ k a, ais e !! k = Some a → alive a = true →
          is_Some (first_word (ballot k).1)) →
  ∃ m',
    run_negotiation_round forum ballot n e = (Returned tt, set_ais m' e) ∧
    ∀ k, m' !! k
         = after_talk forum ballot
             (max_vote (tally (ballots_cast ballot e))) k <$> ais e !! k.
Proof.
  intros [Hnd Hdom] Hword.
  assert (Hin : ∀ k, k ∈ keys e → is_Some (ais e !! k))
    by (intros k; apply Hdom).
  destruct (for_each_ai_update _
              (λ k a, if alive a
                      then set_token_bank (token_bank a - (forum k).2) a
                      else a)
              (keys e) (forum_turn forum) e Hnd Hin)
    as (m1 & Hrun1 & Hl1 & Hout1).
  set (e1 := set_ais m1 e) in *.
  assert (Hm1 : ∀ k, m1 !! k
                     = (λ a, if alive a
                             then set_token_bank
                                    (token_bank a - (forum k).2) a
                             else a) <$> ais e !! k).
  { intros k. destruct (decide (k ∈ keys e)) as [Hk|Hk]; [by apply Hl1|].
    rewrite Hout1 by done.
    destruct (ais e !! k) eqn:Hek; [|done].
    exfalso. apply Hk, Hdom. by eexists. }
  assert (Hdom1 : ∀ w, is_Some (ais e1 !! w) ↔ is_Some (ais e !! w)).
  { intros w. simpl. rewrite Hm1. by rewrite fmap_is_Some. }
  destruct (vote_loop ballot (keys e1) e1 [] Hnd)
    as (m2 & Hrun2 & Hl2 & Hout2).
  { intros k Hk. apply Hdom1, Hin, Hk. }
  { intros k a Hk Ha Hal. simpl in Ha. rewrite Hm1 in Ha.
    destruct (ais e !! k) as [a0|] eqn:Ha0; [|done].
    apply (Hword k a0 Ha0). simpl in Ha. injection Ha as <-.
    destruct (alive a0) eqn:Hal0; [done|].
    rewrite Hal0 in Hal. congruence. }
  assert (Hcast : omap (vote_of ballot e1) (keys e1) = ballots_cast ballot e).
  { unfold ballots_cast. apply omap_ext_in. intros k Hk.
    apply vote_of_alive; [|done]. simpl. rewrite Hm1.
    destruct (ais e !! k) as [a0|]; [|done]. simpl.
    by destruct (alive a0) eqn:Hal0; simpl; rewrite ?Hal0. }
  rewrite Hcast in Hrun2. fold (tally (ballots_cast ballot e)) in Hrun2.
  change (set_ais m2 e1) with (set_ais m2 e) in Hrun2.
  assert (Hvote : _run_sabotage_vote ballot e1
                  = (Returned (tally (ballots_cast ballot e)), set_ais m2 e)).
  { unfold _run_sabotage_vote.
    rewrite (V3More.bind_returned get _ e1 e1 e1 eq_refl). exact Hrun2. }
  assert (Hm2 : ∀ k, m2 !! k
                     = after_talk forum ballot None k <$> ais e !! k).
  { intros k. destruct (decide (k ∈ keys e)) as [Hk|Hk].
    - rewrite (Hl2 k Hk). simpl. rewrite Hm1.
      destruct (ais e !! k) as [a0|]; [|done]. simpl. f_equal.
      unfold after_talk. rewrite bool_decide_eq_false_2 by done.
      destruct (alive a0) eqn:Hal0; simpl; [|by rewrite Hal0].
      rewrite Hal0. done.
    - rewrite (Hout2 k Hk). simpl. rewrite Hm1.
      destruct (ais e !! k) eqn:Hek; [|done].
      exfalso. apply Hk, Hdom. by eexists. }
  unfold run_negotiation_round.
  rewrite (V3More.bind_returned get _ e e e eq_refl).
  erewrite V3More.bind_returned by exact Hrun1.
  erewrite V3More.bind_returned by exact Hvote.
  destruct (max_vote (tally (ballots_cast ballot e))) as [t|] eqn:Ht.
  - assert (Htin : is_Some (ais e !! t)).
    { apply max_vote_elem in Ht. apply (proj1 (proj2 (tally_keys (ballots_cast ballot e)) t)) in Ht.
      apply list_elem_of_omap in Ht as (k & _ & Hv).
      unfold vote_of in Hv. destruct (ais e !! k) as [a0|]; [|done].
      simpl in Hv. destruct (alive a0); [|done].
      destruct (first_word (ballot k).1) as [w|]; [|done]. simpl in Hv.
      case_bool_decide; by simplify_eq. }
    destruct Htin as [a0 Ha0].
    unfold _apply_group_sabotage.
    erewrite on_ai_lookup by (simpl; rewrite Hm2, Ha0; reflexivity).
    eexists. split; [reflexivity|]. intros k. simpl.
    destruct (decide (k = t)) as [->|Hne].
    + rewrite lookup_insert_eq, Ha0. simpl. f_equal.
      unfold after_talk.
      rewrite (bool_decide_eq_true_2 (Some t = Some t)) by done.
      by rewrite (bool_decide_eq_false_2 (None = Some t)) by done.
    + rewrite lookup_insert_ne by done. rewrite Hm2.
      destruct (ais e !! k) as [a|]; [|done]. simpl. f_equal.
      unfold after_talk. by rewrite !bool_decide_eq_false_2 by congruence.
  - exists m2. split; [done|]. exact Hm2.
Qed.

Lemma season_start_well_formed : well_formed season_start.
Proof.
  split; [apply (bool_decide_unpack _); by vm_compute|].
  intros k. split; [apply season_start_present|].
  intros [a Ha]. simpl in *.
  destruct (decide (k = "DeepSeek")) as [->|?];
    [by apply (bool_decide_unpack _)|].
  rewrite lookup_insert_ne in Ha by done.
  destruct (decide (k = "Grok")) as [->|?];
    [by apply (bool_decide_unpack _)|].
  rewrite lookup_insert_ne in Ha by done.
  destruct (decide (k = "ChatGPT")) as [->|?];
    [by apply (bool_decide_unpack _)|].
  rewrite lookup_insert_ne in Ha by done.
  destruct (decide (k = "Claude")) as [->|?];
    [by apply (bool_decide_unpack _)|].
  rewrite lookup_insert_ne in Ha by done.
  by rewrite lookup_empty in Ha.
Qed.

Lemma negotiation_accounts_witness :
  ∃ m',
    run_negotiation_round (forum (grudge_script 5)) (ballot (grudge_script 5))
      5 season_start
    = (Returned tt, set_ais m' season_start) ∧
    (token_bank <$> m' !! "Grok") = Some 9890 ∧
    (reputation_score <$> m' !! "Grok") = Some (-1) ∧
    (reputation_score <$> m' !! "Claude") = Some 0.
Proof.
  destruct (negotiation_accounts (forum (grudge_script 5))
              (ballot (grudge_script 5)) 5 season_start
              season_start_well_formed) as (m' & Hrun & Hm').
  { intros k a _ _. simpl. case_bool_decide; by eexists. }
  exists m'. split; [exact Hrun|]. rewrite !Hm'. by vm_compute.
Defined.

(** *** A blank ballot *)

Lemma vote_loop_blank (ballot : string → string * Z) (l : list string) :
  ∀ (e : Engine) (votes : list (string * Z)),
    (∀ k, k ∈ l → is_Some (ais e !! k)) →
    (∃ k a, k ∈ l ∧ ais e !! k = Some a ∧ alive a = true ∧
            first_word (ballot k).1 = None) →
    ∃ e',
      for_fold l
        (λ votes k,
           a ← ai_get k;
           if negb (alive a) then mret votes
           else
             let '(vote, cost) := ballot k in
             on_ai k (λ a, set_token_bank (token_bank a - cost) a);;
             match first_word vote with
             | None => raise IndexError
             | Some vote_clean =>
                 e' ← get;
                 if bool_decide (is_Some (ais e' !! vote_clean))
                 then mret (count_vote vote_clean votes)
                 else mret votes
             end)
        votes e
      = (Raised IndexError, e').
Proof.
  induction l as [|k0 l IH]; intros e votes Hin (k & a & Hk & Ha & Hal & Hw).
  - by apply elem_of_nil in Hk.
  - destruct (Hin k0) as [a0 Ha0]; [by left|].
    cbn [for_fold]. V3Facts.py_unfold.
    rewrite (ai_get_lookup k0 e a0 Ha0).
    destruct (alive a0) eqn:Hal0; cbn [negb].
    + destruct (ballot k0) as [vote cost] eqn:Hb0.
      rewrite (on_ai_lookup k0 _ e a0 Ha0).
      destruct (first_word vote) as [w|] eqn:Hw0; [|by eexists].
      unfold get.
      assert (Hne : k ≠ k0).
      { intros ->. rewrite Hb0 in Hw. simpl in Hw. congruence. }
      apply elem_of_cons in Hk as [?|Hk]; [done|].
      case_bool_decide;
        (apply IH;
         [intros k' Hk'; simpl; destruct (decide (k' = k0)) as [->|?];
          [rewrite lookup_insert_eq; by eexists
          |rewrite lookup_insert_ne by done; apply Hin; by right]
         |exists k, a; simpl; by rewrite lookup_insert_ne]).
    + assert (Hne : k ≠ k0) by (intros ->; congruence).
      apply elem_of_cons in Hk as [?|Hk]; [done|].
      apply IH; [intros k' Hk'; apply Hin; by right|].
      by exists k, a.
Qed.


End V5More.
